(** * EventHub: the in-memory RSVP engine

    A shallow embedding of the two service singletons of the server,
    [EventService] (the event store with its capacity counters) and
    [RSVPService] (the RSVP ledger), with the two operations that write to
    both, [createRSVP] and [cancelRSVP].

    Conventions of the embedding.
    - A JavaScript Number that may be [NaN] is a [Num]. The counters
      [capacity] and [currentAttendees] are integers in the range where
      [++] and [--] are exact; they are [Z].
    - [parseInt(eventId)] is taken as already evaluated: the operations
      receive its value, a [Num] ([NaN] when the route parameter is not
      numeric).
    - [event.date] is only ever read through [new Date(event.date)], so the
      field holds that time value in milliseconds ([NaN] for an invalid
      date).
    - Clock reads ([new Date()], [Date.now()]) are inputs of the operation
      that performs them.
    - [Logger] calls only write to the console and are left out.
    - Both services are module-level singletons; their fields form one
      [Store] that every operation receives and returns.
    - The first part gives every property of an event the type that
      [initializeDefaultEvents] and [createEvent] aim at ([Event.t]). There
      [attendees] is an array, so [push] and [filter] on it cannot throw
      and no [catch] block of [RSVPService] is entered. The second part
      ([RawEvent], [Raw], [Http]) drops that: [capacity] may be NaN,
      [attendees] may be no array, the request bodies carry any value,
      and the [catch] blocks are embedded. [typed_store_agrees] relates
      the two parts.
    - The mongoose routes ([routes/rsvp.js]) make the same checks in the
      same order against the database; they are outside this embedding. *)

From Stdlib Require Import ZArith Ascii String List Bool Lia.
From Stdlib Require Import DecimalString DecimalZ.
From stdpp Require Import base list.

Local Open Scope string_scope.
Local Open Scope list_scope.
Local Open Scope Z_scope.

(** ** JavaScript values and array helpers *)

Inductive Num : Type :=
  | Int (z : Z)
  | NaN.

(** [a === b] on Numbers: [NaN] equals nothing, itself included. *)
Definition strict_eq (a b : Num) : bool :=
  match a, b with
  | Int x, Int y => x =? y
  | _, _ => false
  end.

(** [a <= b] on Numbers: every comparison with [NaN] is false. *)
Definition num_le (a b : Num) : bool :=
  match a, b with
  | Int x, Int y => x <=? y
  | _, _ => false
  end.

Inductive JsValue : Type :=
  | VNumber (n : Num)
  | VString (s : string)
  | VUndefined.

(** [Array.prototype.findIndex]; [None] stands for [-1]. *)
Fixpoint findIndex {A : Type} (p : A -> bool) (l : list A) : option nat :=
  match l with
  | [] => None
  | x :: l' => if p x then Some O else S <$> findIndex p l'
  end.

(** [Array.prototype.push]. *)
Definition push {A : Type} (l : list A) (x : A) : list A := l ++ [x].

(** [const o = arr.find(p); if (o) { ...mutate o... }]: [find] hands out a
    reference to the first matching element, which is then updated in
    place. *)
Definition mutateFound {A : Type} (p : A -> bool) (f : A -> A) (l : list A)
  : list A :=
  match findIndex p l with
  | Some j => alter f j l
  | None => l
  end.

(** ** Data model *)

Module Event.
Record t : Type := mk {
  id : Z;
  title : string;
  description : string;
  date : Num;
  location : string;
  capacity : Z;
  currentAttendees : Z;
  creator : string;
  creatorName : string;
  attendees : list string;
  createdAt : string
}.

(** [event.currentAttendees++; event.attendees.push(userId)] *)
Definition addAttendee (userId : string) (e : t) : t :=
  mk (id e) (title e) (description e) (date e) (location e) (capacity e)
     (currentAttendees e + 1) (creator e) (creatorName e)
     (push (attendees e) userId) (createdAt e).

(** [event.currentAttendees--;
     event.attendees = event.attendees.filter(id => id !== userId)] *)
Definition removeAttendee (userId : string) (e : t) : t :=
  mk (id e) (title e) (description e) (date e) (location e) (capacity e)
     (currentAttendees e - 1) (creator e) (creatorName e)
     (List.filter (fun a => negb (String.eqb a userId)) (attendees e))
     (createdAt e).

(** [e.id === parseInt(eventId)] *)
Definition hasId (eventId : Num) (e : t) : bool :=
  strict_eq (Int (id e)) eventId.
End Event.

Inductive Status : Type :=
  | attending
  | cancelled.

Definition Status_eqb (a b : Status) : bool :=
  match a, b with
  | attending, attending | cancelled, cancelled => true
  | _, _ => false
  end.

Definition Status_str (st : Status) : string :=
  match st with
  | attending => "attending"
  | cancelled => "cancelled"
  end.

Module Rsvp.
(** The object literal built by [createRSVP]: exactly these five
    properties. *)
Record t : Type := mk {
  id : Z;
  userId : string;
  eventId : Num;
  status : Status;
  createdAt : string
}.

(** [rsvp.status = st] *)
Definition setStatus (st : Status) (r : t) : t :=
  mk (id r) (userId r) (eventId r) st (createdAt r).

(** [r.userId === userId && r.eventId === parseInt(eventId) &&
     r.status === 'attending'] *)
Definition isActiveFor (uid : string) (eid : Num) (r : t) : bool :=
  String.eqb (userId r) uid && strict_eq (eventId r) eid
  && Status_eqb (status r) attending.

(** Property read [r[key]]: a name that is not a property of the
    object reads as [undefined]. *)
Definition get (r : t) (key : string) : JsValue :=
  if String.eqb key "id" then VNumber (Int (id r))
  else if String.eqb key "userId" then VString (userId r)
  else if String.eqb key "eventId" then VNumber (eventId r)
  else if String.eqb key "status" then VString (Status_str (status r))
  else if String.eqb key "createdAt" then VString (createdAt r)
  else VUndefined.
End Rsvp.

(** The state of the two singletons: [EventService.events],
    [EventService.nextEventId] and [RSVPService.rsvps]. *)
Record Store : Type := mkStore {
  events : list Event.t;
  nextEventId : Z;
  rsvps : list Rsvp.t
}.

(** ** EventService *)

Module Creator.
Record t : Type := mk { _id : string; name : string; email : string }.
End Creator.

Module Formatted.
(** [{ ...event, _id: event.id, creator: { ... } }]: [spread] carries the
    copied properties, [creator] is the object that replaces the copied
    [creator] string. *)
Record t : Type := mk { spread : Event.t; _id : Z; creator : Creator.t }.
End Formatted.

(** The result objects [{ success, message, error, event }]; a property
    that the object literal does not mention is [None]. *)
Record Result : Type := mkResult {
  success : bool;
  message : option string;
  error : option string;
  event : option Formatted.t
}.

Definition failure (msg : string) : Result :=
  mkResult false None (Some msg) None.

(** The two events of [initializeDefaultEvents]. [tomorrow] and
    [nextWeek] are the time values of the two computed dates, [created] is
    the [new Date().toISOString()] stamp. *)
Definition techConference (tomorrow : Z) (created : string) : Event.t :=
  Event.mk 1 "Tech Conference 2024"
    "Join us for an exciting technology conference featuring the latest innovations in web development, AI, and cloud computing. Network with industry professionals and learn from expert speakers."
    (Int tomorrow) "Convention Center, Downtown" 150 23
    "admin" "Event Admin" [] created.

Definition communityMeetup (nextWeek : Z) (created : string) : Event.t :=
  Event.mk 2 "Community Meetup"
    "Monthly community meetup for developers and tech enthusiasts. Come share your projects, learn new skills, and connect with like-minded people in a casual environment."
    (Int nextWeek) "Community Center, Main Street" 50 12
    "admin" "Event Admin" [] created.

Definition initializeDefaultEvents
    (tomorrow nextWeek : Z) (created1 created2 : string) : list Event.t :=
  [ techConference tomorrow created1; communityMeetup nextWeek created2 ].

(** Both constructors: [this.events = this.initializeDefaultEvents();
    this.nextEventId = 3] and [this.rsvps = []]. *)
Definition initialStore
    (tomorrow nextWeek : Z) (created1 created2 : string) : Store :=
  mkStore (initializeDefaultEvents tomorrow nextWeek created1 created2) 3 [].

(** [event.creatorName || 'Event Admin'] *)
Definition nameOrDefault (n : string) : string :=
  if String.eqb n "" then "Event Admin" else n.

Definition format (e : Event.t) : Formatted.t :=
  Formatted.mk e (Event.id e)
    (Creator.mk (Event.creator e) (nameOrDefault (Event.creatorName e))
       "admin@example.com").

Definition getEventById (eventId : Num) (s : Store) : Result :=
  match find (Event.hasId eventId) (events s) with
  | None => failure "Event not found"
  | Some e => mkResult true None None (Some (format e))
  end.

(** [createEvent]. [isValid] is the verdict of
    [Validators.validateEventData(eventData)]; [title], [description] and
    [location] are the strings [Validators.sanitizeString] returns, [date]
    is the time value of [eventData.date], [capacity] the integer
    [parseInt(eventData.capacity)] and [createdIso] the clock stamp. The
    answer carries the new event, or nothing when validation failed. *)
Definition createEvent (isValid : bool) (title description : string)
    (date : Num) (location : string) (capacity : Z)
    (userId createdIso : string) (s : Store) : Store * option Event.t :=
  if negb isValid then (s, None)
  else
    let newEvent :=
      Event.mk (nextEventId s) title description date location capacity 0
        userId "User" [] createdIso in
    (mkStore (push (events s) newEvent) (nextEventId s + 1) (rsvps s),
     Some newEvent).

(** ** RSVPService *)

(** The three clock reads of one [createRSVP] call, in program order:
    [new Date()] of the date check, [Date.now()] of the record id, and
    [new Date().toISOString()] of [createdAt]. *)
Record Clock : Type := mkClock {
  checkedAt : Z;
  idNow : Z;
  createdIso : string
}.

(** [createRSVP(eventId, userId)] on the typed store. There [attendees]
    is an array and the [push] onto it cannot throw, so the [catch] block
    has no part; [Raw.createRSVP] below is the same function on a store
    without that typing, [catch] block included. *)
Definition createRSVP (eventId : Num) (userId : string) (clk : Clock)
    (s : Store) : Store * Result :=
  let eventResult := getEventById eventId s in
  if negb (success eventResult) then (s, eventResult)
  else
    match event eventResult with
    | None =>
      (* [event.date] on [undefined] throws; the [catch] block answers *)
      (s, failure "Failed to process RSVP")
    | Some ev =>
      let e := Formatted.spread ev in
      if num_le (Event.date e) (Int (checkedAt clk)) then
        (s, failure "Cannot RSVP to past events")
      else
        match find (Rsvp.isActiveFor userId eventId) (rsvps s) with
        | Some _ => (s, failure "You have already RSVP'd to this event")
        | None =>
          if Event.currentAttendees e >=? Event.capacity e then
            (s, failure "Event is at full capacity")
          else
            let rsvp :=
              Rsvp.mk (idNow clk) userId eventId attending (createdIso clk) in
            let s' :=
              mkStore
                (mutateFound (Event.hasId eventId) (Event.addAttendee userId)
                   (events s))
                (nextEventId s)
                (push (rsvps s) rsvp) in
            (s', mkResult true (Some "RSVP successful") None
                   (event (getEventById eventId s')))
        end
    end.

(** [cancelRSVP(eventId, userId)] on the typed store, where the [filter]
    of [attendees] cannot throw; [Raw.cancelRSVP] below has the [catch]
    block. *)
Definition cancelRSVP (eventId : Num) (userId : string) (s : Store)
    : Store * Result :=
  match findIndex (Rsvp.isActiveFor userId eventId) (rsvps s) with
  | None => (s, failure "No active RSVP found for this event")
  | Some rsvpIndex =>
    let s' :=
      mkStore
        (mutateFound (Event.hasId eventId) (Event.removeAttendee userId) (events s))
        (nextEventId s)
        (alter (Rsvp.setStatus cancelled) rsvpIndex (rsvps s)) in
    (s', mkResult true (Some "RSVP cancelled successfully") None
           (event (getEventById eventId s')))
  end.

(** [checkRSVPStatus]: the record that [find] returns, if any. *)
Definition checkRSVPStatus (eventId : Num) (userId : string) (s : Store)
    : option Rsvp.t :=
  find (Rsvp.isActiveFor userId eventId) (rsvps s).

(** ** Sequences of calls *)

Inductive Call : Type :=
  | CreateRSVP (eventId : Num) (userId : string) (clk : Clock)
  | CancelRSVP (eventId : Num) (userId : string).

Definition perform (c : Call) (s : Store) : Store * Result :=
  match c with
  | CreateRSVP eventId userId clk => createRSVP eventId userId clk s
  | CancelRSVP eventId userId => cancelRSVP eventId userId s
  end.

(** The store after a sequence of calls, and the list of every store that
    can be observed on the way (the starting store included). *)
Fixpoint run (cs : list Call) (s : Store) : Store :=
  match cs with
  | [] => s
  | c :: cs' => run cs' (fst (perform c s))
  end.

Fixpoint observed (cs : list Call) (s : Store) : list Store :=
  match cs with
  | [] => [s]
  | c :: cs' => s :: observed cs' (fst (perform c s))
  end.

(** The results of the calls, in order. *)
Fixpoint results (cs : list Call) (s : Store) : list Result :=
  match cs with
  | [] => []
  | c :: cs' => snd (perform c s) :: results cs' (fst (perform c s))
  end.

(** ** Observations used by the statements *)

(** [r.eventId === id && r.status === 'attending'] *)
Definition activeOn (eid : Z) (r : Rsvp.t) : bool :=
  strict_eq (Rsvp.eventId r) (Int eid) && Status_eqb (Rsvp.status r) attending.

(** Number of 'attending' records of the ledger for event [eid]. *)
Definition activeCount (eid : Z) (l : list Rsvp.t) : Z :=
  Z.of_nat (length (List.filter (activeOn eid) l)).

(** The counter of the event that [find] returns for [eventId]. *)
Definition attendeesOf (eventId : Num) (s : Store) : option Z :=
  Event.currentAttendees <$> find (Event.hasId eventId) (events s).

Definition withinCapacity (e : Event.t) : Prop :=
  Event.currentAttendees e <= Event.capacity e.

Definition hasError (msg : string) (r : Result) : bool :=
  negb (success r) &&
  match error r with
  | Some m => String.eqb m msg
  | None => false
  end.

Definition newRsvp (eventId : Num) (userId : string) (clk : Clock) : Rsvp.t :=
  Rsvp.mk (idNow clk) userId eventId attending (createdIso clk).

(** Every way [createRSVP] can end: the four rejections, which hand back
    the store they received, and the admission. *)
Inductive CreateOutcome (eventId : Num) (userId : string) (clk : Clock)
    (s : Store) : Store -> Result -> Prop :=
  | create_not_found :
      find (Event.hasId eventId) (events s) = None ->
      CreateOutcome eventId userId clk s s (failure "Event not found")
  | create_past e :
      find (Event.hasId eventId) (events s) = Some e ->
      num_le (Event.date e) (Int (checkedAt clk)) = true ->
      CreateOutcome eventId userId clk s s
        (failure "Cannot RSVP to past events")
  | create_duplicate e r :
      find (Event.hasId eventId) (events s) = Some e ->
      num_le (Event.date e) (Int (checkedAt clk)) = false ->
      find (Rsvp.isActiveFor userId eventId) (rsvps s) = Some r ->
      CreateOutcome eventId userId clk s s
        (failure "You have already RSVP'd to this event")
  | create_full e :
      find (Event.hasId eventId) (events s) = Some e ->
      num_le (Event.date e) (Int (checkedAt clk)) = false ->
      find (Rsvp.isActiveFor userId eventId) (rsvps s) = None ->
      Event.capacity e <= Event.currentAttendees e ->
      CreateOutcome eventId userId clk s s
        (failure "Event is at full capacity")
  | create_admitted e l1 l2 :
      events s = l1 ++ e :: l2 ->
      find (Event.hasId eventId) l1 = None ->
      eventId = Int (Event.id e) ->
      num_le (Event.date e) (Int (checkedAt clk)) = false ->
      find (Rsvp.isActiveFor userId eventId) (rsvps s) = None ->
      Event.currentAttendees e < Event.capacity e ->
      CreateOutcome eventId userId clk s
        (mkStore (l1 ++ Event.addAttendee userId e :: l2) (nextEventId s)
           (rsvps s ++ [newRsvp eventId userId clk]))
        (mkResult true (Some "RSVP successful") None
           (Some (format (Event.addAttendee userId e)))).

(** Every way [cancelRSVP] can end. *)
Inductive CancelOutcome (eventId : Num) (userId : string) (s : Store)
    : Store -> Result -> Prop :=
  | cancel_none :
      find (Rsvp.isActiveFor userId eventId) (rsvps s) = None ->
      CancelOutcome eventId userId s s
        (failure "No active RSVP found for this event")
  | cancel_done r1 r r2 evs' :
      rsvps s = r1 ++ r :: r2 ->
      find (Rsvp.isActiveFor userId eventId) r1 = None ->
      Rsvp.isActiveFor userId eventId r = true ->
      evs' = mutateFound (Event.hasId eventId) (Event.removeAttendee userId)
               (events s) ->
      CancelOutcome eventId userId s
        (mkStore evs' (nextEventId s)
           (r1 ++ Rsvp.setStatus cancelled r :: r2))
        (mkResult true (Some "RSVP cancelled successfully") None
           (format <$> find (Event.hasId eventId) evs')).

(** How far the counter of event [k] is ahead of its 'attending'
    records. *)
Definition surplus (k : Z) (s : Store) : option Z :=
  (fun e => Event.currentAttendees e - activeCount k (rsvps s))
    <$> find (Event.hasId (Int k)) (events s).

(** The equation the data model asks for: each counter is the number of
    'attending' records of its event. *)
Definition countsMatchLedger (s : Store) : Prop :=
  forall e, e ∈ events s ->
    Event.currentAttendees e = activeCount (Event.id e) (rsvps s).

(** The two default events are in their places, and each counter is its
    seeded value plus the number of 'attending' records. *)
Definition countsFollowLedger (s : Store) : Prop :=
  exists e1 e2,
    events s = [e1; e2] /\ Event.id e1 = 1 /\ Event.id e2 = 2 /\
    Event.currentAttendees e1 = 23 + activeCount 1 (rsvps s) /\
    Event.currentAttendees e2 = 12 + activeCount 2 (rsvps s).


Definition activeFor (uid : string) (eid : Num) (l : list Rsvp.t) : nat :=
  length (List.filter (Rsvp.isActiveFor uid eid) l).

Definition atMostOneActive (l : list Rsvp.t) : Prop :=
  forall uid eid, (activeFor uid eid l <= 1)%nat.

(** The stores the running server can be in: the ledger starts empty and
    only [createRSVP] and [cancelRSVP] write to it; the operations of
    EventService may replace the event store in any way. *)
Inductive reachable : Store -> Prop :=
  | reachable_start evs next : reachable (mkStore evs next [])
  | reachable_call c s : reachable s -> reachable (fst (perform c s))
  | reachable_events evs next s :
      reachable s -> reachable (mkStore evs next (rsvps s)).



Definition isFull : Result -> bool := hasError "Event is at full capacity".

(** The store in which "user-9" has added a third event of the given
    capacity to the two default ones. *)
Definition smallEventStore (capacity : Z) : Store :=
  fst (createEvent true "Board games night"
         "An evening of board games for all ages" (Int 3000) "City Library"
         capacity "user-9" "" (initialStore 1000 2000 "" "")).

(** Every id in use lies below the next id that [createEvent] will hand
    out. *)
Definition idsBelowNext (s : Store) : Prop :=
  Forall (fun e => Event.id e < nextEventId s) (events s) /\
  Forall (fun r => exists z, Rsvp.eventId r = Int z /\ z < nextEventId s)
    (rsvps s).

(** A record of the ledger as it is seen again after a call: the same
    record, except that it may have gone from 'attending' to
    'cancelled'. *)
Definition sameOrCancelled (r r' : Rsvp.t) : Prop :=
  r' = r \/ (Rsvp.status r = attending /\ r' = Rsvp.setStatus cancelled r).

(** * The other operations of the services

    From here on a [string] is read as a JavaScript string whose UTF-16
    code units all lie below 256, one [ascii] per code unit; strings with
    other characters are outside the embedding. *)

(** ** String helpers *)

(** [String.prototype.startsWith] *)
Fixpoint startsWith (s t : string) : bool :=
  match t, s with
  | EmptyString, _ => true
  | String b t', String a s' => Ascii.eqb a b && startsWith s' t'
  | String _ _, EmptyString => false
  end.

(** [String.prototype.includes]: [t] occurs in [s]. *)
Fixpoint includes (s t : string) : bool :=
  startsWith s t ||
  match s with
  | EmptyString => false
  | String _ s' => includes s' t
  end.

(** One code unit of [toLowerCase]: A-Z, and the capital letters of the
    Latin-1 block (U+00C0 to U+00DE without the sign U+00D7), move up by
    32; every other code unit below 256 stays. *)
Definition lowerUnit (a : ascii) : ascii :=
  let n := nat_of_ascii a in
  if ((65 <=? n) && (n <=? 90))%nat
     || ((192 <=? n) && (n <=? 222) && negb (n =? 215))%nat
  then ascii_of_nat (n + 32)
  else a.

(** [String.prototype.toLowerCase] *)
Fixpoint toLowerCase (s : string) : string :=
  match s with
  | EmptyString => EmptyString
  | String a s' => String (lowerUnit a) (toLowerCase s')
  end.

(** [Array.prototype.filter] with a callback that looks at the index. *)
Fixpoint filterFrom {A : Type} (p : nat -> A -> bool) (i : nat) (l : list A)
  : list A :=
  match l with
  | [] => []
  | x :: l' =>
    if p i x then x :: filterFrom p (S i) l' else filterFrom p (S i) l'
  end.

(** [a > b] on Numbers. *)
Definition num_gt (a b : Num) : bool :=
  match a, b with
  | Int x, Int y => y <? x
  | _, _ => false
  end.

(** ** EventService: queries and deletion *)

(** The callback of the search filter of [getAllEvents]. *)
Definition matchesSearch (searchTerm : string) (e : Event.t) : bool :=
  includes (toLowerCase (Event.title e)) searchTerm
  || includes (toLowerCase (Event.description e)) searchTerm
  || includes (toLowerCase (Event.location e)) searchTerm.

(** [getAllEvents(filters)]. [search] is [filters.search]; [clock i] is the
    [new Date()] that the date filter reads in its callback for the
    element at index [i]. The answer is the [events] array of the
    result. *)
Definition getAllEvents (search : option string) (clock : nat -> Z)
    (s : Store) : list Event.t :=
  let filteredEvents :=
    match search with
    | None => events s
    | Some term =>
      if String.eqb term "" then events s
      else List.filter (matchesSearch (toLowerCase term)) (events s)
    end in
  filterFrom (fun i e => num_gt (Event.date e) (Int (clock i))) O
    filteredEvents.

(** Whether the search filter of [getAllEvents] keeps an event: without a
    search term it keeps every event. *)
Definition passesSearch (search : option string) (e : Event.t) : bool :=
  match search with
  | None => true
  | Some term =>
    String.eqb term "" || matchesSearch (toLowerCase term) e
  end.

(** [getUserEvents(userId)]: the [events] array of the result. *)
Definition getUserEvents (userId : string) (s : Store) : list Event.t :=
  List.filter (fun e => String.eqb (Event.creator e) userId) (events s).

(** [deleteEvent(eventId, userId)] *)
Definition deleteEvent (eventId : Num) (userId : string) (s : Store)
    : Store * Result :=
  match findIndex (Event.hasId eventId) (events s) with
  | None => (s, failure "Event not found")
  | Some eventIndex =>
    match events s !! eventIndex with
    | None =>
      (* [event.creator] on [undefined] throws; the [catch] block answers *)
      (s, failure "Failed to delete event")
    | Some e =>
      if negb (String.eqb (Event.creator e) userId) then
        (s, failure "Not authorized to delete this event")
      else
        (mkStore (delete eventIndex (events s)) (nextEventId s) (rsvps s),
         mkResult true (Some "Event deleted successfully") None None)
    end
  end.

(** ** RSVPService: queries *)

(** [getUserRSVPs(userId)]: the [events] array of the result. [omap] is
    the [map] to [getEventById(rsvp.eventId).event] followed by the filter
    that drops [undefined]. *)
Definition getUserRSVPs (userId : string) (s : Store) : list Formatted.t :=
  let userRsvps :=
    List.filter
      (fun r => String.eqb (Rsvp.userId r) userId
                && Status_eqb (Rsvp.status r) attending)
      (rsvps s) in
  omap (fun r => event (getEventById (Rsvp.eventId r) s)) userRsvps.

(** ** Validators *)

(** A value that the code expects to be a text, as far as the code tells
    such values apart: [!v] and [typeof v]. *)
Inductive TextValue : Type :=
  | Falsy              (* undefined, null, false or 0 *)
  | Str (s : string)   (* a string, the empty one included *)
  | NotAString.        (* true, a number but 0, an array, an object *)

Module EventData.
(** What [validateEventData] and [createEvent] read off
    [eventData.capacity], whatever value the request carries there:
    [!capacity], [capacity < 1], [capacity > 10000] and
    [parseInt(capacity)]. The Number 50 and the text '50' both read
    (false, false, false, 50); the text 'abc' reads (false, false,
    false, NaN), and so does [true]; the text '-5abc' reads (false,
    false, false, -5), since as a Number it is NaN and every comparison
    with NaN is false. *)
Record Capacity : Type := mkCapacity {
  falsy : bool;
  belowOne : bool;
  aboveMax : bool;
  parsed : Num
}.

(** The readings of an integer Number [c]. *)
Definition ofInteger (c : Z) : Capacity :=
  mkCapacity (c =? 0) (c <? 1) (10000 <? c) (Int c).

(** The readings of a missing [capacity]. *)
Definition noCapacity : Capacity := mkCapacity true false false NaN.

(** The request body of [createEvent]: an object, read at the five
    properties the code reads. [date] is [None] for a falsy value and
    otherwise holds the time value of [new Date(date)], [NaN] when the
    value is no date. *)
Record t : Type := mk {
  title : TextValue;
  description : TextValue;
  date : option Num;
  location : TextValue;
  capacity : Capacity
}.
End EventData.

Module Validators.
(** The code units below 256 that [trim] strips: TAB, LF, VT, FF, CR,
    SPACE and NO-BREAK SPACE. *)
Definition isWhiteSpace (a : ascii) : bool :=
  let n := nat_of_ascii a in
  ((9 <=? n) && (n <=? 13) || (n =? 32) || (n =? 160))%nat.

Fixpoint trimStart (s : string) : string :=
  match s with
  | EmptyString => EmptyString
  | String a s' => if isWhiteSpace a then trimStart s' else s
  end.

Fixpoint trimEnd (s : string) : string :=
  match s with
  | EmptyString => EmptyString
  | String a s' =>
    match trimEnd s' with
    | EmptyString => if isWhiteSpace a then EmptyString else String a EmptyString
    | rest => String a rest
    end
  end.

(** [String.prototype.trim] *)
Definition trim (s : string) : string := trimEnd (trimStart s).

Definition isAngle (a : ascii) : bool :=
  Ascii.eqb a "<"%char || Ascii.eqb a ">"%char.

(** [str.replace(/[<>]/g, '')] *)
Fixpoint removeAngles (s : string) : string :=
  match s with
  | EmptyString => EmptyString
  | String a s' =>
    if isAngle a then removeAngles s' else String a (removeAngles s')
  end.

(** [sanitizeString(str)]: [str ? str.trim().replace(/[<>]/g, '') : ''] *)
Definition sanitizeString (str : option string) : string :=
  match str with
  | None => ""
  | Some s => if String.eqb s "" then "" else removeAngles (trim s)
  end.

(** [sanitizeString(v)] for any value [v]: [None] when [v] is truthy and
    no string, so that [v.trim] is not a function and the call throws. *)
Definition sanitizeValue (v : TextValue) : option string :=
  match v with
  | Falsy => Some ""
  | Str s => Some (sanitizeString (Some s))
  | NotAString => None
  end.

(** [!text || text.trim().length < n]; [None] when [text.trim] is not a
    function and the test throws. *)
Definition tooShort (text : TextValue) (n : nat) : option bool :=
  match text with
  | Falsy => Some true
  | Str s => Some (String.eqb s "" || (String.length (trim s) <? n)%nat)
  | NotAString => None
  end.

(** [validatePassword(password)] as a condition, for a string. *)
Definition validatePassword (password : string) : bool :=
  negb (String.eqb password "") && (6 <=? String.length password)%nat.

(** [!date || new Date(date) <= new Date()] *)
Definition notInFuture (date : option Num) (now : Z) : bool :=
  match date with
  | None => true
  | Some d => num_le d (Int now)
  end.

(** [!capacity || capacity < 1 || capacity > 10000] *)
Definition outOfRange (capacity : EventData.Capacity) : bool :=
  EventData.falsy capacity || EventData.belowOne capacity
  || EventData.aboveMax capacity.

(** [validateEventData(eventData)]: the [errors] array, or [None] when
    one of the three text checks throws; the checks run in the order of
    the source, so the first of them that throws ends the call. [now] is
    the [new Date()] of the date check. *)
Definition validationErrors (eventData : EventData.t) (now : Z)
    : option (list string) :=
  let errors := [] in
  match tooShort (EventData.title eventData) 3 with
  | None => None
  | Some short =>
    let errors :=
      if short then push errors "Title must be at least 3 characters long"
      else errors in
    match tooShort (EventData.description eventData) 10 with
    | None => None
    | Some short =>
      let errors :=
        if short
        then push errors "Description must be at least 10 characters long"
        else errors in
      let errors :=
        if notInFuture (EventData.date eventData) now
        then push errors "Event date must be in the future"
        else errors in
      match tooShort (EventData.location eventData) 3 with
      | None => None
      | Some short =>
        let errors :=
          if short
          then push errors "Location must be at least 3 characters long"
          else errors in
        let errors :=
          if outOfRange (EventData.capacity eventData)
          then push errors "Capacity must be between 1 and 10,000"
          else errors in
        Some errors
      end
    end
  end.

(** [validateEventData(eventData)]: the pair [(isValid, errors)], or
    [None] when it throws. *)
Definition validateEventData (eventData : EventData.t) (now : Z)
    : option (bool * list string) :=
  match validationErrors eventData now with
  | None => None
  | Some errors => Some (match errors with [] => true | _ => false end, errors)
  end.
End Validators.


(** Number of '<' and '>' in a text. *)
Fixpoint countAngles (s : string) : nat :=
  match s with
  | EmptyString => O
  | String a s' =>
    ((if Validators.isAngle a then 1 else 0) + countAngles s')%nat
  end.

(** ** EventService.updateEvent *)

(** [String(n)], which is also the conversion in ['user-' + n] and in a
    template literal, for an integer [n] of magnitude below 10^21: the
    decimal digits, after a minus sign for a negative number. *)
Definition numberToString (z : Z) : string :=
  NilZero.string_of_int (Z.to_int z).

Module UpdateData.
(** The request body of an update, read at the properties of an event;
    a property is [None] when the body does not have the key. The
    embedding covers the bodies in which a key that names a property of
    an event carries a value of that property's type: a number for [id],
    [capacity] and [currentAttendees], an array of strings for
    [attendees], a string for the others. [date] holds the time value of
    [new Date(...)] of the sanitised text. Keys that name no property of
    an event add properties that no code reads. *)
Record t : Type := mk {
  id : option Z;
  title : option string;
  description : option string;
  date : option Num;
  location : option string;
  capacity : option Z;
  currentAttendees : option Z;
  creator : option string;
  creatorName : option string;
  attendees : option (list string);
  createdAt : option string
}.

(** The body [{}]. *)
Definition empty : t :=
  mk None None None None None None None None None None None.

(** The body [{ capacity: c }]. *)
Definition onlyCapacity (c : Z) : t :=
  mk None None None None None (Some c) None None None None None.
End UpdateData.

(** [typeof v === 'string' ? Validators.sanitizeString(v) : v] for a
    string [v], or the old value when the key is missing. *)
Definition sanitizedOr (old : string) (v : option string) : string :=
  from_option (fun str => Validators.sanitizeString (Some str)) old v.

(** The [forEach] over [Object.keys(updateData)]: every key of the body
    is assigned to the event, strings after [sanitizeString]. The
    assignments are to different properties, so their order does not
    matter. *)
Definition applyUpdates (updateData : UpdateData.t) (e : Event.t) : Event.t :=
  Event.mk
    (default (Event.id e) (UpdateData.id updateData))
    (sanitizedOr (Event.title e) (UpdateData.title updateData))
    (sanitizedOr (Event.description e) (UpdateData.description updateData))
    (default (Event.date e) (UpdateData.date updateData))
    (sanitizedOr (Event.location e) (UpdateData.location updateData))
    (default (Event.capacity e) (UpdateData.capacity updateData))
    (default (Event.currentAttendees e)
       (UpdateData.currentAttendees updateData))
    (sanitizedOr (Event.creator e) (UpdateData.creator updateData))
    (sanitizedOr (Event.creatorName e) (UpdateData.creatorName updateData))
    (default (Event.attendees e) (UpdateData.attendees updateData))
    (sanitizedOr (Event.createdAt e) (UpdateData.createdAt updateData)).

(** [updateData.capacity && updateData.capacity < event.currentAttendees] *)
Definition reducesBelow (updateData : UpdateData.t) (e : Event.t) : bool :=
  match UpdateData.capacity updateData with
  | None => false
  | Some c => negb (c =? 0) && (c <? Event.currentAttendees e)
  end.

(** [updateEvent(eventId, updateData, userId)]: the store afterwards and
    either the [error] of the result or its [event], which is the stored
    object itself. *)
Definition updateEvent (eventId : Num) (updateData : UpdateData.t)
    (userId : string) (s : Store) : Store * (string + Event.t) :=
  match findIndex (Event.hasId eventId) (events s) with
  | None => (s, inl "Event not found")
  | Some eventIndex =>
    match events s !! eventIndex with
    | None =>
      (* [event.creator] on [undefined] throws; the [catch] block answers *)
      (s, inl "Failed to update event")
    | Some e =>
      if negb (String.eqb (Event.creator e) userId) then
        (s, inl "Not authorized to update this event")
      else if reducesBelow updateData e then
        (s, inl ("Cannot reduce capacity below current attendees ("
                 ++ numberToString (Event.currentAttendees e) ++ ")")%string)
      else
        (mkStore (alter (applyUpdates updateData) eventIndex (events s))
           (nextEventId s) (rsvps s),
         inr (applyUpdates updateData e))
    end
  end.

(** ** Vocabulary for texts and user ids *)

(** Every code unit of a text passes [p]. *)
Fixpoint allUnits (p : ascii -> bool) (s : string) : bool :=
  match s with
  | EmptyString => true
  | String a s' => p a && allUnits p s'
  end.

(** A decimal digit or the minus sign. *)
Definition isNumberUnit (a : ascii) : bool :=
  let n := nat_of_ascii a in
  ((48 <=? n) && (n <=? 57) || (n =? 45))%nat.

(** The user id that [auth] makes up for a request received at [t]. *)
Definition userAt (t : Z) : string := ("user-" ++ numberToString t)%string.

(** ** The auth middleware and the status codes of the routes *)

(** The rest of a string after its first [n] code units. *)
Fixpoint dropUnits (n : nat) (s : string) : string :=
  match n, s with
  | O, _ => s
  | S n', String _ s' => dropUnits n' s'
  | S _, EmptyString => EmptyString
  end.

(** [s.replace(pat, '')] for a string [pat]: the first occurrence of
    [pat] is taken out. *)
Fixpoint removeFirst (s pat : string) : string :=
  if startsWith s pat then dropUnits (String.length pat) s
  else
    match s with
    | EmptyString => EmptyString
    | String a s' => String a (removeFirst s' pat)
    end.

(** The [auth] middleware. [authorization] is
    [req.header('Authorization')], [now] is its [Date.now()]. The answer
    is [req.user.id], or [None] when the middleware sends 401. *)
Definition auth (authorization : option string) (now : Z) : option string :=
  match authorization with
  | None => None
  | Some header =>
    let token := removeFirst header "Bearer " in
    if String.eqb token "" then None
    else Some ("user-" ++ numberToString now)%string
  end.

(** [result.error.includes('not found') ? 404 :
     result.error.includes('authorized') ? 403 : 400] *)
Definition eventErrorStatus (error : string) : Z :=
  if includes error "not found" then 404
  else if includes error "authorized" then 403
  else 400.

(** [result.error.includes('not found') ? 404 : 400] *)
Definition rsvpErrorStatus (error : string) : Z :=
  if includes error "not found" then 404 else 400.

(** ** Validators.validateEmail *)

(** Regular expressions, as far as [emailRegex] needs them and their
    derivatives lead. *)
Inductive Regex : Type :=
  | Never
  | Empty
  | Class (p : ascii -> bool)
  | Then (r1 r2 : Regex)
  | Or (r1 r2 : Regex)
  | Many (r : Regex).

(** [r+] *)
Definition Plus (r : Regex) : Regex := Then r (Many r).

Fixpoint nullable (r : Regex) : bool :=
  match r with
  | Never => false
  | Empty => true
  | Class _ => false
  | Then r1 r2 => nullable r1 && nullable r2
  | Or r1 r2 => nullable r1 || nullable r2
  | Many _ => true
  end.

(** What is left of [r] to match after the code unit [a]. *)
Fixpoint derive (a : ascii) (r : Regex) : Regex :=
  match r with
  | Never => Never
  | Empty => Never
  | Class p => if p a then Empty else Never
  | Then r1 r2 =>
    if nullable r1 then Or (Then (derive a r1) r2) (derive a r2)
    else Then (derive a r1) r2
  | Or r1 r2 => Or (derive a r1) (derive a r2)
  | Many r' => Then (derive a r') (Many r')
  end.

(** [/^r$/.test(s)] *)
Fixpoint test (r : Regex) (s : string) : bool :=
  match s with
  | EmptyString => nullable r
  | String a s' => test (derive a r) s'
  end.

(** The texts a regular expression stands for. *)
Inductive Matches : Regex -> string -> Prop :=
  | matches_empty : Matches Empty ""
  | matches_class p a : p a = true -> Matches (Class p) (String a "")
  | matches_then r1 r2 s1 s2 :
      Matches r1 s1 -> Matches r2 s2 -> Matches (Then r1 r2) (s1 ++ s2)
  | matches_or_l r1 r2 s : Matches r1 s -> Matches (Or r1 r2) s
  | matches_or_r r1 r2 s : Matches r2 s -> Matches (Or r1 r2) s
  | matches_many_nil r : Matches (Many r) ""
  | matches_many_cons r s1 s2 :
      Matches r s1 -> Matches (Many r) s2 -> Matches (Many r) (s1 ++ s2).

(** [[^\s@]]: any code unit but white space and '@'. The white space of
    [\s] below 256 is that of [trim]. *)
Definition notSpaceOrAt (a : ascii) : bool :=
  negb (Validators.isWhiteSpace a || Ascii.eqb a "@"%char).

(** [/^[^\s@]+@[^\s@]+\.[^\s@]+$/] *)
Definition emailRegex : Regex :=
  Then (Plus (Class notSpaceOrAt))
    (Then (Class (Ascii.eqb "@"%char))
       (Then (Plus (Class notSpaceOrAt))
          (Then (Class (Ascii.eqb "."%char))
             (Plus (Class notSpaceOrAt))))).

(** [validateEmail(email)] for a string. *)
Definition validateEmail (email : string) : bool := test emailRegex email.

(** * The services on the store as the server can hold it

    [Event.t] gives every property of an event the type that
    [initializeDefaultEvents] and [createEvent] aim at, and on such
    events no [catch] block of [RSVPService] is ever entered. The server
    can hold two other kinds of value. [createEvent] stores
    [parseInt(eventData.capacity)], which is NaN when the request's value
    does not start with digits. [updateEvent] assigns whatever the
    request carries, so [attendees] can become a value without [push]
    and [filter]. [RawEvent.t] allows for both, and the module [Raw]
    embeds the two services on it, [catch] blocks included. On events
    that have the types of [Event.t] the two embeddings agree
    ([widen]). *)

(** [a >= b] on Numbers. *)
Definition num_ge (a b : Num) : bool :=
  match a, b with
  | Int x, Int y => y <=? x
  | _, _ => false
  end.

(** The value of [attendees]: an array of user ids, or a value that is
    no array (a string, a number, [null], an object), which the code
    never looks into. *)
Inductive Attendees : Type :=
  | Array (ids : list string)
  | NotArray.

Module RawEvent.
Record t : Type := mk {
  id : Z;
  title : string;
  description : string;
  date : Num;
  location : string;
  capacity : Num;
  currentAttendees : Z;
  creator : string;
  creatorName : string;
  attendees : Attendees;
  createdAt : string
}.

(** An event of the typed store, as it is. *)
Definition ofTyped (e : Event.t) : t :=
  mk (Event.id e) (Event.title e) (Event.description e) (Event.date e)
     (Event.location e) (Int (Event.capacity e)) (Event.currentAttendees e)
     (Event.creator e) (Event.creatorName e) (Array (Event.attendees e))
     (Event.createdAt e).

(** [e.id === parseInt(eventId)] *)
Definition hasId (eventId : Num) (e : t) : bool :=
  strict_eq (Int (id e)) eventId.

(** Whether [event.attendees.push] and [event.attendees.filter] are
    functions. *)
Definition hasArray (e : t) : bool :=
  match attendees e with
  | Array _ => true
  | NotArray => false
  end.

(** [event.currentAttendees++; event.attendees.push(userId)]. When
    [attendees] is no array the second statement throws, after the
    first has been carried out. *)
Definition addAttendee (userId : string) (e : t) : t :=
  mk (id e) (title e) (description e) (date e) (location e) (capacity e)
     (currentAttendees e + 1) (creator e) (creatorName e)
     (match attendees e with
      | Array ids => Array (push ids userId)
      | NotArray => NotArray
      end)
     (createdAt e).

(** [event.currentAttendees--;
     event.attendees = event.attendees.filter(id => id !== userId)].
    When [attendees] is no array the second statement throws, after the
    first has been carried out. *)
Definition removeAttendee (userId : string) (e : t) : t :=
  mk (id e) (title e) (description e) (date e) (location e) (capacity e)
     (currentAttendees e - 1) (creator e) (creatorName e)
     (match attendees e with
      | Array ids =>
        Array (List.filter (fun a => negb (String.eqb a userId)) ids)
      | NotArray => NotArray
      end)
     (createdAt e).

(** [event.currentAttendees >= event.capacity] *)
Definition isFull (e : t) : bool :=
  num_ge (Int (currentAttendees e)) (capacity e).
End RawEvent.

Module Raw.
Module Formatted.
Record t : Type := mk { spread : RawEvent.t; _id : Z; creator : Creator.t }.
End Formatted.

(** The result objects [{ success, message, error, event }]. *)
Record Result : Type := mkResult {
  success : bool;
  message : option string;
  error : option string;
  event : option Formatted.t
}.

Definition failure (msg : string) : Result :=
  mkResult false None (Some msg) None.

Record Store : Type := mkStore {
  events : list RawEvent.t;
  nextEventId : Z;
  rsvps : list Rsvp.t
}.

(** ** EventService *)

Definition format (e : RawEvent.t) : Formatted.t :=
  Formatted.mk e (RawEvent.id e)
    (Creator.mk (RawEvent.creator e) (nameOrDefault (RawEvent.creatorName e))
       "admin@example.com").

Definition getEventById (eventId : Num) (s : Store) : Result :=
  match find (RawEvent.hasId eventId) (events s) with
  | None => failure "Event not found"
  | Some e => mkResult true None None (Some (format e))
  end.

(** The three answers of [createEvent]: [{ success: true, event }],
    [{ success: false, errors }] and, from the [catch] block,
    [{ success: false, error: 'Failed to create event' }]. *)
Inductive Created : Type :=
  | Stored (newEvent : RawEvent.t)
  | Invalid (errors : list string)
  | Failed.

(** [createEvent(eventData, userId)]. [now] is the clock of the
    validation, [createdIso] the stamp of [createdAt]. The object literal
    takes its id first, so [nextEventId] has gone up when one of the
    [sanitizeString] calls throws. *)
Definition createEvent (eventData : EventData.t) (userId : string)
    (now : Z) (createdIso : string) (s : Store) : Store * Created :=
  match Validators.validateEventData eventData now with
  | None => (s, Failed)
  | Some (false, errors) => (s, Invalid errors)
  | Some (true, _) =>
    match Validators.sanitizeValue (EventData.title eventData),
          Validators.sanitizeValue (EventData.description eventData),
          Validators.sanitizeValue (EventData.location eventData) with
    | Some title, Some description, Some location =>
      let newEvent :=
        RawEvent.mk (nextEventId s) title description
          (default NaN (EventData.date eventData)) location
          (EventData.parsed (EventData.capacity eventData))
          0 userId "User" (Array []) createdIso in
      (mkStore (push (events s) newEvent) (nextEventId s + 1) (rsvps s),
       Stored newEvent)
    | _, _, _ =>
      (mkStore (events s) (nextEventId s + 1) (rsvps s), Failed)
    end
  end.

Module UpdateData.
(** The request body of an update, as [UpdateData.t] above, except that
    [attendees] may carry any value. *)
Record t : Type := mk {
  id : option Z;
  title : option string;
  description : option string;
  date : option Num;
  location : option string;
  capacity : option Z;
  currentAttendees : option Z;
  creator : option string;
  creatorName : option string;
  attendees : option Attendees;
  createdAt : option string
}.

(** The body [{ attendees: v }] for a [v] that is no array. *)
Definition noArray : t :=
  mk None None None None None None None None None (Some NotArray) None.
End UpdateData.

Definition applyUpdates (updateData : UpdateData.t) (e : RawEvent.t)
    : RawEvent.t :=
  RawEvent.mk
    (default (RawEvent.id e) (UpdateData.id updateData))
    (sanitizedOr (RawEvent.title e) (UpdateData.title updateData))
    (sanitizedOr (RawEvent.description e)
       (UpdateData.description updateData))
    (default (RawEvent.date e) (UpdateData.date updateData))
    (sanitizedOr (RawEvent.location e) (UpdateData.location updateData))
    (from_option Int (RawEvent.capacity e) (UpdateData.capacity updateData))
    (default (RawEvent.currentAttendees e)
       (UpdateData.currentAttendees updateData))
    (sanitizedOr (RawEvent.creator e) (UpdateData.creator updateData))
    (sanitizedOr (RawEvent.creatorName e)
       (UpdateData.creatorName updateData))
    (default (RawEvent.attendees e) (UpdateData.attendees updateData))
    (sanitizedOr (RawEvent.createdAt e) (UpdateData.createdAt updateData)).

(** [updateData.capacity && updateData.capacity < event.currentAttendees] *)
Definition reducesBelow (updateData : UpdateData.t) (e : RawEvent.t) : bool :=
  match UpdateData.capacity updateData with
  | None => false
  | Some c => negb (c =? 0) && (c <? RawEvent.currentAttendees e)
  end.

Definition updateEvent (eventId : Num) (updateData : UpdateData.t)
    (userId : string) (s : Store) : Store * (string + RawEvent.t) :=
  match findIndex (RawEvent.hasId eventId) (events s) with
  | None => (s, inl "Event not found")
  | Some eventIndex =>
    match events s !! eventIndex with
    | None =>
      (* [event.creator] on [undefined] throws; the [catch] block answers *)
      (s, inl "Failed to update event")
    | Some e =>
      if negb (String.eqb (RawEvent.creator e) userId) then
        (s, inl "Not authorized to update this event")
      else if reducesBelow updateData e then
        (s, inl ("Cannot reduce capacity below current attendees ("
                 ++ numberToString (RawEvent.currentAttendees e) ++ ")")%string)
      else
        (mkStore (alter (applyUpdates updateData) eventIndex (events s))
           (nextEventId s) (rsvps s),
         inr (applyUpdates updateData e))
    end
  end.

Definition deleteEvent (eventId : Num) (userId : string) (s : Store)
    : Store * Result :=
  match findIndex (RawEvent.hasId eventId) (events s) with
  | None => (s, failure "Event not found")
  | Some eventIndex =>
    match events s !! eventIndex with
    | None =>
      (* [event.creator] on [undefined] throws; the [catch] block answers *)
      (s, failure "Failed to delete event")
    | Some e =>
      if negb (String.eqb (RawEvent.creator e) userId) then
        (s, failure "Not authorized to delete this event")
      else
        (mkStore (delete eventIndex (events s)) (nextEventId s) (rsvps s),
         mkResult true (Some "Event deleted successfully") None None)
    end
  end.

(** The callback of the search filter of [getAllEvents]. *)
Definition matchesSearch (searchTerm : string) (e : RawEvent.t) : bool :=
  includes (toLowerCase (RawEvent.title e)) searchTerm
  || includes (toLowerCase (RawEvent.description e)) searchTerm
  || includes (toLowerCase (RawEvent.location e)) searchTerm.

(** [getAllEvents(filters)] for any value of [filters.search]: the
    [events] array of the result, or [None] for the answer of the [catch]
    block, [{ success: false, error: 'Failed to retrieve events' }],
    which is given when [filters.search] is truthy and has no
    [toLowerCase]. [clock i] is the [new Date()] that the date filter
    reads for the element at index [i]. *)
Definition getAllEvents (search : TextValue) (clock : nat -> Z)
    (s : Store) : option (list RawEvent.t) :=
  match
    match search with
    | Falsy => Some (events s)
    | Str term =>
      if String.eqb term "" then Some (events s)
      else Some (List.filter (matchesSearch (toLowerCase term)) (events s))
    | NotAString => None
    end
  with
  | None => None
  | Some filteredEvents =>
    Some (filterFrom
            (fun i e => num_gt (RawEvent.date e) (Int (clock i))) O
            filteredEvents)
  end.

Definition getUserEvents (userId : string) (s : Store) : list RawEvent.t :=
  List.filter (fun e => String.eqb (RawEvent.creator e) userId) (events s).

(** ** RSVPService *)

(** Whether [originalEvent.attendees.push] and [event.attendees.filter]
    throw: there is an event for the id and its [attendees] is no
    array. *)
Definition attendeesThrow (eventId : Num) (s : Store) : bool :=
  match find (RawEvent.hasId eventId) (events s) with
  | Some e => negb (RawEvent.hasArray e)
  | None => false
  end.

(** [createRSVP(eventId, userId)], with its [catch] block: when the
    [push] onto [attendees] throws, the record has been pushed and the
    counter raised, and the answer is 'Failed to process RSVP'. *)
Definition createRSVP (eventId : Num) (userId : string) (clk : Clock)
    (s : Store) : Store * Result :=
  let eventResult := getEventById eventId s in
  if negb (success eventResult) then (s, eventResult)
  else
    match event eventResult with
    | None =>
      (* [event.date] on [undefined] throws; the [catch] block answers *)
      (s, failure "Failed to process RSVP")
    | Some ev =>
      let e := Formatted.spread ev in
      if num_le (RawEvent.date e) (Int (checkedAt clk)) then
        (s, failure "Cannot RSVP to past events")
      else
        match find (Rsvp.isActiveFor userId eventId) (rsvps s) with
        | Some _ => (s, failure "You have already RSVP'd to this event")
        | None =>
          if RawEvent.isFull e then
            (s, failure "Event is at full capacity")
          else
            let rsvp :=
              Rsvp.mk (idNow clk) userId eventId attending (createdIso clk) in
            let s' :=
              mkStore
                (mutateFound (RawEvent.hasId eventId)
                   (RawEvent.addAttendee userId) (events s))
                (nextEventId s)
                (push (rsvps s) rsvp) in
            if attendeesThrow eventId s then
              (s', failure "Failed to process RSVP")
            else
              (s', mkResult true (Some "RSVP successful") None
                     (event (getEventById eventId s')))
        end
    end.

(** [cancelRSVP(eventId, userId)], with its [catch] block: when the
    [filter] of [attendees] throws, the record has been cancelled and the
    counter lowered, and the answer is 'Failed to cancel RSVP'. *)
Definition cancelRSVP (eventId : Num) (userId : string) (s : Store)
    : Store * Result :=
  match findIndex (Rsvp.isActiveFor userId eventId) (rsvps s) with
  | None => (s, failure "No active RSVP found for this event")
  | Some rsvpIndex =>
    let s' :=
      mkStore
        (mutateFound (RawEvent.hasId eventId)
           (RawEvent.removeAttendee userId) (events s))
        (nextEventId s)
        (alter (Rsvp.setStatus cancelled) rsvpIndex (rsvps s)) in
    if attendeesThrow eventId s then
      (s', failure "Failed to cancel RSVP")
    else
      (s', mkResult true (Some "RSVP cancelled successfully") None
             (event (getEventById eventId s')))
  end.

Definition getUserRSVPs (userId : string) (s : Store) : list Formatted.t :=
  let userRsvps :=
    List.filter
      (fun r => String.eqb (Rsvp.userId r) userId
                && Status_eqb (Rsvp.status r) attending)
      (rsvps s) in
  omap (fun r => event (getEventById (Rsvp.eventId r) s)) userRsvps.

Definition checkRSVPStatus (eventId : Num) (userId : string) (s : Store)
    : option Rsvp.t :=
  find (Rsvp.isActiveFor userId eventId) (rsvps s).

(** ** Observations used by the statements *)

(** The counter of the event that [find] returns for [eventId]. *)
Definition attendeesOf (eventId : Num) (s : Store) : option Z :=
  RawEvent.currentAttendees <$> find (RawEvent.hasId eventId) (events s).

(** Every way [createRSVP] can end. The last case covers both ends of
    the path that writes: the answer depends on whether the [push] onto
    [attendees] throws. *)
Inductive CreateOutcome (eventId : Num) (userId : string) (clk : Clock)
    (s : Store) : Store -> Result -> Prop :=
  | create_not_found :
      find (RawEvent.hasId eventId) (events s) = None ->
      CreateOutcome eventId userId clk s s (failure "Event not found")
  | create_past e :
      find (RawEvent.hasId eventId) (events s) = Some e ->
      num_le (RawEvent.date e) (Int (checkedAt clk)) = true ->
      CreateOutcome eventId userId clk s s
        (failure "Cannot RSVP to past events")
  | create_duplicate e r :
      find (RawEvent.hasId eventId) (events s) = Some e ->
      num_le (RawEvent.date e) (Int (checkedAt clk)) = false ->
      find (Rsvp.isActiveFor userId eventId) (rsvps s) = Some r ->
      CreateOutcome eventId userId clk s s
        (failure "You have already RSVP'd to this event")
  | create_full e :
      find (RawEvent.hasId eventId) (events s) = Some e ->
      num_le (RawEvent.date e) (Int (checkedAt clk)) = false ->
      find (Rsvp.isActiveFor userId eventId) (rsvps s) = None ->
      RawEvent.isFull e = true ->
      CreateOutcome eventId userId clk s s
        (failure "Event is at full capacity")
  | create_written e l1 l2 :
      events s = l1 ++ e :: l2 ->
      find (RawEvent.hasId eventId) l1 = None ->
      eventId = Int (RawEvent.id e) ->
      num_le (RawEvent.date e) (Int (checkedAt clk)) = false ->
      find (Rsvp.isActiveFor userId eventId) (rsvps s) = None ->
      RawEvent.isFull e = false ->
      CreateOutcome eventId userId clk s
        (mkStore (l1 ++ RawEvent.addAttendee userId e :: l2) (nextEventId s)
           (rsvps s ++ [newRsvp eventId userId clk]))
        (if RawEvent.hasArray e
         then mkResult true (Some "RSVP successful") None
                (Some (format (RawEvent.addAttendee userId e)))
         else failure "Failed to process RSVP").

(** Every way [cancelRSVP] can end. *)
Inductive CancelOutcome (eventId : Num) (userId : string) (s : Store)
    : Store -> Result -> Prop :=
  | cancel_none :
      find (Rsvp.isActiveFor userId eventId) (rsvps s) = None ->
      CancelOutcome eventId userId s s
        (failure "No active RSVP found for this event")
  | cancel_written r1 r r2 evs' :
      rsvps s = r1 ++ r :: r2 ->
      find (Rsvp.isActiveFor userId eventId) r1 = None ->
      Rsvp.isActiveFor userId eventId r = true ->
      evs' = mutateFound (RawEvent.hasId eventId)
               (RawEvent.removeAttendee userId) (events s) ->
      CancelOutcome eventId userId s
        (mkStore evs' (nextEventId s)
           (r1 ++ Rsvp.setStatus cancelled r :: r2))
        (if attendeesThrow eventId s
         then failure "Failed to cancel RSVP"
         else mkResult true (Some "RSVP cancelled successfully") None
                (format <$> find (RawEvent.hasId eventId) evs')).

(** ** The requests the two services answer *)

Inductive Request : Type :=
  | NewEvent (eventData : EventData.t) (userId : string) (now : Z)
      (createdIso : string)
  | UpdateEvent (eventId : Num) (updateData : UpdateData.t) (userId : string)
  | DeleteEvent (eventId : Num) (userId : string)
  | CreateRSVP (eventId : Num) (userId : string) (clk : Clock)
  | CancelRSVP (eventId : Num) (userId : string).

Definition serve (rq : Request) (s : Store) : Store :=
  match rq with
  | NewEvent eventData userId now createdIso =>
      fst (createEvent eventData userId now createdIso s)
  | UpdateEvent eventId updateData userId =>
      fst (updateEvent eventId updateData userId s)
  | DeleteEvent eventId userId => fst (deleteEvent eventId userId s)
  | CreateRSVP eventId userId clk => fst (createRSVP eventId userId clk s)
  | CancelRSVP eventId userId => fst (cancelRSVP eventId userId s)
  end.

(** Every store on the way through a sequence of requests. *)
Fixpoint served (rqs : list Request) (s : Store) : list Store :=
  match rqs with
  | [] => [s]
  | rq :: rqs' => s :: served rqs' (serve rq s)
  end.

Definition isUpdate (rq : Request) : bool :=
  match rq with
  | UpdateEvent _ _ _ => true
  | _ => false
  end.
End Raw.

(** A typed store as a store of [Raw]: the same events, counter and
    ledger. *)
Definition widen (s : Store) : Raw.Store :=
  Raw.mkStore (map RawEvent.ofTyped (events s)) (nextEventId s) (rsvps s).

Definition widenFormatted (f : Formatted.t) : Raw.Formatted.t :=
  Raw.Formatted.mk (RawEvent.ofTyped (Formatted.spread f)) (Formatted._id f)
    (Formatted.creator f).

Definition widenResult (r : Result) : Raw.Result :=
  Raw.mkResult (success r) (message r) (error r)
    (widenFormatted <$> event r).

(** A body of [UpdateData.t] as a body of [Raw.UpdateData.t]. *)
Definition widenUpdate (u : UpdateData.t) : Raw.UpdateData.t :=
  Raw.UpdateData.mk (UpdateData.id u) (UpdateData.title u)
    (UpdateData.description u) (UpdateData.date u) (UpdateData.location u)
    (UpdateData.capacity u) (UpdateData.currentAttendees u)
    (UpdateData.creator u) (UpdateData.creatorName u)
    (Array <$> UpdateData.attendees u) (UpdateData.createdAt u).

(** The counter an event starts with: 23 and 12 for the two default
    events, 0 for an event that [createEvent] makes. *)
Definition startingAttendees (id : Z) : Z :=
  if id =? 1 then 23 else if id =? 2 then 12 else 0.

(** Every id in use lies below the next id that [createEvent] will hand
    out. *)
Definition rawIdsBelowNext (s : Raw.Store) : Prop :=
  Forall (fun e => RawEvent.id e < Raw.nextEventId s) (Raw.events s) /\
  Forall (fun r => exists z, Rsvp.eventId r = Int z /\ z < Raw.nextEventId s)
    (Raw.rsvps s).

(** An event against the ledger: [attendees] is an array; the counter is
    the starting value plus the number of 'attending' records, and is
    not negative; and when the capacity is a number, the counter is
    within it or 0. *)
Definition eventInvariant (ledger : list Rsvp.t) (e : RawEvent.t) : Prop :=
  RawEvent.hasArray e = true /\
  RawEvent.currentAttendees e
  = startingAttendees (RawEvent.id e) + activeCount (RawEvent.id e) ledger /\
  0 <= RawEvent.currentAttendees e /\
  forall c, RawEvent.capacity e = Int c ->
            RawEvent.currentAttendees e <= Z.max 0 c.

(** What the two services keep of the store as long as [updateEvent] is
    not called: ids are pairwise different and below [nextEventId],
    which has not fallen below its initial 3; no record refers to an id
    that is yet to be given out; every event agrees with the ledger. *)
Definition storeInvariant (s : Raw.Store) : Prop :=
  NoDup (map RawEvent.id (Raw.events s)) /\
  3 <= Raw.nextEventId s /\
  rawIdsBelowNext s /\
  Forall (eventInvariant (Raw.rsvps s)) (Raw.events s).

(** ** The routes of app.js *)

Module Http.
(** The JSON bodies the routes send. [Failed m] is
    [{ success: false, message: m }]. *)
Inductive Body : Type :=
  | Failed (message : option string)
  | CreateFailed (message : string) (errors : option (list string))
  | EventCreated (e : RawEvent.t)
  | EventUpdated (e : RawEvent.t)
  | Succeeded (message : option string)
  | ServiceResult (r : Raw.Result)
  | Events (l : list RawEvent.t) (count : nat)
  | EventList (l : list RawEvent.t)
  | FormattedList (l : list Raw.Formatted.t)
  | OneEvent (e : option Raw.Formatted.t)
  | RsvpStatus (hasRSVP : bool) (rsvp : option Rsvp.t)
  | CurrentUser (id : string)
  | Elsewhere.

Record Response : Type := mkResponse { status : Z; body : Body }.

(** The routes over the two services, with what each reads from the
    request and from the clock after [auth]. *)
Inductive Endpoint : Type :=
  | GetMe
  | GetEvents (search : TextValue) (clock : nat -> Z)
  | GetEvent (id : Num)
  | PostEvent (body : EventData.t) (now : Z) (createdIso : string)
  | PutEvent (id : Num) (body : Raw.UpdateData.t)
  | DeleteEvent (id : Num)
  | GetCreated
  | PostRsvp (eventId : Num) (clk : Clock)
  | DeleteRsvp (eventId : Num)
  | GetAttending
  | GetStatus (eventId : Num).

(** A request. [stopped] is [Some status] when one of the libraries that
    [setupMiddleware] puts in front of the routes answers the request
    itself, with that status: the rate limiter (429) or a body parser
    (400, 413); what they decide is not code of this repository and is
    taken as it comes. [authorization] is the Authorization header,
    [receivedAt] the [Date.now()] that [auth] reads. *)
Record Request : Type := mkRequest {
  stopped : option Z;
  authorization : option string;
  receivedAt : Z;
  endpoint : Endpoint
}.

(** The routes registered with [auth] in front. *)
Definition protected (ep : Endpoint) : bool :=
  match ep with
  | GetEvents _ _ | GetEvent _ => false
  | _ => true
  end.

Definition getEvents (search : TextValue) (clock : nat -> Z)
    (s : Raw.Store) : Raw.Store * Response :=
  match Raw.getAllEvents search clock s with
  | Some events => (s, mkResponse 200 (Events events (length events)))
  | None => (s, mkResponse 500 (Failed (Some "Failed to retrieve events")))
  end.

Definition getEvent (id : Num) (s : Raw.Store) : Raw.Store * Response :=
  let result := Raw.getEventById id s in
  if Raw.success result then
    (s, mkResponse 200 (OneEvent (Raw.event result)))
  else
    let statusCode :=
      match Raw.error result with
      | Some err => if String.eqb err "Event not found" then 404 else 500
      | None => 500
      end in
    (s, mkResponse statusCode (Failed (Raw.error result))).

(** [message: result.error || 'Validation failed', errors: result.errors] *)
Definition postEvent (body : EventData.t) (now : Z) (createdIso : string)
    (userId : string) (s : Raw.Store) : Raw.Store * Response :=
  match Raw.createEvent body userId now createdIso s with
  | (s', Raw.Stored newEvent) => (s', mkResponse 201 (EventCreated newEvent))
  | (s', Raw.Invalid errors) =>
    (s', mkResponse 400 (CreateFailed "Validation failed" (Some errors)))
  | (s', Raw.Failed) =>
    (s', mkResponse 400 (CreateFailed "Failed to create event" None))
  end.

Definition putEvent (id : Num) (body : Raw.UpdateData.t) (userId : string)
    (s : Raw.Store) : Raw.Store * Response :=
  match Raw.updateEvent id body userId s with
  | (s', inr updated) => (s', mkResponse 200 (EventUpdated updated))
  | (s', inl err) => (s', mkResponse (eventErrorStatus err) (Failed (Some err)))
  end.

Definition deleteEvent (id : Num) (userId : string) (s : Raw.Store)
    : Raw.Store * Response :=
  let (s', result) := Raw.deleteEvent id userId s in
  if Raw.success result then
    (s', mkResponse 200 (Succeeded (Raw.message result)))
  else
    match Raw.error result with
    | Some err =>
      (s', mkResponse (eventErrorStatus err) (Failed (Some err)))
    | None =>
      (* [result.error.includes] throws; the [catch] block answers *)
      (s', mkResponse 500 (Failed (Some "Server error while deleting event")))
    end.

Definition postRsvp (eventId : Num) (clk : Clock) (userId : string)
    (s : Raw.Store) : Raw.Store * Response :=
  let (s', result) := Raw.createRSVP eventId userId clk s in
  if Raw.success result then (s', mkResponse 201 (ServiceResult result))
  else
    match Raw.error result with
    | Some err => (s', mkResponse (rsvpErrorStatus err) (Failed (Some err)))
    | None =>
      (s', mkResponse 500 (Failed (Some "Server error while processing RSVP")))
    end.

Definition deleteRsvp (eventId : Num) (userId : string) (s : Raw.Store)
    : Raw.Store * Response :=
  let (s', result) := Raw.cancelRSVP eventId userId s in
  if Raw.success result then (s', mkResponse 200 (ServiceResult result))
  else
    match Raw.error result with
    | Some err => (s', mkResponse (rsvpErrorStatus err) (Failed (Some err)))
    | None =>
      (s', mkResponse 500 (Failed (Some "Server error while cancelling RSVP")))
    end.

Definition getStatus (eventId : Num) (userId : string) (s : Raw.Store)
    : Raw.Store * Response :=
  let rsvp := Raw.checkRSVPStatus eventId userId s in
  (s, mkResponse 200
        (RsvpStatus (match rsvp with Some _ => true | None => false end) rsvp)).

(** The handler of a route, after [auth] where the route has it. *)
Definition route (ep : Endpoint) (userId : string) (s : Raw.Store)
    : Raw.Store * Response :=
  match ep with
  | GetMe => (s, mkResponse 200 (CurrentUser userId))
  | GetEvents search clock => getEvents search clock s
  | GetEvent id => getEvent id s
  | PostEvent body now createdIso => postEvent body now createdIso userId s
  | PutEvent id body => putEvent id body userId s
  | DeleteEvent id => deleteEvent id userId s
  | GetCreated =>
    (s, mkResponse 200 (EventList (Raw.getUserEvents userId s)))
  | PostRsvp eventId clk => postRsvp eventId clk userId s
  | DeleteRsvp eventId => deleteRsvp eventId userId s
  | GetAttending =>
    (s, mkResponse 200 (FormattedList (Raw.getUserRSVPs userId s)))
  | GetStatus eventId => getStatus eventId userId s
  end.

(** One request through the server: the store afterwards and the
    response. A request that a library in front answers reaches neither
    [auth] nor a route; [Elsewhere] stands for the body that library
    sends. The two public routes do not read [req.user]. *)
Definition handle (rq : Request) (s : Raw.Store) : Raw.Store * Response :=
  match stopped rq with
  | Some status => (s, mkResponse status Elsewhere)
  | None =>
    if protected (endpoint rq) then
      match auth (authorization rq) (receivedAt rq) with
      | None =>
        (s, mkResponse 401
              (Failed (Some "Access denied. No token provided.")))
      | Some userId => route (endpoint rq) userId s
      end
    else route (endpoint rq) "" s
  end.

(** The responses to a sequence of requests, and the store after it. *)
Fixpoint answers (rqs : list Request) (s : Raw.Store) : list Response :=
  match rqs with
  | [] => []
  | rq :: rqs' => snd (handle rq s) :: answers rqs' (fst (handle rq s))
  end.

Fixpoint after (rqs : list Request) (s : Raw.Store) : Raw.Store :=
  match rqs with
  | [] => s
  | rq :: rqs' => after rqs' (fst (handle rq s))
  end.

(** Whether [auth] runs for a request. *)
Definition reachesAuth (rq : Request) : bool :=
  match stopped rq with
  | Some _ => false
  | None => protected (endpoint rq)
  end.
End Http.

(** The user ids a store can hold when [auth] has run at the clock
    readings [ts]: the creator of an event is 'admin' or one of these
    users, and so is the holder of every record. *)
Definition knownUsers (ts : list Z) (s : Raw.Store) : Prop :=
  Forall (fun e => RawEvent.creator e = "admin" \/
                   exists t, t ∈ ts /\ RawEvent.creator e = userAt t)
    (Raw.events s) /\
  Forall (fun r => exists t, t ∈ ts /\ Rsvp.userId r = userAt t)
    (Raw.rsvps s).

(** What holds of a store that only strangers have written to: every
    user id in it was made up by [auth], no record has been cancelled,
    and every [attendees] is an array. *)
Definition strangersOnly (ts : list Z) (s : Raw.Store) : Prop :=
  knownUsers ts s /\
  Forall (fun r => Rsvp.status r = attending) (Raw.rsvps s) /\
  Forall (fun e => RawEvent.hasArray e = true) (Raw.events s).

(** What a request is answered when its user id is new to the store:
    the answer of a library in front, 401, or the answer of the route to
    somebody who created nothing and holds no record. *)
Definition answeredAsStranger (rq : Http.Request) (resp : Http.Response)
    : Prop :=
  is_Some (Http.stopped rq) \/
  Http.status resp = 401 \/
  match Http.endpoint rq with
  | Http.PutEvent _ _ | Http.DeleteEvent _ =>
    Http.status resp = 403 \/ Http.status resp = 404
  | Http.DeleteRsvp _ =>
    resp = Http.mkResponse 400
             (Http.Failed (Some "No active RSVP found for this event"))
  | Http.GetStatus _ =>
    resp = Http.mkResponse 200 (Http.RsvpStatus false None)
  | Http.GetAttending => resp = Http.mkResponse 200 (Http.FormattedList [])
  | Http.GetCreated => resp = Http.mkResponse 200 (Http.EventList [])
  | Http.PostRsvp _ _ =>
    Http.status resp = 201 \/ Http.status resp = 404 \/
    resp = Http.mkResponse 400
             (Http.Failed (Some "Cannot RSVP to past events")) \/
    resp = Http.mkResponse 400
             (Http.Failed (Some "Event is at full capacity"))
  | _ => True
  end.

(** * Properties *)

(** ** Facts about [find], [findIndex] and [mutateFound] *)

Section ArrayFacts.
Context {A : Type}.
Implicit Types (p q : A -> bool) (f : A -> A) (l : list A).

Lemma findIndex_None_find p l :
  findIndex p l = None <-> find p l = None.
Proof.
  induction l as [|x l IH]; simpl; [done|].
  destruct (p x); [split; discriminate|].
  rewrite <- IH. destruct (findIndex p l); simpl; split; congruence.
Qed.

(** A successful [findIndex] splits the array around the first match. *)
Lemma findIndex_Some_split p l i :
  findIndex p l = Some i ->
  exists l1 x l2,
    l = l1 ++ x :: l2 /\ length l1 = i /\ p x = true /\ find p l1 = None.
Proof.
  revert i. induction l as [|x l IH]; intros i; simpl; [discriminate|].
  destruct (p x) eqn:Hpx.
  - intros [= <-]. by exists [], x, l.
  - destruct (findIndex p l) as [j|]; simpl; [|discriminate].
    intros [= <-]. destruct (IH j eq_refl) as (l1 & y & l2 & -> & <- & Hy & Hl1).
    exists (x :: l1), y, l2. simpl. by rewrite Hpx.
Qed.

Lemma find_Some_split p l x :
  find p l = Some x ->
  exists l1 l2, l = l1 ++ x :: l2 /\ p x = true /\ find p l1 = None.
Proof.
  induction l as [|y l IH]; simpl; [discriminate|].
  destruct (p y) eqn:Hpy.
  - intros [= ->]. by exists [], l.
  - intros H. destruct (IH H) as (l1 & l2 & -> & Hx & Hl1).
    exists (y :: l1), l2. simpl. by rewrite Hpy.
Qed.

Lemma find_app_None p l1 l2 :
  find p l1 = None -> find p (l1 ++ l2) = find p l2.
Proof.
  induction l1 as [|y l1 IH]; simpl; [done|].
  destruct (p y); [discriminate|done].
Qed.

Lemma find_first p l1 x l2 :
  find p l1 = None -> p x = true -> find p (l1 ++ x :: l2) = Some x.
Proof. intros H1 Hx. rewrite find_app_None by done. simpl. by rewrite Hx. Qed.

Lemma findIndex_first p l1 x l2 :
  find p l1 = None -> p x = true ->
  findIndex p (l1 ++ x :: l2) = Some (length l1).
Proof.
  intros H1 Hx. induction l1 as [|y l1 IH]; simpl in *.
  - by rewrite Hx.
  - destruct (p y); [discriminate|]. by rewrite IH.
Qed.

Lemma alter_middle f l1 x l2 :
  alter f (length l1) (l1 ++ x :: l2) = l1 ++ f x :: l2.
Proof. induction l1 as [|y l1 IH]; simpl; [done|]. f_equal. exact IH. Qed.

Lemma mutateFound_first p f l1 x l2 :
  find p l1 = None -> p x = true ->
  mutateFound p f (l1 ++ x :: l2) = l1 ++ f x :: l2.
Proof.
  intros H1 Hx. unfold mutateFound.
  rewrite findIndex_first by done. apply alter_middle.
Qed.

Lemma mutateFound_None p f l :
  find p l = None -> mutateFound p f l = l.
Proof.
  intros H. apply findIndex_None_find in H. unfold mutateFound. by rewrite H.
Qed.

Lemma find_None_Forall p l :
  find p l = None <-> Forall (fun x => p x = false) l.
Proof.
  induction l as [|x l IH]; simpl.
  - split; [constructor|done].
  - destruct (p x) eqn:Hpx.
    + split; [discriminate|]. intros H. inversion H; congruence.
    + rewrite IH. split; [by constructor|]. intros H. by inversion H.
Qed.

(** Looking up with [q] in an array whose first [p]-match was updated by
    an [f] that [q] cannot see through a [p]-match. *)
Lemma find_mutateFound_other p q f l :
  (forall x, p x = true -> q x = false /\ q (f x) = false) ->
  find q (mutateFound p f l) = find q l.
Proof.
  intros Hpq. destruct (find p l) as [x|] eqn:Hfind.
  - destruct (find_Some_split _ _ _ Hfind) as (l1 & l2 & -> & Hx & Hl1).
    rewrite mutateFound_first by done.
    destruct (Hpq x Hx) as [Hq1 Hq2].
    induction l1 as [|y l1 IH]; simpl in *.
    + by rewrite Hq1, Hq2.
    + destruct (p y) eqn:Hpy; [discriminate|].
      destruct (q y); [done|]. by apply IH.
  - by rewrite mutateFound_None.
Qed.
End ArrayFacts.

Lemma Forall_mutateFound {A : Type} (P : A -> Prop) (p : A -> bool)
    (f : A -> A) (l : list A) :
  (forall x, P x -> P (f x)) -> Forall P l -> Forall P (mutateFound p f l).
Proof.
  intros Hf Hl. destruct (find p l) as [x|] eqn:Hfind.
  - destruct (find_Some_split _ _ _ Hfind) as (l1 & l2 & -> & Hx & Hl1).
    rewrite mutateFound_first by done.
    apply Forall_app in Hl as [H1 H2]. apply Forall_cons in H2 as [H2 H3].
    apply Forall_app. split; [done|]. apply Forall_cons. auto.
  - by rewrite mutateFound_None.
Qed.

Lemma map_mutateFound {A B : Type} (g : A -> B) (p : A -> bool)
    (f : A -> A) (l : list A) :
  (forall x, g (f x) = g x) -> map g (mutateFound p f l) = map g l.
Proof.
  intros Hg. destruct (find p l) as [x|] eqn:Hfind.
  - destruct (find_Some_split _ _ _ Hfind) as (l1 & l2 & -> & Hx & Hl1).
    rewrite mutateFound_first by done.
    rewrite !map_app. simpl. by rewrite Hg.
  - by rewrite mutateFound_None.
Qed.

Lemma filter_length_0_find {A : Type} (p : A -> bool) (l : list A) :
  length (List.filter p l) = O <-> find p l = None.
Proof.
  induction l as [|x l IH]; simpl; [done|].
  destruct (p x); simpl; [split; discriminate|done].
Qed.

(** ** Elementary facts about the predicates *)

Lemma strict_eq_true a b : strict_eq a b = true <-> exists z, a = Int z /\ b = Int z.
Proof.
  destruct a as [x|], b as [y|]; simpl.
  - rewrite Z.eqb_eq. split; [intros ->; eauto|]. by intros (z & [= ->] & [= ->]).
  - split; [discriminate|]. by intros (z & _ & ?).
  - split; [discriminate|]. by intros (z & ? & _).
  - split; [discriminate|]. by intros (z & ? & _).
Qed.

Lemma hasId_true eid e : Event.hasId eid e = true <-> eid = Int (Event.id e).
Proof.
  unfold Event.hasId. rewrite strict_eq_true. split.
  - by intros (z & [= ->] & ->).
  - intros ->. eauto.
Qed.

Lemma hasId_addAttendee eid u e : Event.hasId eid (Event.addAttendee u e) = Event.hasId eid e.
Proof. done. Qed.

Lemma hasId_removeAttendee eid u e :
  Event.hasId eid (Event.removeAttendee u e) = Event.hasId eid e.
Proof. done. Qed.

Lemma hasId_Int k e : Event.hasId (Int k) e = (Event.id e =? k).
Proof. done. Qed.

Lemma isActiveFor_true uid eid r :
  Rsvp.isActiveFor uid eid r = true <->
  Rsvp.userId r = uid /\ (exists z, Rsvp.eventId r = Int z /\ eid = Int z)
  /\ Rsvp.status r = attending.
Proof.
  unfold Rsvp.isActiveFor. rewrite !andb_true_iff, String.eqb_eq, strict_eq_true.
  destruct (Rsvp.status r); simpl; intuition congruence.
Qed.

Lemma isActiveFor_cancelled uid eid r :
  Rsvp.isActiveFor uid eid (Rsvp.setStatus cancelled r) = false.
Proof. unfold Rsvp.isActiveFor. simpl. by rewrite andb_false_r. Qed.

Lemma activeOn_cancelled k r : activeOn k (Rsvp.setStatus cancelled r) = false.
Proof. unfold activeOn. simpl. by rewrite andb_false_r. Qed.

Lemma activeOn_eventId k r : activeOn k r = true -> Rsvp.eventId r = Int k.
Proof.
  unfold activeOn. rewrite andb_true_iff, strict_eq_true.
  by intros [(z & -> & [= ->]) _].
Qed.

Lemma activeCount_app k l1 l2 :
  activeCount k (l1 ++ l2) = activeCount k l1 + activeCount k l2.
Proof. unfold activeCount. rewrite List.filter_app, length_app. lia. Qed.

Lemma activeCount_cons k r l :
  activeCount k (r :: l) = (if activeOn k r then 1 else 0) + activeCount k l.
Proof. unfold activeCount. simpl. destruct (activeOn k r); simpl; lia. Qed.

Lemma activeCount_nonneg k l : 0 <= activeCount k l.
Proof. unfold activeCount. lia. Qed.

(** ** The outcomes of the two operations *)

Lemma createRSVP_outcome eventId userId clk s :
  CreateOutcome eventId userId clk s
    (fst (createRSVP eventId userId clk s))
    (snd (createRSVP eventId userId clk s)).
Proof.
  unfold createRSVP, getEventById.
  destruct (find (Event.hasId eventId) (events s)) as [e|] eqn:Hfind; simpl;
    [|by constructor].
  destruct (num_le (Event.date e) (Int (checkedAt clk))) eqn:Hdate; simpl;
    [by econstructor|].
  destruct (find (Rsvp.isActiveFor userId eventId) (rsvps s)) as [r|] eqn:Hdup;
    simpl; [by econstructor|].
  destruct (Event.currentAttendees e >=? Event.capacity e) eqn:Hcap; simpl.
  - eapply create_full; eauto. apply Z.geb_le in Hcap. lia.
  - destruct (find_Some_split _ _ _ Hfind) as (l1 & l2 & Hev & He & Hl1).
    rewrite Hev, mutateFound_first by done.
    rewrite find_first by done.
    apply hasId_true in He.
    eapply create_admitted; eauto.
    destruct (Z.geb_spec (Event.currentAttendees e) (Event.capacity e));
      [discriminate|lia].
Qed.

Lemma getEventById_event eventId s :
  event (getEventById eventId s)
  = format <$> find (Event.hasId eventId) (events s).
Proof. unfold getEventById. by destruct (find _ _). Qed.

Lemma cancelRSVP_outcome eventId userId s :
  CancelOutcome eventId userId s
    (fst (cancelRSVP eventId userId s)) (snd (cancelRSVP eventId userId s)).
Proof.
  unfold cancelRSVP.
  destruct (findIndex (Rsvp.isActiveFor userId eventId) (rsvps s)) as [i|]
    eqn:Hidx; simpl.
  - destruct (findIndex_Some_split _ _ _ Hidx) as (r1 & r & r2 & Hr & <- & Hp & Hr1).
    rewrite getEventById_event. simpl.
    rewrite Hr, alter_middle. by eapply cancel_done.
  - apply cancel_none. by apply findIndex_None_find.
Qed.

(** ** Invariants along a sequence of calls *)

Lemma observed_Forall (P : Store -> Prop) :
  (forall c s, P s -> P (fst (perform c s))) ->
  forall cs s, P s -> Forall P (observed cs s).
Proof.
  intros Hstep cs. induction cs as [|c cs IH]; intros s Hs; simpl.
  - by constructor.
  - constructor; [done|]. apply IH. by apply Hstep.
Qed.

Lemma observed_last cs s : run cs s ∈ observed cs s.
Proof.
  revert s. induction cs as [|c cs IH]; intros s; simpl.
  - by left.
  - right. apply IH.
Qed.

(** Case analysis on the outcome of a call. *)
Ltac create_cases eid uid clk s :=
  let H := fresh "Hout" in
  pose proof (createRSVP_outcome eid uid clk s) as H;
  destruct (createRSVP eid uid clk s) as [? ?];
  simpl fst in *; simpl snd in *;
  destruct H as [Hfind | e Hfind Hdate | e r Hfind Hdate Hdup
                 | e Hfind Hdate Hdup Hcap
                 | e l1 l2 Hev Hl1 Heid Hdate Hdup Hcap].

Ltac cancel_cases eid uid s :=
  let H := fresh "Hout" in
  pose proof (cancelRSVP_outcome eid uid s) as H;
  destruct (cancelRSVP eid uid s) as [? ?];
  simpl fst in *; simpl snd in *;
  destruct H as [Hnone | r1 r r2 evs' Hr Hr1 Hact Hevs].

Lemma withinCapacity_removeAttendee u e :
  withinCapacity e -> withinCapacity (Event.removeAttendee u e).
Proof. unfold withinCapacity. simpl. lia. Qed.

Lemma createRSVP_withinCapacity eid uid clk s :
  Forall withinCapacity (events s) ->
  Forall withinCapacity (events (fst (createRSVP eid uid clk s))).
Proof.
  intros Hs. create_cases eid uid clk s; try done.
  simpl. rewrite Hev in Hs.
  apply Forall_app in Hs as [H1 H2]. apply Forall_cons in H2 as [_ H3].
  apply Forall_app. split; [done|]. apply Forall_cons. split; [|done].
  unfold withinCapacity. simpl. lia.
Qed.

Lemma cancelRSVP_withinCapacity eid uid s :
  Forall withinCapacity (events s) ->
  Forall withinCapacity (events (fst (cancelRSVP eid uid s))).
Proof.
  intros Hs. cancel_cases eid uid s; [done|].
  simpl. subst evs'. apply Forall_mutateFound; [|done].
  intros x. apply withinCapacity_removeAttendee.
Qed.

Lemma perform_withinCapacity c s :
  Forall withinCapacity (events s) ->
  Forall withinCapacity (events (fst (perform c s))).
Proof.
  destruct c; simpl;
    [apply createRSVP_withinCapacity|apply cancelRSVP_withinCapacity].
Qed.

(** The ids of the stored events, in order, never change. *)
Lemma perform_ids c s :
  map Event.id (events (fst (perform c s))) = map Event.id (events s).
Proof.
  destruct c as [eid uid clk|eid uid]; unfold perform.
  - create_cases eid uid clk s; try done.
    simpl. rewrite Hev, !map_app. done.
  - cancel_cases eid uid s; [done|].
    simpl. subst evs'. by apply map_mutateFound.
Qed.

Lemma find_hasId_other_add k eid u l :
  eid <> Int k ->
  find (Event.hasId (Int k)) (mutateFound (Event.hasId eid) (Event.addAttendee u) l)
  = find (Event.hasId (Int k)) l.
Proof.
  intros Hne. apply find_mutateFound_other. intros x Hx.
  apply hasId_true in Hx. rewrite hasId_addAttendee.
  split; (destruct (Event.hasId (Int k) x) eqn:Hk; [|done]);
    apply hasId_true in Hk; congruence.
Qed.

Lemma find_hasId_other_remove k eid u l :
  eid <> Int k ->
  find (Event.hasId (Int k)) (mutateFound (Event.hasId eid) (Event.removeAttendee u) l)
  = find (Event.hasId (Int k)) l.
Proof.
  intros Hne. apply find_mutateFound_other. intros x Hx.
  apply hasId_true in Hx. rewrite hasId_removeAttendee.
  split; (destruct (Event.hasId (Int k) x) eqn:Hk; [|done]);
    apply hasId_true in Hk; congruence.
Qed.

Lemma activeOn_newRsvp k eid u clk :
  activeOn k (newRsvp eid u clk) = strict_eq eid (Int k).
Proof. unfold activeOn. simpl. by rewrite andb_true_r. Qed.

(** Each call moves the counter of an event and the number of its
    'attending' records by the same amount. *)
Lemma perform_surplus c s k : surplus k (fst (perform c s)) = surplus k s.
Proof.
  unfold surplus. destruct c as [eid uid clk|eid uid]; unfold perform.
  - create_cases eid uid clk s; try done.
    simpl. rewrite activeCount_app, activeCount_cons, activeOn_newRsvp.
    change (activeCount k []) with 0.
    destruct (decide (Event.id e = k)) as [Hk|Hk].
    + rewrite Hev, Heid, Hk in *. rewrite !find_first; try done.
      * simpl. rewrite Z.eqb_refl. f_equal. lia.
      * rewrite hasId_Int. by apply Z.eqb_eq.
      * rewrite hasId_addAttendee, hasId_Int. by apply Z.eqb_eq.
    + assert (Hne : eid <> Int k) by congruence.
      assert (Hev' : l1 ++ Event.addAttendee uid e :: l2
                     = mutateFound (Event.hasId eid) (Event.addAttendee uid) (events s)).
      { rewrite Hev, mutateFound_first; [done..|]. by apply hasId_true. }
      rewrite Hev', find_hasId_other_add by done.
      rewrite Heid. simpl. destruct (Z.eqb_spec (Event.id e) k); [done|].
      by rewrite !Z.add_0_r.
  - cancel_cases eid uid s; [done|].
    simpl. subst evs'. rewrite Hr.
    rewrite !activeCount_app, !activeCount_cons, activeOn_cancelled.
    apply isActiveFor_true in Hact as (Hu & (z & Hz & ->) & Hst).
    destruct (decide (z = k)) as [->|Hk].
    + assert (activeOn k r = true) as ->.
      { unfold activeOn. rewrite Hz, Hst. simpl. by rewrite Z.eqb_refl. }
      destruct (find (Event.hasId (Int k)) (events s)) as [e|] eqn:Hfind.
      * destruct (find_Some_split _ _ _ Hfind) as (l1 & l2 & -> & He & Hl1).
        rewrite mutateFound_first, find_first by done. simpl. f_equal. lia.
      * by rewrite mutateFound_None, Hfind.
    + assert (activeOn k r = false) as ->.
      { unfold activeOn. rewrite Hz. simpl.
        destruct (Z.eqb_spec z k); [done|done]. }
      rewrite find_hasId_other_remove by congruence. done.
Qed.

Lemma run_surplus cs s k : surplus k (run cs s) = surplus k s.
Proof.
  revert s. induction cs as [|c cs IH]; intros s; simpl; [done|].
  by rewrite IH, perform_surplus.
Qed.

(** ** Capacity is never exceeded *)

(** C1. Capacity invariant: for every sequence of [createRSVP] and
    [cancelRSVP] calls applied to the initial store, in every store that
    can be observed between two calls (the first and the last included)
    every event has [currentAttendees <= capacity]. *)
Theorem capacity_invariant tomorrow nextWeek created1 created2 cs :
  Forall (fun s => Forall withinCapacity (events s))
    (observed cs (initialStore tomorrow nextWeek created1 created2)).
Proof.
  apply (observed_Forall (fun s => Forall withinCapacity (events s))).
  - intros c s. apply perform_withinCapacity.
  - unfold initialStore, initializeDefaultEvents, withinCapacity. simpl.
    repeat constructor; simpl; lia.
Qed.

(** The same from any store that respects its capacities. *)
Lemma capacity_preserved cs s :
  Forall withinCapacity (events s) ->
  Forall (fun s' => Forall withinCapacity (events s')) (observed cs s).
Proof.
  apply (observed_Forall (fun s' => Forall withinCapacity (events s'))).
  intros c s'. apply perform_withinCapacity.
Qed.

(** ** The counter against the ledger *)

(** C2, as stated, fails before any call is made: the first default event
    starts with [currentAttendees = 23] next to an empty ledger. *)
Lemma initial_counts_differ_from_ledger :
  let s := initialStore 0 0 "" "" in
  s ∈ observed [] s /\
  (exists e, e ∈ events s /\ Event.id e = 1 /\
             Event.currentAttendees e = 23 /\
             activeCount (Event.id e) (rsvps s) = 0) /\
  ~ countsMatchLedger s.
Proof.
  cbv zeta. split; [by left|].
  assert (Hin : techConference 0 "" ∈ events (initialStore 0 0 "" "")) by by left.
  split.
  - eexists. split; [exact Hin|]. by repeat split.
  - intros H. specialize (H _ Hin). discriminate H.
Qed.

(** C2, amended. At every observable point of every sequence of
    [createRSVP] and [cancelRSVP] calls from the initial store,
    [currentAttendees] of a default event equals its seeded value (23 for
    event 1, 12 for event 2) plus the number of 'attending' records of
    that event. *)
Theorem counts_follow_ledger tomorrow nextWeek created1 created2 cs :
  Forall countsFollowLedger
    (observed cs (initialStore tomorrow nextWeek created1 created2)).
Proof.
  set (P := fun s => map Event.id (events s) = [1; 2]
                     /\ surplus 1 s = Some 23 /\ surplus 2 s = Some 12).
  assert (HP : Forall P
            (observed cs (initialStore tomorrow nextWeek created1 created2))).
  { apply (observed_Forall P).
    - intros c s (Hids & H1 & H2). unfold P.
      by rewrite perform_ids, !perform_surplus.
    - by repeat split. }
  eapply Forall_impl; [exact HP|].
  intros s (Hids & H1 & H2). unfold surplus, countsFollowLedger in *.
  destruct (events s) as [|e1 [|e2 [|e3 l]]]; simpl in Hids; try discriminate.
  injection Hids as Hid1 Hid2.
  simpl in H1, H2. rewrite !hasId_Int, Hid1, Hid2 in *. simpl in H1, H2.
  injection H1 as H1. injection H2 as H2.
  exists e1, e2. repeat split; [done|done|lia|lia].
Qed.

(** ** The counter never falls below its entry value *)

Lemma observed_surplus k c cs s0 :
  surplus k s0 = Some c ->
  Forall (fun s =>
            exists e,
              find (Event.hasId (Int k)) (events s) = Some e /\
              Event.currentAttendees e = c + activeCount k (rsvps s))
    (observed cs s0).
Proof.
  intros H0. eapply Forall_impl.
  - apply (observed_Forall (fun s => surplus k s = surplus k s0)); [|done].
    intros c' s Hs. by rewrite perform_surplus.
  - intros s Hs. rewrite H0 in Hs. unfold surplus in Hs.
    destruct (find (Event.hasId (Int k)) (events s)) as [e|]; [|done].
    injection Hs as Hs. exists e. split; [done|lia].
Qed.



(** ** createRSVP: the duplicate check *)

(** C4, as stated, fails once the date of the event has passed: the actor
    still holds the 'attending' record, and the second call is turned down
    by the date check, which comes first. *)
Lemma duplicate_after_event_date :
  let s0 := initialStore 1000 2000 "" "" in
  let first := createRSVP (Int 1) "user-1" (mkClock 10 10 "") s0 in
  let second := createRSVP (Int 1) "user-1" (mkClock 1000 1000 "") (fst first) in
  success (snd first) = true /\
  checkRSVPStatus (Int 1) "user-1" (fst first)
    = Some (Rsvp.mk 10 "user-1" (Int 1) attending "") /\
  snd second = failure "Cannot RSVP to past events" /\
  hasError "You have already RSVP'd to this event" (snd second) = false.
Proof. by vm_compute. Qed.

(** C4, amended. When the actor already holds an 'attending' record for
    the event, a further [createRSVP] by the same actor for the same event
    never succeeds and hands back the store unchanged (counter and ledger);
    whenever the event is still in the store and its date has not passed at
    the time of the call, the answer is 'You have already RSVP'd to this
    event'. *)
Theorem createRSVP_duplicate eid uid clk s held :
  checkRSVPStatus eid uid s = Some held ->
  fst (createRSVP eid uid clk s) = s /\
  success (snd (createRSVP eid uid clk s)) = false /\
  (forall e,
     find (Event.hasId eid) (events s) = Some e ->
     num_le (Event.date e) (Int (checkedAt clk)) = false ->
     snd (createRSVP eid uid clk s)
     = failure "You have already RSVP'd to this event").
Proof.
  unfold checkRSVPStatus. intros Hheld.
  create_cases eid uid clk s; try congruence.
  - repeat split; try done. intros e'. congruence.
  - repeat split; try done. intros e'. congruence.
  - repeat split; done.
Qed.

Lemma createRSVP_duplicate_witness :
  let s1 := fst (createRSVP (Int 1) "user-1" (mkClock 10 10 "")
                   (initialStore 1000 2000 "" "")) in
  checkRSVPStatus (Int 1) "user-1" s1
    = Some (Rsvp.mk 10 "user-1" (Int 1) attending "") /\
  fst (createRSVP (Int 1) "user-1" (mkClock 20 20 "") s1) = s1 /\
  snd (createRSVP (Int 1) "user-1" (mkClock 20 20 "") s1)
    = failure "You have already RSVP'd to this event".
Proof.
  cbv zeta. split; [reflexivity|].
  pose proof (createRSVP_duplicate (Int 1) "user-1" (mkClock 20 20 "")
    (fst (createRSVP (Int 1) "user-1" (mkClock 10 10 "")
            (initialStore 1000 2000 "" "")))
    (Rsvp.mk 10 "user-1" (Int 1) attending "") eq_refl) as (H1 & _ & H3).
  split; [exact H1|]. eapply H3; reflexivity.
Defined.

(** ** cancelRSVP without an active record *)

(** C7. In every store, [cancelRSVP] for a pair (actor, event) that has no
    'attending' record (none was ever made, or it is already cancelled)
    answers 'No active RSVP found for this event' and hands back the store
    unchanged: no counter is decremented, no record is touched. *)
Theorem cancelRSVP_without_active eid uid s :
  checkRSVPStatus eid uid s = None ->
  cancelRSVP eid uid s = (s, failure "No active RSVP found for this event").
Proof.
  unfold checkRSVPStatus, cancelRSVP. intros Hnone.
  apply findIndex_None_find in Hnone. by rewrite Hnone.
Qed.

Lemma cancelRSVP_without_active_witness :
  let s := fst (cancelRSVP (Int 1) "user-1"
             (fst (createRSVP (Int 1) "user-1" (mkClock 10 10 "")
                     (initialStore 1000 2000 "" "")))) in
  checkRSVPStatus (Int 1) "user-1" s = None /\
  cancelRSVP (Int 1) "user-1" s
    = (s, failure "No active RSVP found for this event").
Proof.
  cbv zeta. split; [reflexivity|].
  apply cancelRSVP_without_active. reflexivity.
Defined.

(** ** cancelRSVP: effect of a successful call *)

(** C6, as stated, fails on the time stamp: after a successful cancel the
    record has status 'cancelled' and still only the five properties it
    was created with; reading [cancelledAt] gives [undefined]. *)
Lemma cancel_stamps_no_cancelledAt :
  let s1 := fst (createRSVP (Int 1) "user-1"
                   (mkClock 10 10 "2024-05-01T09:00:00.000Z")
                   (initialStore 1000 2000 "" "")) in
  let out := cancelRSVP (Int 1) "user-1" s1 in
  success (snd out) = true /\
  exists r,
    rsvps (fst out) = [r] /\
    Rsvp.status r = cancelled /\
    Rsvp.get r "cancelledAt" = VUndefined.
Proof. cbv zeta. split; [reflexivity|]. eexists. by repeat split. Qed.

(** C6, amended. A successful [cancelRSVP] turns the first 'attending'
    record of (actor, event) into a 'cancelled' one and changes no other
    record and no other property of that record (none is stamped:
    [cancelledAt] stays undefined); in the same returned store the counter
    of the event, when the event is in the store, is lower by exactly 1
    and every other event is as before. *)
Theorem cancelRSVP_success eid uid s :
  success (snd (cancelRSVP eid uid s)) = true ->
  let s' := fst (cancelRSVP eid uid s) in
  (exists r1 r r2,
     rsvps s = r1 ++ r :: r2 /\
     find (Rsvp.isActiveFor uid eid) r1 = None /\
     Rsvp.isActiveFor uid eid r = true /\
     rsvps s' = r1 ++ Rsvp.setStatus cancelled r :: r2 /\
     Rsvp.status (Rsvp.setStatus cancelled r) = cancelled /\
     (forall key, key <> "status" ->
        Rsvp.get (Rsvp.setStatus cancelled r) key = Rsvp.get r key) /\
     Rsvp.get (Rsvp.setStatus cancelled r) "cancelledAt" = VUndefined)
  /\ attendeesOf eid s' = (fun n => n - 1) <$> attendeesOf eid s
  /\ (forall k, eid <> Int k ->
        find (Event.hasId (Int k)) (events s')
        = find (Event.hasId (Int k)) (events s)).
Proof.
  intros Hok. cbv zeta. unfold attendeesOf.
  cancel_cases eid uid s; [discriminate|]. simpl. subst evs'.
  split; [|split].
  - exists r1, r, r2. repeat split; try done.
    intros key Hkey. unfold Rsvp.get. simpl.
    destruct (String.eqb_spec key "status"); [done|done].
  - destruct (find (Event.hasId eid) (events s)) as [e|] eqn:Hfind.
    + destruct (find_Some_split _ _ _ Hfind) as (l1 & l2 & -> & He & Hl1).
      by rewrite mutateFound_first, find_first.
    + by rewrite mutateFound_None, Hfind.
  - intros k Hk. by apply find_hasId_other_remove.
Qed.

Lemma cancelRSVP_success_witness :
  let s1 := fst (createRSVP (Int 1) "user-1" (mkClock 10 10 "")
                   (initialStore 1000 2000 "" "")) in
  success (snd (cancelRSVP (Int 1) "user-1" s1)) = true /\
  attendeesOf (Int 1) (fst (cancelRSVP (Int 1) "user-1" s1))
    = (fun n => n - 1) <$> attendeesOf (Int 1) s1.
Proof.
  cbv zeta. split; [reflexivity|].
  exact (proj1 (proj2 (cancelRSVP_success (Int 1) "user-1"
    (fst (createRSVP (Int 1) "user-1" (mkClock 10 10 "")
            (initialStore 1000 2000 "" ""))) eq_refl))).
Defined.

(** ** At most one 'attending' record per actor and event *)

Lemma activeFor_app uid eid l1 l2 :
  activeFor uid eid (l1 ++ l2)
  = (activeFor uid eid l1 + activeFor uid eid l2)%nat.
Proof. unfold activeFor. by rewrite List.filter_app, length_app. Qed.

Lemma activeFor_cons uid eid r l :
  activeFor uid eid (r :: l)
  = ((if Rsvp.isActiveFor uid eid r then 1 else 0) + activeFor uid eid l)%nat.
Proof. unfold activeFor. simpl. by destruct (Rsvp.isActiveFor uid eid r). Qed.

Lemma activeFor_0 uid eid l :
  activeFor uid eid l = O <-> find (Rsvp.isActiveFor uid eid) l = None.
Proof. apply filter_length_0_find. Qed.

Lemma isActiveFor_inj uid eid uid' eid' r :
  Rsvp.isActiveFor uid eid r = true ->
  Rsvp.isActiveFor uid' eid' r = true -> uid = uid' /\ eid = eid'.
Proof.
  rewrite !isActiveFor_true.
  intros (<- & (z & Hz & ->) & _) (<- & (z' & Hz' & ->) & _).
  split; congruence.
Qed.

Lemma perform_atMostOneActive c s :
  atMostOneActive (rsvps s) -> atMostOneActive (rsvps (fst (perform c s))).
Proof.
  intros Hs uid' eid'. specialize (Hs uid' eid').
  destruct c as [eid uid clk|eid uid]; unfold perform.
  - create_cases eid uid clk s; try done. simpl.
    rewrite activeFor_app, activeFor_cons.
    destruct (Rsvp.isActiveFor uid' eid' (newRsvp eid uid clk)) eqn:Hnew;
      [|simpl; unfold activeFor in *; simpl; lia].
    assert (Hself : Rsvp.isActiveFor uid eid (newRsvp eid uid clk) = true).
    { apply isActiveFor_true. split; [done|]. split; [|done].
      exists (Event.id e). by rewrite Heid. }
    destruct (isActiveFor_inj _ _ _ _ _ Hself Hnew) as [<- <-].
    apply activeFor_0 in Hdup. rewrite Hdup. done.
  - cancel_cases eid uid s; [done|]. simpl. rewrite Hr in Hs.
    rewrite activeFor_app, activeFor_cons in *.
    rewrite isActiveFor_cancelled.
    destruct (Rsvp.isActiveFor uid' eid' r); lia.
Qed.

(** No duplicate admission: in every reachable store each actor holds at
    most one 'attending' record per event. *)
Lemma reachable_atMostOneActive s : reachable s -> atMostOneActive (rsvps s).
Proof.
  induction 1 as [evs next|c s _ IH|evs next s _ IH]; simpl.
  - intros uid eid. unfold activeFor. simpl. lia.
  - by apply perform_atMostOneActive.
  - done.
Qed.

(** ** Equations for the two successful paths *)

Lemma find_mutateFound_same {A : Type} (p : A -> bool) (f : A -> A)
    (l : list A) :
  (forall x, p (f x) = p x) ->
  find p (mutateFound p f l) = f <$> find p l.
Proof.
  intros Hpf. destruct (find p l) as [x|] eqn:Hfind.
  - destruct (find_Some_split _ _ _ Hfind) as (l1 & l2 & -> & Hx & Hl1).
    rewrite mutateFound_first by done.
    rewrite find_first; [done|done|]. by rewrite Hpf.
  - rewrite mutateFound_None by done. by rewrite Hfind.
Qed.

Lemma createRSVP_admits eid uid clk s e :
  find (Event.hasId eid) (events s) = Some e ->
  num_le (Event.date e) (Int (checkedAt clk)) = false ->
  find (Rsvp.isActiveFor uid eid) (rsvps s) = None ->
  Event.currentAttendees e < Event.capacity e ->
  createRSVP eid uid clk s
  = (mkStore (mutateFound (Event.hasId eid) (Event.addAttendee uid) (events s))
       (nextEventId s) (rsvps s ++ [newRsvp eid uid clk]),
     mkResult true (Some "RSVP successful") None
       (Some (format (Event.addAttendee uid e)))).
Proof.
  intros Hfind Hdate Hdup Hcap. unfold createRSVP, getEventById.
  rewrite Hfind. simpl. rewrite Hdate, Hdup.
  destruct (Z.geb_spec (Event.currentAttendees e) (Event.capacity e)); [lia|].
  simpl. rewrite find_mutateFound_same, Hfind by done. done.
Qed.


Lemma cancelRSVP_success_inv eid uid s :
  success (snd (cancelRSVP eid uid s)) = true ->
  exists r1 r r2,
    rsvps s = r1 ++ r :: r2 /\
    find (Rsvp.isActiveFor uid eid) r1 = None /\
    Rsvp.isActiveFor uid eid r = true /\
    fst (cancelRSVP eid uid s)
    = mkStore
        (mutateFound (Event.hasId eid) (Event.removeAttendee uid) (events s))
        (nextEventId s) (r1 ++ Rsvp.setStatus cancelled r :: r2).
Proof.
  intros Hok. cancel_cases eid uid s; [discriminate|].
  subst evs'. by exists r1, r, r2.
Qed.

(** ** Cancel, then reserve again *)

(** C8. In a reachable store, after a successful [cancelRSVP] by an actor
    on an event that is then still in the store, not past its date and
    below capacity, [createRSVP] by the same actor on the same event
    succeeds: the old record stays in its place with status 'cancelled', a
    new 'attending' record is appended and is the one [checkRSVPStatus]
    finds, and the counter after the pair equals the counter before it. *)
Theorem cancel_then_create eid uid clk s e1 :
  reachable s ->
  success (snd (cancelRSVP eid uid s)) = true ->
  find (Event.hasId eid) (events (fst (cancelRSVP eid uid s))) = Some e1 ->
  num_le (Event.date e1) (Int (checkedAt clk)) = false ->
  Event.currentAttendees e1 < Event.capacity e1 ->
  let s1 := fst (cancelRSVP eid uid s) in
  let s2 := fst (createRSVP eid uid clk s1) in
  success (snd (createRSVP eid uid clk s1)) = true /\
  (exists r1 r r2,
     rsvps s = r1 ++ r :: r2 /\
     Rsvp.isActiveFor uid eid r = true /\
     rsvps s2
     = (r1 ++ Rsvp.setStatus cancelled r :: r2) ++ [newRsvp eid uid clk]) /\
  Rsvp.status (newRsvp eid uid clk) = attending /\
  checkRSVPStatus eid uid s2 = Some (newRsvp eid uid clk) /\
  attendeesOf eid s2 = attendeesOf eid s.
Proof.
  intros Hreach Hok Hfind Hdate Hcap. cbv zeta.
  pose proof (reachable_atMostOneActive s Hreach uid eid) as Huniq.
  destruct (cancelRSVP_success_inv eid uid s Hok)
    as (r1 & r & r2 & Hr & Hr1 & Hact & Hs1).
  rewrite Hs1 in *. simpl in Hfind.
  rewrite Hr, activeFor_app, activeFor_cons, Hact in Huniq.
  assert (Hr2 : find (Rsvp.isActiveFor uid eid) r2 = None).
  { apply activeFor_0. lia. }
  assert (Hnone : find (Rsvp.isActiveFor uid eid)
                    (r1 ++ Rsvp.setStatus cancelled r :: r2) = None).
  { rewrite find_app_None by done. simpl.
    by rewrite isActiveFor_cancelled. }
  rewrite (createRSVP_admits eid uid clk _ e1); try done. simpl.
  split; [done|]. split; [by exists r1, r, r2|]. split; [done|]. split.
  - unfold checkRSVPStatus. simpl. rewrite find_app_None by done. simpl.
    assert (Rsvp.isActiveFor uid eid (newRsvp eid uid clk) = true) as ->; [|done].
    apply isActiveFor_true in Hact as (_ & (z & _ & ->) & _).
    apply isActiveFor_true. split; [done|]. split; [|done]. by exists z.
  - unfold attendeesOf. simpl.
    rewrite find_mutateFound_same, Hfind by done.
    rewrite find_mutateFound_same in Hfind by done.
    destruct (find (Event.hasId eid) (events s)) as [e|]; [|done].
    injection Hfind as <-. simpl. f_equal. lia.
Qed.

Lemma cancel_then_create_witness :
  let s := fst (createRSVP (Int 2) "user-1" (mkClock 10 10 "")
                  (initialStore 1000 2000 "" "")) in
  let s1 := fst (cancelRSVP (Int 2) "user-1" s) in
  let s2 := fst (createRSVP (Int 2) "user-1" (mkClock 20 20 "") s1) in
  reachable s /\
  success (snd (cancelRSVP (Int 2) "user-1" s)) = true /\
  success (snd (createRSVP (Int 2) "user-1" (mkClock 20 20 "") s1)) = true /\
  checkRSVPStatus (Int 2) "user-1" s2
    = Some (newRsvp (Int 2) "user-1" (mkClock 20 20 "")) /\
  attendeesOf (Int 2) s2 = attendeesOf (Int 2) s.
Proof.
  cbv zeta.
  assert (Hreach : reachable
            (fst (createRSVP (Int 2) "user-1" (mkClock 10 10 "")
                    (initialStore 1000 2000 "" "")))).
  { apply (reachable_call (CreateRSVP (Int 2) "user-1" (mkClock 10 10 ""))).
    apply reachable_start. }
  split; [exact Hreach|]. split; [reflexivity|].
  destruct (cancel_then_create (Int 2) "user-1" (mkClock 20 20 "") _
              (communityMeetup 2000 "")
              Hreach eq_refl eq_refl eq_refl eq_refl)
    as (H1 & _ & _ & H4 & H5).
  by repeat split.
Defined.

(** ** Record ids *)

(** C9. The id of a record is [Date.now()] of the call that creates it, so
    two admissions in the same millisecond share their id: from the
    initial store, "user-1" and "user-2" both reserve event 1 while the
    clock reads 10, both succeed, and the ledger holds two records with
    id 10. *)
Lemma same_instant_same_id :
  let s0 := initialStore 1000 2000 "" "" in
  let clk := mkClock 10 10 "2024-05-01T09:00:00.000Z" in
  let calls :=
    [CreateRSVP (Int 1) "user-1" clk; CreateRSVP (Int 1) "user-2" clk] in
  map success (results calls s0) = [true; true] /\
  map Rsvp.userId (rsvps (run calls s0)) = ["user-1"; "user-2"] /\
  map Rsvp.id (rsvps (run calls s0)) = [10; 10].
Proof. by vm_compute. Qed.

(** ** A burst of requests for one event *)






(** ** Further properties of the ledger *)

Lemma reachable_run cs s : reachable s -> reachable (run cs s).
Proof.
  revert s. induction cs as [|c cs IH]; intros s Hs; simpl; [done|].
  apply IH. by apply reachable_call.
Qed.

(** X1. No duplicate admission: in every reachable store an actor holds
    at most one 'attending' record per event. *)
Theorem no_duplicate_admission s uid eid :
  reachable s -> (activeFor uid eid (rsvps s) <= 1)%nat.
Proof. intros Hreach. by apply reachable_atMostOneActive. Qed.

Lemma no_duplicate_admission_witness :
  let clk := mkClock 10 10 "" in
  let s := run [ CreateRSVP (Int 1) "user-1" clk;
                 CreateRSVP (Int 1) "user-1" clk ]
             (initialStore 1000 2000 "" "") in
  reachable s /\ (activeFor "user-1" (Int 1) (rsvps s) <= 1)%nat.
Proof.
  cbv zeta.
  assert (Hreach : reachable
            (run [ CreateRSVP (Int 1) "user-1" (mkClock 10 10 "");
                   CreateRSVP (Int 1) "user-1" (mkClock 10 10 "") ]
               (initialStore 1000 2000 "" ""))).
  { apply reachable_run, reachable_start. }
  split; [exact Hreach|]. exact (no_duplicate_admission _ _ _ Hreach).
Defined.

(** X2. Records are never deleted and never re-activated: after any
    call, every record of the ledger is still at its index, unchanged or
    turned from 'attending' into 'cancelled'. *)
Theorem ledger_keeps_records c s i old :
  rsvps s !! i = Some old ->
  exists r',
    rsvps (fst (perform c s)) !! i = Some r' /\ sameOrCancelled old r'.
Proof.
  intros Hi. unfold sameOrCancelled.
  destruct c as [eid uid clk|eid uid]; unfold perform.
  - create_cases eid uid clk s; try (exists old; split; [done|by left]).
    exists old. split; [|by left]. simpl. by apply lookup_app_l_Some.
  - cancel_cases eid uid s; try (exists old; split; [done|by left]).
    simpl. rewrite <- (alter_middle (Rsvp.setStatus cancelled)), <- Hr.
    destruct (decide (length r1 = i)) as [<-|Hne].
    + rewrite list_lookup_alter_eq, Hi. simpl. eexists. split; [done|].
      right. split; [|done].
      rewrite Hr, list_lookup_middle in Hi by done. injection Hi as <-.
      by apply isActiveFor_true in Hact as (_ & _ & Hst).
    + rewrite list_lookup_alter_ne by done.
      exists old. split; [done|by left].
Qed.

Lemma ledger_keeps_records_witness :
  let s := fst (createRSVP (Int 1) "user-1" (mkClock 10 10 "")
                  (initialStore 1000 2000 "" "")) in
  rsvps s !! 0%nat = Some (Rsvp.mk 10 "user-1" (Int 1) attending "") /\
  exists r',
    rsvps (fst (perform (CancelRSVP (Int 1) "user-1") s)) !! 0%nat = Some r' /\
    sameOrCancelled (Rsvp.mk 10 "user-1" (Int 1) attending "") r'.
Proof.
  cbv zeta. split; [reflexivity|].
  apply (ledger_keeps_records (CancelRSVP (Int 1) "user-1")). reflexivity.
Defined.

(** X3. The two checks that come first in [createRSVP]: an unknown event
    and an event whose date has passed are turned down, the store is
    handed back as it was. *)
Theorem createRSVP_not_eligible eid uid clk s :
  (find (Event.hasId eid) (events s) = None ->
   createRSVP eid uid clk s = (s, failure "Event not found")) /\
  (forall e,
     find (Event.hasId eid) (events s) = Some e ->
     num_le (Event.date e) (Int (checkedAt clk)) = true ->
     createRSVP eid uid clk s = (s, failure "Cannot RSVP to past events")).
Proof.
  unfold createRSVP, getEventById. split.
  - by intros ->.
  - intros e -> Hpast. simpl. by rewrite Hpast.
Qed.

(** X4. A second cancel of the same reservation: in a reachable store,
    after a successful [cancelRSVP] the same call again finds no
    'attending' record and changes nothing. *)
Theorem cancelRSVP_twice eid uid s :
  reachable s ->
  success (snd (cancelRSVP eid uid s)) = true ->
  cancelRSVP eid uid (fst (cancelRSVP eid uid s))
  = (fst (cancelRSVP eid uid s),
     failure "No active RSVP found for this event").
Proof.
  intros Hreach Hok.
  pose proof (reachable_atMostOneActive s Hreach uid eid) as Huniq.
  destruct (cancelRSVP_success_inv eid uid s Hok)
    as (r1 & r & r2 & Hr & Hr1 & Hact & ->).
  rewrite Hr, activeFor_app, activeFor_cons, Hact in Huniq.
  assert (Hr2 : find (Rsvp.isActiveFor uid eid) r2 = None).
  { apply activeFor_0. lia. }
  unfold cancelRSVP at 1. simpl.
  assert (findIndex (Rsvp.isActiveFor uid eid)
            (r1 ++ Rsvp.setStatus cancelled r :: r2) = None) as ->; [|done].
  apply findIndex_None_find. rewrite find_app_None by done. simpl.
  by rewrite isActiveFor_cancelled.
Qed.

Lemma cancelRSVP_twice_witness :
  let s := fst (createRSVP (Int 1) "user-1" (mkClock 10 10 "")
                  (initialStore 1000 2000 "" "")) in
  reachable s /\
  success (snd (cancelRSVP (Int 1) "user-1" s)) = true /\
  attendeesOf (Int 1)
    (fst (cancelRSVP (Int 1) "user-1" (fst (cancelRSVP (Int 1) "user-1" s))))
  = Some 23.
Proof.
  cbv zeta.
  assert (Hreach : reachable
            (fst (createRSVP (Int 1) "user-1" (mkClock 10 10 "")
                    (initialStore 1000 2000 "" "")))).
  { apply (reachable_call (CreateRSVP (Int 1) "user-1" (mkClock 10 10 ""))).
    apply reachable_start. }
  split; [exact Hreach|]. split; [reflexivity|].
  rewrite (cancelRSVP_twice (Int 1) "user-1" _ Hreach eq_refl). reflexivity.
Defined.

(** ** Events made by createEvent *)

Lemma perform_nextEventId c s :
  nextEventId (fst (perform c s)) = nextEventId s.
Proof.
  destruct c as [eid uid clk|eid uid]; unfold perform.
  - by create_cases eid uid clk s.
  - by cancel_cases eid uid s.
Qed.

Lemma initialStore_idsBelowNext tomorrow nextWeek created1 created2 :
  idsBelowNext (initialStore tomorrow nextWeek created1 created2).
Proof. split; simpl; repeat constructor; simpl; lia. Qed.

Lemma perform_idsBelowNext c s :
  idsBelowNext s -> idsBelowNext (fst (perform c s)).
Proof.
  intros [Hbelow Hrs]. split.
  - rewrite perform_nextEventId.
    apply (proj1 (List.Forall_map Event.id (fun z => z < nextEventId s) _)).
    rewrite perform_ids.
    by apply (proj2 (List.Forall_map Event.id (fun z => z < nextEventId s) _)).
  - rewrite perform_nextEventId.
    destruct c as [eid uid clk|eid uid]; unfold perform.
    + create_cases eid uid clk s; try done. simpl.
      apply Forall_app. split; [done|]. apply Forall_singleton. simpl.
      exists (Event.id e). split; [done|].
      rewrite Hev in Hbelow. apply Forall_app in Hbelow as [_ Hbelow].
      by apply Forall_cons in Hbelow as [He _].
    + cancel_cases eid uid s; try done. simpl.
      rewrite Hr in Hrs. apply Forall_app in Hrs as [H1 H2].
      apply Forall_cons in H2 as [H2 H3].
      apply Forall_app. split; [done|]. by apply Forall_cons.
Qed.

Lemma createEvent_idsBelowNext isValid title description date location
    capacity userId createdIso s :
  idsBelowNext s ->
  idsBelowNext
    (fst (createEvent isValid title description date location capacity
            userId createdIso s)).
Proof.
  intros [Hev Hrs]. unfold createEvent. destruct isValid; simpl; [|done].
  split; simpl.
  - apply Forall_app. split.
    + eapply Forall_impl; [exact Hev|]. simpl. intros e He. lia.
    + apply Forall_singleton. simpl. lia.
  - eapply Forall_impl; [exact Hrs|]. simpl.
    intros r (z & Hz & Hlt). exists z. split; [done|lia].
Qed.

Lemma activeCount_unused k l :
  Forall (fun r => exists z, Rsvp.eventId r = Int z /\ z < k) l ->
  activeCount k l = 0.
Proof.
  induction 1 as [|r l (z & Hz & Hlt) _ IH]; [done|].
  rewrite activeCount_cons, IH.
  destruct (activeOn k r) eqn:Hact; [|done].
  apply activeOn_eventId in Hact. rewrite Hz in Hact.
  injection Hact as ->. lia.
Qed.

(** X5. An event made by [createEvent] enters the store with
    [currentAttendees = 0] under an id that no record refers to; along
    every later sequence of [createRSVP] and [cancelRSVP] calls its counter
    is the number of its 'attending' records, hence never negative. *)
Theorem created_event_counts_its_records
    title description date location capacity userId createdIso s cs :
  idsBelowNext s ->
  let k := nextEventId s in
  let s1 := fst (createEvent true title description date location capacity
                   userId createdIso s) in
  Forall (fun s' =>
            exists e,
              find (Event.hasId (Int k)) (events s') = Some e /\
              Event.currentAttendees e = activeCount k (rsvps s') /\
              0 <= Event.currentAttendees e)
    (observed cs s1).
Proof.
  intros [Hev Hrs]. cbv zeta. unfold createEvent. simpl.
  assert (H0 : surplus (nextEventId s)
                 (mkStore
                    (push (events s)
                       (Event.mk (nextEventId s) title description date
                          location capacity 0 userId "User" [] createdIso))
                    (nextEventId s + 1) (rsvps s)) = Some 0).
  { unfold surplus, push. simpl. rewrite find_first.
    - simpl. by rewrite activeCount_unused.
    - apply find_None_Forall. eapply Forall_impl; [exact Hev|].
      simpl. intros e He. rewrite hasId_Int. apply Z.eqb_neq. lia.
    - rewrite hasId_Int. simpl. apply Z.eqb_refl. }
  eapply Forall_impl; [exact (observed_surplus _ _ cs _ H0)|].
  simpl. intros s' (e & He & Hcount). exists e.
  pose proof (activeCount_nonneg (nextEventId s) (rsvps s')).
  repeat split; [done|lia|lia].
Qed.

Lemma created_event_counts_its_records_witness :
  let s := initialStore 1000 2000 "" "" in
  let cs := [ CreateRSVP (Int 3) "user-1" (mkClock 10 10 "");
              CancelRSVP (Int 3) "user-1";
              CancelRSVP (Int 3) "user-1" ] in
  idsBelowNext s /\
  Forall (fun s' =>
            exists e,
              find (Event.hasId (Int 3)) (events s') = Some e /\
              0 <= Event.currentAttendees e)
    (observed cs (smallEventStore 5)).
Proof.
  cbv zeta.
  pose proof (initialStore_idsBelowNext 1000 2000 "" "") as Hwf.
  split; [exact Hwf|].
  eapply Forall_impl.
  - exact (created_event_counts_its_records "Board games night"
             "An evening of board games for all ages" (Int 3000)
             "City Library" 5 "user-9" "" _ _ Hwf).
  - simpl. intros s' (e & He & _ & Hpos). exists e. split; [exact He|exact Hpos].
Defined.

(** ** The scenarios of the specification, run on the model *)

(** Capacity 5: A reserves (counter 0 to 1), A reserves again and is turned
    down as a duplicate, the counter stays 1. *)
Example scenario_duplicate :
  let s := smallEventStore 5 in
  let clk := mkClock 10 10 "" in
  let cs := [CreateRSVP (Int 3) "A" clk; CreateRSVP (Int 3) "A" clk] in
  map (attendeesOf (Int 3)) (observed cs s) = [Some 0; Some 1; Some 1] /\
  map error (results cs s)
  = [None; Some "You have already RSVP'd to this event"].
Proof. by vm_compute. Qed.

(** A reserves, cancels (counter 1 to 0, status 'attending' to
    'cancelled'), reserves again: a new 'attending' record, counter 0 to
    1. *)
Example scenario_cancel_and_reserve_again :
  let s := smallEventStore 5 in
  let cs := [ CreateRSVP (Int 3) "A" (mkClock 10 10 "");
              CancelRSVP (Int 3) "A";
              CreateRSVP (Int 3) "A" (mkClock 20 20 "") ] in
  map (attendeesOf (Int 3)) (observed cs s)
  = [Some 0; Some 1; Some 0; Some 1] /\
  map success (results cs s) = [true; true; true] /\
  map Rsvp.status (rsvps (run cs s)) = [cancelled; attending].
Proof. by vm_compute. Qed.

(** * Properties of the other operations *)

(** ** Strings *)

Lemma startsWith_spec s t :
  startsWith s t = true <-> exists b, s = (t ++ b)%string.
Proof.
  revert s. induction t as [|c t IH]; intros s.
  - split; [intros _; by exists s|by destruct s].
  - destruct s as [|a s]; simpl.
    + split; [discriminate|]. by intros (b & ?).
    + rewrite andb_true_iff, Ascii.eqb_eq, IH. split.
      * intros (-> & b & ->). by exists b.
      * intros (b & [= -> ->]). split; [done|]. by exists b.
Qed.

Lemma includes_nil t : includes "" t = startsWith "" t.
Proof. simpl. by rewrite orb_false_r. Qed.

Lemma includes_cons c s t :
  includes (String c s) t = startsWith (String c s) t || includes s t.
Proof. done. Qed.

(** [includes] is the substring test. *)
Lemma includes_spec s t :
  includes s t = true <-> exists a b, s = (a ++ t ++ b)%string.
Proof.
  induction s as [|c s IH].
  - rewrite includes_nil, startsWith_spec. split.
    + intros (b & ->). by exists EmptyString, b.
    + intros ([|c a] & b & H); [by exists b|discriminate].
  - rewrite includes_cons, orb_true_iff, startsWith_spec, IH. split.
    + intros [(b & ->)|(a & b & ->)].
      * by exists EmptyString, b.
      * by exists (String c a), b.
    + intros ([|c' a] & b & H).
      * left. by exists b.
      * right. simpl in H. injection H as _ ->. by exists a, b.
Qed.

Lemma includes_empty s : includes s "" = true.
Proof. destruct s; reflexivity. Qed.

Lemma lowerUnit_idem a : lowerUnit (lowerUnit a) = lowerUnit a.
Proof. by destruct a as [[] [] [] [] [] [] [] []]. Qed.

Lemma toLowerCase_idem s : toLowerCase (toLowerCase s) = toLowerCase s.
Proof.
  induction s as [|a s IH]; simpl; [done|]. by rewrite lowerUnit_idem, IH.
Qed.

Lemma toLowerCase_eqb_empty s :
  String.eqb (toLowerCase s) "" = String.eqb s "".
Proof. by destruct s. Qed.

Lemma toLowerCase_length s : String.length (toLowerCase s) = String.length s.
Proof. induction s as [|a s IH]; simpl; [done|]. by rewrite IH. Qed.

(** ** Arrays *)

Lemma elem_of_filterFrom {A : Type} (p : nat -> A -> bool) (l : list A) :
  forall i x,
    x ∈ filterFrom p i l <->
    exists j, l !! j = Some x /\ p (i + j)%nat x = true.
Proof.
  induction l as [|y l IH]; intros i x; simpl.
  - split; [by intros ?%elem_of_nil|]. by intros (j & ? & _).
  - assert (Hrest : x ∈ filterFrom p (S i) l <->
              exists j, l !! j = Some x /\ p (i + S j)%nat x = true).
    { rewrite IH. split; intros (j & Hj & Hp); exists j;
        (split; [done|]); by replace (i + S j)%nat with (S i + j)%nat in * by lia. }
    destruct (p i y) eqn:Hpy.
    + rewrite elem_of_cons, Hrest. split.
      * intros [->|(j & Hj & Hp)].
        -- exists O. split; [done|]. by rewrite Nat.add_0_r.
        -- by exists (S j).
      * intros ([|j] & Hj & Hp).
        -- left. simpl in Hj. by injection Hj as ->.
        -- right. by exists j.
    + rewrite Hrest. split.
      * intros (j & Hj & Hp). by exists (S j).
      * intros ([|j] & Hj & Hp).
        -- simpl in Hj. injection Hj as ->. rewrite Nat.add_0_r in Hp. congruence.
        -- by exists j.
Qed.

Lemma filterFrom_sublist {A : Type} (p : nat -> A -> bool) (l : list A) :
  forall i, filterFrom p i l `sublist_of` l.
Proof.
  induction l as [|y l IH]; intros i; simpl; [done|].
  destruct (p i y); [by apply sublist_skip|by apply sublist_cons].
Qed.

Lemma filter_sublist {A : Type} (p : A -> bool) (l : list A) :
  List.filter p l `sublist_of` l.
Proof.
  induction l as [|y l IH]; simpl; [done|].
  destruct (p y); [by apply sublist_skip|by apply sublist_cons].
Qed.

Lemma elem_of_List_filter {A : Type} (p : A -> bool) (l : list A) x :
  x ∈ List.filter p l <-> x ∈ l /\ p x = true.
Proof. rewrite !list_elem_of_In. apply List.filter_In. Qed.

(** ** deleteEvent *)

Lemma deleteEvent_not_found eid uid s :
  find (Event.hasId eid) (events s) = None ->
  deleteEvent eid uid s = (s, failure "Event not found").
Proof.
  intros H. apply findIndex_None_find in H. unfold deleteEvent. by rewrite H.
Qed.

Lemma deleteEvent_found eid uid s e :
  find (Event.hasId eid) (events s) = Some e ->
  exists l1 l2,
    events s = l1 ++ e :: l2 /\
    find (Event.hasId eid) l1 = None /\
    Event.hasId eid e = true /\
    deleteEvent eid uid s
    = if String.eqb (Event.creator e) uid
      then (mkStore (l1 ++ l2) (nextEventId s) (rsvps s),
            mkResult true (Some "Event deleted successfully") None None)
      else (s, failure "Not authorized to delete this event").
Proof.
  intros Hfind.
  destruct (find_Some_split _ _ _ Hfind) as (l1 & l2 & Hev & He & Hl1).
  exists l1, l2. repeat split; try done.
  unfold deleteEvent. rewrite Hev, findIndex_first by done.
  rewrite list_lookup_middle by done. rewrite delete_middle.
  by destruct (String.eqb (Event.creator e) uid).
Qed.

Lemma find_hasId_remove_other eid eid' l1 e l2 :
  Event.hasId eid e = true -> eid' <> eid ->
  find (Event.hasId eid') (l1 ++ e :: l2) = find (Event.hasId eid') (l1 ++ l2).
Proof.
  intros He Hne.
  assert (Event.hasId eid' e = false) as Hno.
  { destruct (Event.hasId eid' e) eqn:H; [|done].
    apply hasId_true in He, H. congruence. }
  induction l1 as [|x l1 IH]; simpl; [by rewrite Hno|].
  by destruct (Event.hasId eid' x).
Qed.

Lemma find_hasId_NoDup_removed eid l1 e l2 :
  NoDup (map Event.id (l1 ++ e :: l2)) ->
  Event.hasId eid e = true ->
  find (Event.hasId eid) (l1 ++ l2) = None.
Proof.
  intros Hnd He. apply hasId_true in He. apply find_None_Forall.
  rewrite map_app in Hnd. simpl in Hnd.
  apply NoDup_app in Hnd as (_ & Hdis & Hnd2).
  apply NoDup_cons in Hnd2 as [Hnot2 _].
  apply Forall_forall. intros x Hx.
  destruct (Event.hasId eid x) eqn:Hxid; [exfalso|done].
  apply hasId_true in Hxid. rewrite He in Hxid. injection Hxid as Hid.
  apply elem_of_app in Hx as [Hx|Hx].
  - apply (Hdis (Event.id x)); [by apply list_elem_of_fmap_2|].
    rewrite <- Hid. by left.
  - apply Hnot2. rewrite Hid. by apply list_elem_of_fmap_2.
Qed.

(** X6. [deleteEvent] succeeds exactly when the event that [find] returns
    for the id is one of those [getUserEvents] lists for the caller, i.e.
    was created by the caller. A failing call hands back the store
    unchanged; a successful one removes that one event, keeps the others
    in their order, and touches neither the ledger nor [nextEventId]. *)
Theorem deleteEvent_by_creator_only eid uid s :
  let s' := fst (deleteEvent eid uid s) in
  let res := snd (deleteEvent eid uid s) in
  (success res = true <->
     exists e, find (Event.hasId eid) (events s) = Some e /\
               e ∈ getUserEvents uid s)
  /\ (success res = false -> s' = s)
  /\ (success res = true ->
        exists l1 e l2,
          events s = l1 ++ e :: l2 /\
          find (Event.hasId eid) l1 = None /\
          Event.hasId eid e = true /\
          events s' = l1 ++ l2 /\
          rsvps s' = rsvps s /\ nextEventId s' = nextEventId s).
Proof.
  cbv zeta. unfold getUserEvents.
  destruct (find (Event.hasId eid) (events s)) as [e|] eqn:Hfind.
  - destruct (deleteEvent_found eid uid s e Hfind)
      as (l1 & l2 & Hev & Hl1 & He & ->).
    destruct (String.eqb (Event.creator e) uid) eqn:Hc; simpl.
    + split; [|split; [discriminate|]].
      * split; [intros _|done]. exists e. split; [done|].
        apply elem_of_List_filter. split; [|done].
        rewrite Hev. apply elem_of_app. right. by left.
      * intros _. by exists l1, e, l2.
    + split; [|split; [done|discriminate]].
      split; [discriminate|]. intros (e' & [= <-] & Hin).
      apply elem_of_List_filter in Hin as [_ Hin]. congruence.
  - rewrite deleteEvent_not_found by done. simpl.
    split; [|split; [done|discriminate]].
    split; [discriminate|]. by intros (e & ? & _).
Qed.

(** X7. Delete, then look up. In a store whose event ids are pairwise
    different, after a successful [deleteEvent] the id is gone:
    [getEventById] answers 'Event not found' for it, and answers for every
    other id what it answered before. *)
Theorem deleteEvent_then_getEventById eid uid s :
  NoDup (map Event.id (events s)) ->
  success (snd (deleteEvent eid uid s)) = true ->
  let s' := fst (deleteEvent eid uid s) in
  getEventById eid s' = failure "Event not found" /\
  (forall eid', eid' <> eid -> getEventById eid' s' = getEventById eid' s).
Proof.
  intros Hnd Hok. cbv zeta. unfold getEventById.
  destruct (find (Event.hasId eid) (events s)) as [e|] eqn:Hfind.
  - destruct (deleteEvent_found eid uid s e Hfind)
      as (l1 & l2 & Hev & Hl1 & He & Hdel).
    rewrite Hdel in *.
    destruct (String.eqb (Event.creator e) uid); [|discriminate]. simpl.
    rewrite Hev in Hnd. split.
    + by rewrite (find_hasId_NoDup_removed eid l1 e l2).
    + intros eid' Hne. by rewrite Hev, (find_hasId_remove_other eid eid').
  - rewrite deleteEvent_not_found in Hok by done. discriminate.
Qed.

Lemma deleteEvent_then_getEventById_witness :
  let s := smallEventStore 5 in
  NoDup (map Event.id (events s)) /\
  success (snd (deleteEvent (Int 3) "user-9" s)) = true /\
  getEventById (Int 3) (fst (deleteEvent (Int 3) "user-9" s))
    = failure "Event not found" /\
  getEventById (Int 2) (fst (deleteEvent (Int 3) "user-9" s))
    = getEventById (Int 2) s.
Proof.
  cbv zeta.
  assert (Hnd : NoDup (map Event.id (events (smallEventStore 5)))).
  { simpl. repeat (apply NoDup_cons; split); try apply NoDup_nil_2;
      rewrite ?not_elem_of_cons; repeat split;
      try discriminate; apply not_elem_of_nil. }
  split; [exact Hnd|]. split; [reflexivity|].
  destruct (deleteEvent_then_getEventById (Int 3) "user-9"
              (smallEventStore 5) Hnd eq_refl) as [H1 H2].
  split; [exact H1|]. apply H2. discriminate.
Defined.

(** ** getUserRSVPs and checkRSVPStatus *)

Lemma elem_of_getUserRSVPs uid s fe :
  fe ∈ getUserRSVPs uid s <->
  exists r e,
    r ∈ rsvps s /\ Rsvp.userId r = uid /\ Rsvp.status r = attending /\
    find (Event.hasId (Rsvp.eventId r)) (events s) = Some e /\
    fe = format e.
Proof.
  unfold getUserRSVPs. rewrite list_elem_of_omap. split.
  - intros (r & Hin & Hev). apply elem_of_List_filter in Hin as [Hin Hp].
    apply andb_true_iff in Hp as [Hu Hst]. apply String.eqb_eq in Hu.
    rewrite getEventById_event in Hev.
    destruct (find _ (events s)) as [e|] eqn:Hfind; [|done].
    injection Hev as <-. exists r, e. repeat split; try done.
    by destruct (Rsvp.status r).
  - intros (r & e & Hin & Hu & Hst & Hfind & ->). exists r. split.
    + apply elem_of_List_filter. split; [done|].
      rewrite Hst. apply andb_true_iff. split; [by apply String.eqb_eq|done].
    + by rewrite getEventById_event, Hfind.
Qed.

Lemma find_Some_elem {A : Type} (p : A -> bool) (l : list A) x :
  find p l = Some x -> x ∈ l /\ p x = true.
Proof.
  intros H. destruct (find_Some_split _ _ _ H) as (l1 & l2 & -> & Hx & _).
  split; [|done]. apply elem_of_app. right. by left.
Qed.

Lemma find_is_Some {A : Type} (p : A -> bool) (l : list A) x :
  x ∈ l -> p x = true -> is_Some (find p l).
Proof.
  intros Hin Hp. destruct (find p l) eqn:H; [done|].
  apply find_None_Forall in H.
  pose proof (proj1 (Forall_forall _ _) H x Hin). congruence.
Qed.

(** X8. The two queries agree: [getUserRSVPs] lists an event with id [k]
    for an actor exactly when [checkRSVPStatus] finds an 'attending'
    record of the actor for [k] and the event is in the store. *)
Theorem getUserRSVPs_agrees_with_status uid k s :
  (exists fe, fe ∈ getUserRSVPs uid s /\ Formatted._id fe = k) <->
  is_Some (checkRSVPStatus (Int k) uid s) /\
  is_Some (find (Event.hasId (Int k)) (events s)).
Proof.
  unfold checkRSVPStatus. split.
  - intros (fe & Hfe & Hid).
    apply elem_of_getUserRSVPs in Hfe as (r & e & Hin & Hu & Hst & Hfind & ->).
    simpl in Hid. subst k.
    destruct (find_Some_elem _ _ _ Hfind) as [_ He]. apply hasId_true in He.
    rewrite He in Hfind. split; [|by rewrite Hfind].
    apply (find_is_Some _ _ r); [done|].
    apply isActiveFor_true. split; [done|]. split; [|done].
    by exists (Event.id e).
  - intros [[r Hr] [e He]].
    destruct (find_Some_elem _ _ _ Hr) as [Hin Hact].
    apply isActiveFor_true in Hact as (Hu & (z & Hz & [= ->]) & Hst).
    exists (format e). split.
    + apply elem_of_getUserRSVPs. exists r, e. rewrite Hz. by repeat split.
    + simpl. destruct (find_Some_elem _ _ _ He) as [_ Hid].
      apply hasId_true in Hid. by injection Hid as ->.
Qed.

Lemma createRSVP_unknown eid uid clk s :
  find (Event.hasId eid) (events s) = None ->
  createRSVP eid uid clk s = (s, failure "Event not found").
Proof. intros H. unfold createRSVP, getEventById. by rewrite H. Qed.

(** X9. [deleteEvent] leaves the ledger alone. After a successful delete
    in a store with pairwise different event ids, the records of the
    deleted event are still there: [checkRSVPStatus] answers as before,
    [getUserRSVPs] no longer lists the event, [createRSVP] answers 'Event
    not found', and [cancelRSVP] by an actor who holds an 'attending'
    record still succeeds, without an event in its answer and without
    changing any event. *)
Theorem deleteEvent_leaves_records eid owner s :
  NoDup (map Event.id (events s)) ->
  success (snd (deleteEvent eid owner s)) = true ->
  let s' := fst (deleteEvent eid owner s) in
  rsvps s' = rsvps s /\
  (forall uid, checkRSVPStatus eid uid s' = checkRSVPStatus eid uid s) /\
  (forall uid fe, fe ∈ getUserRSVPs uid s' -> Int (Formatted._id fe) <> eid) /\
  (forall uid clk,
     createRSVP eid uid clk s' = (s', failure "Event not found")) /\
  (forall uid,
     is_Some (checkRSVPStatus eid uid s) ->
     success (snd (cancelRSVP eid uid s')) = true /\
     event (snd (cancelRSVP eid uid s')) = None /\
     events (fst (cancelRSVP eid uid s')) = events s').
Proof.
  intros Hnd Hok. cbv zeta.
  destruct (find (Event.hasId eid) (events s)) as [e|] eqn:Hfind;
    [|rewrite deleteEvent_not_found in Hok by done; discriminate].
  destruct (deleteEvent_found eid owner s e Hfind)
    as (l1 & l2 & Hev & Hl1 & He & Hdel).
  rewrite Hdel in *.
  destruct (String.eqb (Event.creator e) owner); [|discriminate]. simpl.
  assert (Hgone : find (Event.hasId eid) (l1 ++ l2) = None).
  { rewrite Hev in Hnd. by apply (find_hasId_NoDup_removed eid l1 e l2). }
  split; [done|]. split; [done|]. split; [|split].
  - intros uid fe Hfe Heq.
    apply elem_of_getUserRSVPs in Hfe as (r & e' & _ & _ & _ & Hf' & ->).
    simpl in *. destruct (find_Some_elem _ _ _ Hf') as [Hin _].
    apply find_None_Forall in Hgone.
    pose proof (proj1 (Forall_forall _ _) Hgone e' Hin) as Hno.
    rewrite <- Heq in Hno. unfold Event.hasId in Hno. simpl in Hno.
    by rewrite Z.eqb_refl in Hno.
  - intros uid clk. by apply createRSVP_unknown.
  - intros uid [r Hr]. unfold checkRSVPStatus in Hr.
    unfold cancelRSVP. simpl.
    destruct (findIndex (Rsvp.isActiveFor uid eid) (rsvps s)) as [i|] eqn:Hi.
    + simpl. rewrite getEventById_event. simpl.
      rewrite mutateFound_None by done. by rewrite Hgone.
    + apply findIndex_None_find in Hi. congruence.
Qed.

Lemma deleteEvent_leaves_records_witness :
  let s := fst (createRSVP (Int 3) "A" (mkClock 10 10 "") (smallEventStore 5)) in
  let s' := fst (deleteEvent (Int 3) "user-9" s) in
  NoDup (map Event.id (events s)) /\
  success (snd (deleteEvent (Int 3) "user-9" s)) = true /\
  rsvps s' = rsvps s /\
  success (snd (cancelRSVP (Int 3) "A" s')) = true /\
  events (fst (cancelRSVP (Int 3) "A" s')) = events s'.
Proof.
  cbv zeta.
  assert (Hnd : NoDup (map Event.id (events
            (fst (createRSVP (Int 3) "A" (mkClock 10 10 "")
                    (smallEventStore 5)))))).
  { simpl. repeat (apply NoDup_cons; split); try apply NoDup_nil_2;
      rewrite ?not_elem_of_cons; repeat split;
      try discriminate; apply not_elem_of_nil. }
  split; [exact Hnd|]. split; [reflexivity|].
  destruct (deleteEvent_leaves_records (Int 3) "user-9" _ Hnd eq_refl)
    as (H1 & _ & _ & _ & H5).
  split; [exact H1|].
  destruct (H5 "A") as (H6 & _ & H7); [by eexists|].
  split; [exact H6|exact H7].
Defined.

(** ** getAllEvents *)

Lemma filter_all {A : Type} (l : list A) : List.filter (fun _ => true) l = l.
Proof. induction l as [|x l IH]; simpl; [done|]. by rewrite IH. Qed.

Lemma getAllEvents_unfold search clock s :
  getAllEvents search clock s
  = filterFrom (fun i e => num_gt (Event.date e) (Int (clock i))) O
      (List.filter (passesSearch search) (events s)).
Proof.
  unfold getAllEvents, passesSearch. destruct search as [term|].
  - destruct (String.eqb term ""); simpl; [by rewrite filter_all|done].
  - by rewrite filter_all.
Qed.

Lemma num_gt_mono d t t' : t <= t' -> num_gt d (Int t') = true -> num_gt d (Int t) = true.
Proof. destruct d; simpl; [|done]. rewrite !Z.ltb_lt. lia. Qed.

(** X10. What [getAllEvents] lists. If every clock reading of the call
    lies between [t0] and [t1], the answer is a sub-list of the store in
    store order; every listed event passes the search filter and has a
    valid date later than [t0]; and every stored event that passes the
    search filter and has a date later than [t1] is listed. *)
Theorem getAllEvents_between search clock t0 t1 s :
  (forall i, t0 <= clock i <= t1) ->
  getAllEvents search clock s `sublist_of` events s /\
  (forall e,
     e ∈ getAllEvents search clock s ->
     e ∈ events s /\ passesSearch search e = true /\
     num_gt (Event.date e) (Int t0) = true) /\
  (forall e,
     e ∈ events s -> passesSearch search e = true ->
     num_gt (Event.date e) (Int t1) = true ->
     e ∈ getAllEvents search clock s).
Proof.
  intros Hclock. rewrite getAllEvents_unfold. split; [|split].
  - etrans; [apply filterFrom_sublist|apply filter_sublist].
  - intros e He. apply elem_of_filterFrom in He as (j & Hj & Hgt).
    apply list_elem_of_lookup_2, elem_of_List_filter in Hj as [Hin Hp].
    repeat split; try done.
    apply (num_gt_mono _ t0 (clock (0 + j)%nat)); [apply Hclock|done].
  - intros e Hin Hp Hgt.
    assert (He : e ∈ List.filter (passesSearch search) (events s)).
    { by apply elem_of_List_filter. }
    apply list_elem_of_lookup_1 in He as [j Hj].
    apply elem_of_filterFrom. exists j. split; [done|].
    apply (num_gt_mono _ (clock (0 + j)%nat) t1); [apply Hclock|done].
Qed.

Lemma getAllEvents_between_witness :
  let s := initialStore 1000 2000 "" "" in
  let clock := fun _ : nat => 1500 in
  (forall i : nat, 1500 <= clock i <= 1500) /\
  communityMeetup 2000 "" ∈ getAllEvents (Some "MEETUP") clock s /\
  getAllEvents (Some "MEETUP") clock s `sublist_of` events s.
Proof.
  cbv zeta.
  assert (Hclock : forall i : nat, 1500 <= (fun _ : nat => 1500) i <= 1500)
    by (intros i; lia).
  split; [exact Hclock|].
  destruct (getAllEvents_between (Some "MEETUP") (fun _ => 1500) 1500 1500
              (initialStore 1000 2000 "" "") Hclock) as (H1 & _ & H3).
  split; [|exact H1].
  apply H3; [right; left|reflexivity|reflexivity].
Defined.

(** X11. The search of [getAllEvents] ignores the case of the term: a
    term and its lower-case form give the same answer. *)
Theorem getAllEvents_ignores_case term clock s :
  getAllEvents (Some term) clock s
  = getAllEvents (Some (toLowerCase term)) clock s.
Proof.
  unfold getAllEvents.
  by rewrite toLowerCase_eqb_empty, toLowerCase_idem.
Qed.

(** ** What an actor sees after a call *)

Lemma cancelRSVP_clears_active eid uid s :
  reachable s ->
  success (snd (cancelRSVP eid uid s)) = true ->
  find (Rsvp.isActiveFor uid eid) (rsvps (fst (cancelRSVP eid uid s))) = None.
Proof.
  intros Hreach Hok.
  pose proof (reachable_atMostOneActive s Hreach uid eid) as Huniq.
  destruct (cancelRSVP_success_inv eid uid s Hok)
    as (r1 & r & r2 & Hr & Hr1 & Hact & ->).
  rewrite Hr, activeFor_app, activeFor_cons, Hact in Huniq.
  assert (Hr2 : find (Rsvp.isActiveFor uid eid) r2 = None).
  { apply activeFor_0. lia. }
  simpl. rewrite find_app_None by done. simpl.
  by rewrite isActiveFor_cancelled.
Qed.

(** X12. The list of an actor follows the calls. After a successful
    [createRSVP] the event, with its raised counter, is in the actor's
    [getUserRSVPs]; after a successful [cancelRSVP] in a reachable store
    the event is no longer in it and [checkRSVPStatus] finds nothing. *)
Theorem getUserRSVPs_follows_calls eid uid clk s :
  reachable s ->
  (success (snd (createRSVP eid uid clk s)) = true ->
   exists e,
     find (Event.hasId eid) (events s) = Some e /\
     format (Event.addAttendee uid e)
       ∈ getUserRSVPs uid (fst (createRSVP eid uid clk s)))
  /\
  (success (snd (cancelRSVP eid uid s)) = true ->
   checkRSVPStatus eid uid (fst (cancelRSVP eid uid s)) = None /\
   forall fe,
     fe ∈ getUserRSVPs uid (fst (cancelRSVP eid uid s)) ->
     Int (Formatted._id fe) <> eid).
Proof.
  intros Hreach. split.
  - intros Hok. create_cases eid uid clk s; try discriminate.
    exists e. split.
    + rewrite Hev. apply find_first; [done|]. by apply hasId_true.
    + apply elem_of_getUserRSVPs.
      exists (newRsvp eid uid clk), (Event.addAttendee uid e). simpl.
      repeat split; try done.
      * apply elem_of_app. right. by left.
      * apply find_first; [done|]. rewrite hasId_addAttendee.
        by apply hasId_true.
  - intros Hok.
    pose proof (cancelRSVP_clears_active eid uid s Hreach Hok) as Hnone.
    split; [done|]. intros fe Hfe Heq.
    apply elem_of_getUserRSVPs in Hfe as (r' & e' & Hin & Hu & Hst & Hf' & ->).
    simpl in Heq. destruct (find_Some_elem _ _ _ Hf') as [_ He'].
    apply hasId_true in He'.
    apply find_None_Forall in Hnone.
    pose proof (proj1 (Forall_forall _ _) Hnone r' Hin) as Hno.
    assert (Rsvp.isActiveFor uid eid r' = true); [|congruence].
    apply isActiveFor_true. split; [done|]. split; [|done].
    exists (Event.id e'). by rewrite He', Heq.
Qed.

Lemma getUserRSVPs_follows_calls_witness :
  let s := initialStore 1000 2000 "" "" in
  let s1 := fst (createRSVP (Int 1) "A" (mkClock 10 10 "") s) in
  reachable s /\ reachable s1 /\
  format (Event.addAttendee "A" (techConference 1000 "")) ∈ getUserRSVPs "A" s1 /\
  checkRSVPStatus (Int 1) "A" (fst (cancelRSVP (Int 1) "A" s1)) = None.
Proof.
  cbv zeta.
  assert (H0 : reachable (initialStore 1000 2000 "" "")) by apply reachable_start.
  assert (H1 : reachable (fst (createRSVP (Int 1) "A" (mkClock 10 10 "")
                                 (initialStore 1000 2000 "" "")))).
  { by apply (reachable_call (CreateRSVP (Int 1) "A" (mkClock 10 10 ""))). }
  split; [exact H0|]. split; [exact H1|]. split.
  - destruct (proj1 (getUserRSVPs_follows_calls (Int 1) "A" (mkClock 10 10 "")
                       _ H0) eq_refl) as (e & He & Hin).
    injection He as <-. exact Hin.
  - exact (proj1 (proj2 (getUserRSVPs_follows_calls (Int 1) "A"
                           (mkClock 10 10 "") _ H1) eq_refl)).
Defined.

(** ** Validators *)

Lemma includes_unit s c :
  includes s (String c "") = true <->
  exists a b, s = (a ++ String c b)%string.
Proof. rewrite includes_spec. by split; intros (a & b & ->); exists a, b. Qed.

Lemma removeAngles_cons_inv s a r :
  Validators.removeAngles s = String a r -> Validators.isAngle a = false.
Proof.
  induction s as [|b s IH]; simpl; [discriminate|].
  destruct (Validators.isAngle b) eqn:Hb; [done|]. by intros [= <- _].
Qed.

Lemma removeAngles_clean s c :
  Validators.isAngle c = true ->
  includes (Validators.removeAngles s) (String c "") = false.
Proof.
  intros Hc. destruct (includes _ _) eqn:Hinc; [exfalso|done].
  apply includes_unit in Hinc as (a & b & Heq).
  revert s Heq. induction a as [|x a IH]; intros s Heq; simpl in Heq.
  - apply removeAngles_cons_inv in Heq. congruence.
  - revert Heq. induction s as [|y s IHs]; simpl; [discriminate|].
    destruct (Validators.isAngle y); [done|].
    intros [= _ Heq]. by apply (IH s).
Qed.

Lemma removeAngles_length s :
  (String.length (Validators.removeAngles s) + countAngles s
   = String.length s)%nat.
Proof.
  induction s as [|a s IH]; simpl; [done|].
  destruct (Validators.isAngle a); simpl; lia.
Qed.

Lemma trimEnd_length s :
  (String.length (Validators.trimEnd s) <= String.length s)%nat.
Proof.
  induction s as [|a s IH]; simpl; [done|].
  destruct (Validators.trimEnd s); simpl in *;
    [destruct (Validators.isWhiteSpace a); simpl; lia|lia].
Qed.

Lemma trimStart_length s :
  (String.length (Validators.trimStart s) <= String.length s)%nat.
Proof.
  induction s as [|a s IH]; simpl; [done|].
  destruct (Validators.isWhiteSpace a); simpl; lia.
Qed.

Lemma trim_length s :
  (String.length (Validators.trim s) <= String.length s)%nat.
Proof.
  unfold Validators.trim.
  pose proof (trimEnd_length (Validators.trimStart s)).
  pose proof (trimStart_length s). lia.
Qed.

(** X13. [sanitizeString] never lets an angle bracket through: whatever
    the text, the result contains neither '<' nor '>'; its length is the
    length of the trimmed text minus the number of angle brackets in it,
    so it is never longer than the text. *)
Theorem sanitizeString_strips_angles s :
  includes (Validators.sanitizeString (Some s)) "<" = false /\
  includes (Validators.sanitizeString (Some s)) ">" = false /\
  (String.length (Validators.sanitizeString (Some s))
   + countAngles (Validators.trim s)
   = String.length (Validators.trim s))%nat /\
  (String.length (Validators.sanitizeString (Some s)) <= String.length s)%nat.
Proof.
  unfold Validators.sanitizeString.
  destruct (String.eqb_spec s "") as [->|Hne].
  - by repeat split.
  - pose proof (removeAngles_length (Validators.trim s)).
    pose proof (trim_length s).
    repeat split; [by apply removeAngles_clean..|done|lia].
Qed.

(** ** Records and ids that are yet to be given out *)

Lemma find_isActiveFor_fresh uid k l :
  Forall (fun r => exists z, Rsvp.eventId r = Int z /\ z < k) l ->
  find (Rsvp.isActiveFor uid (Int k)) l = None.
Proof.
  intros H. apply find_None_Forall. eapply Forall_impl; [exact H|].
  simpl. intros r (z & Hz & Hlt).
  destruct (Rsvp.isActiveFor uid (Int k) r) eqn:Hact; [exfalso|done].
  apply isActiveFor_true in Hact as (_ & (z' & Hz' & [= <-]) & _).
  rewrite Hz in Hz'. injection Hz' as ->. lia.
Qed.

(** ** EventService.updateEvent *)

Lemma sanitizeString_clean str c :
  Validators.isAngle c = true ->
  includes (Validators.sanitizeString str) (String c "") = false.
Proof.
  intros Hc. destruct str as [t|]; simpl; [|done].
  destruct (String.eqb t ""); [done|by apply removeAngles_clean].
Qed.

Lemma updateEvent_not_found eid updateData uid s :
  find (Event.hasId eid) (events s) = None ->
  updateEvent eid updateData uid s = (s, inl "Event not found").
Proof.
  intros H. apply findIndex_None_find in H. unfold updateEvent. by rewrite H.
Qed.

Lemma updateEvent_found eid updateData uid s e :
  find (Event.hasId eid) (events s) = Some e ->
  exists l1 l2,
    events s = l1 ++ e :: l2 /\
    find (Event.hasId eid) l1 = None /\
    Event.hasId eid e = true /\
    updateEvent eid updateData uid s
    = if negb (String.eqb (Event.creator e) uid) then
        (s, inl "Not authorized to update this event")
      else if reducesBelow updateData e then
        (s, inl ("Cannot reduce capacity below current attendees ("
                 ++ numberToString (Event.currentAttendees e) ++ ")")%string)
      else
        (mkStore (l1 ++ applyUpdates updateData e :: l2)
           (nextEventId s) (rsvps s),
         inr (applyUpdates updateData e)).
Proof.
  intros Hfind.
  destruct (find_Some_split _ _ _ Hfind) as (l1 & l2 & Hev & He & Hl1).
  exists l1, l2. repeat split; try done.
  unfold updateEvent. rewrite Hev, findIndex_first by done.
  rewrite list_lookup_middle by done. by rewrite alter_middle.
Qed.

(** X17. [updateEvent] changes an event exactly when the event that
    [find] returns for the id was created by the caller and the body does
    not ask for a capacity that is non-zero and below the event's counter.
    Then that one event is overwritten in its place by the body, every
    other event, the ledger and [nextEventId] stay, and a title that the
    body carries is stored without angle brackets. In every other case the
    store is handed back unchanged. *)
Theorem updateEvent_by_creator_only eid updateData uid s :
  match updateEvent eid updateData uid s with
  | (s', inr updated) =>
    exists l1 e l2,
      events s = l1 ++ e :: l2 /\
      find (Event.hasId eid) (events s) = Some e /\
      Event.creator e = uid /\
      reducesBelow updateData e = false /\
      updated = applyUpdates updateData e /\
      events s' = l1 ++ updated :: l2 /\
      rsvps s' = rsvps s /\ nextEventId s' = nextEventId s /\
      (is_Some (UpdateData.title updateData) ->
       includes (Event.title updated) "<" = false /\
       includes (Event.title updated) ">" = false)
  | (s', inl _) =>
    s' = s /\
    forall e, find (Event.hasId eid) (events s) = Some e ->
              Event.creator e <> uid \/ reducesBelow updateData e = true
  end.
Proof.
  destruct (find (Event.hasId eid) (events s)) as [e|] eqn:Hfind.
  - destruct (updateEvent_found eid updateData uid s e Hfind)
      as (l1 & l2 & Hev & Hl1 & He & ->).
    destruct (String.eqb_spec (Event.creator e) uid) as [Hc|Hc]; simpl.
    + destruct (reducesBelow updateData e) eqn:Hred.
      * split; [done|]. intros e' [= <-]. by right.
      * exists l1, e, l2. repeat split; try done.
        all: destruct H as [t Ht]; simpl; rewrite Ht; simpl;
          by apply (sanitizeString_clean (Some t)).
    + split; [done|]. intros e' [= <-]. by left.
  - rewrite updateEvent_not_found by done. split; [done|]. discriminate.
Qed.

(** X18. The capacity check of [updateEvent] and what it lets through.
    Let the creator send a body with a [capacity] and without
    [currentAttendees]. A non-zero capacity below the counter is refused
    with a message that quotes the counter, and nothing changes. A
    non-zero capacity at or above the counter is stored, and the event is
    within its capacity afterwards. A capacity of 0 is not checked at
    all: it is stored whatever the counter is, so an event with attendees
    ends up above its capacity. *)
Theorem updateEvent_capacity_check eid updateData uid s e c :
  find (Event.hasId eid) (events s) = Some e ->
  Event.creator e = uid ->
  UpdateData.capacity updateData = Some c ->
  UpdateData.currentAttendees updateData = None ->
  (c <> 0 -> c < Event.currentAttendees e ->
   updateEvent eid updateData uid s
   = (s, inl ("Cannot reduce capacity below current attendees ("
              ++ numberToString (Event.currentAttendees e) ++ ")")%string)) /\
  (c <> 0 -> Event.currentAttendees e <= c ->
   exists updated,
     snd (updateEvent eid updateData uid s) = inr updated /\
     updated ∈ events (fst (updateEvent eid updateData uid s)) /\
     Event.capacity updated = c /\
     withinCapacity updated) /\
  (c = 0 ->
   exists updated,
     snd (updateEvent eid updateData uid s) = inr updated /\
     updated ∈ events (fst (updateEvent eid updateData uid s)) /\
     Event.capacity updated = 0 /\
     Event.currentAttendees updated = Event.currentAttendees e /\
     (0 < Event.currentAttendees e -> ~ withinCapacity updated)).
Proof.
  intros Hfind Hc Hcap Hcount.
  destruct (updateEvent_found eid updateData uid s e Hfind)
    as (l1 & l2 & Hev & Hl1 & He & ->).
  rewrite (proj2 (String.eqb_eq _ _) Hc). simpl.
  unfold reducesBelow. rewrite Hcap.
  assert (Hin : forall x, x ∈ l1 ++ x :: l2).
  { intros x. apply elem_of_app. right. by left. }
  split; [|split].
  - intros Hne Hlt.
    rewrite (proj2 (Z.eqb_neq _ _) Hne), (proj2 (Z.ltb_lt _ _) Hlt). done.
  - intros Hne Hle.
    rewrite (proj2 (Z.eqb_neq _ _) Hne), (proj2 (Z.ltb_ge _ _) Hle). simpl.
    eexists. split; [done|]. split; [apply Hin|].
    unfold withinCapacity. simpl. rewrite Hcap, Hcount. simpl.
    split; [done|lia].
  - intros ->. simpl. eexists. split; [done|]. split; [apply Hin|].
    unfold withinCapacity. simpl. rewrite Hcap, Hcount. simpl.
    repeat split; lia.
Qed.

Lemma updateEvent_capacity_check_witness :
  let s := initialStore 1000 2000 "" "" in
  let out := updateEvent (Int 1) (UpdateData.onlyCapacity 0) "admin" s in
  find (Event.hasId (Int 1)) (events s) = Some (techConference 1000 "") /\
  updateEvent (Int 1) (UpdateData.onlyCapacity 20) "admin" s
  = (s, inl "Cannot reduce capacity below current attendees (23)") /\
  exists updated,
    snd out = inr updated /\
    updated ∈ events (fst out) /\
    Event.capacity updated = 0 /\
    Event.currentAttendees updated = 23.
Proof.
  intros s out.
  assert (Hfind : find (Event.hasId (Int 1)) (events s)
                  = Some (techConference 1000 "")) by reflexivity.
  split; [exact Hfind|]. split; [reflexivity|].
  destruct (updateEvent_capacity_check (Int 1) (UpdateData.onlyCapacity 0)
              "admin" s (techConference 1000 "") 0
              Hfind eq_refl eq_refl eq_refl)
    as (_ & _ & Hzero).
  destruct (Hzero eq_refl) as (updated & H1 & H2 & H3 & H4 & _).
  exists updated. repeat split; assumption.
Defined.

(** ** Texts *)

Lemma allUnits_app p a b :
  allUnits p (a ++ b)%string = allUnits p a && allUnits p b.
Proof.
  induction a as [|x a IH]; simpl; [done|]. by rewrite IH, andb_assoc.
Qed.

Lemma startsWith_past_separator a c b t :
  allUnits (fun x => negb (Ascii.eqb x c)) t = true ->
  startsWith (a ++ String c b) t = startsWith a t.
Proof.
  revert a. induction t as [|d t IH]; intros a Ht.
  - by destruct a.
  - simpl in Ht. apply andb_true_iff in Ht as [Hd Ht].
    destruct a as [|h a]; simpl.
    + rewrite Ascii.eqb_sym. apply negb_true_iff in Hd. by rewrite Hd.
    + by rewrite IH.
Qed.

(** A text cut at a code unit that [t] does not have includes [t] only
    if one of the two parts does. *)
Lemma includes_separated a c b t :
  allUnits (fun x => negb (Ascii.eqb x c)) t = true ->
  includes (a ++ String c b) t = includes a t || includes b t.
Proof.
  intros Ht. induction a as [|h a IH].
  - change ("" ++ String c b)%string with (String c b).
    rewrite includes_cons, includes_nil.
    pose proof (startsWith_past_separator "" c b t Ht) as H.
    change ("" ++ String c b)%string with (String c b) in H. by rewrite H.
  - change (String h a ++ String c b)%string with (String h (a ++ String c b)).
    rewrite !includes_cons, IH.
    change (String h (a ++ String c b)) with (String h a ++ String c b)%string.
    rewrite startsWith_past_separator by done. by rewrite orb_assoc.
Qed.

Lemma includes_needs_first s c t :
  allUnits (fun x => negb (Ascii.eqb x c)) s = true ->
  includes s (String c t) = false.
Proof.
  induction s as [|a s IH]; intros Hs.
  - by rewrite includes_nil.
  - simpl in Hs. apply andb_true_iff in Hs as [Ha Hs].
    rewrite includes_cons, IH by done. simpl.
    apply negb_true_iff in Ha. by rewrite Ha.
Qed.

Lemma allUnits_impl (p q : ascii -> bool) s :
  (forall a, p a = true -> q a = true) ->
  allUnits p s = true -> allUnits q s = true.
Proof.
  intros Hpq. induction s as [|a s IH]; simpl; [done|].
  rewrite !andb_true_iff. intros [Ha Hs]. split; [by apply Hpq|by apply IH].
Qed.

(** ** Numbers as text *)

Lemma string_of_uint_digits d :
  allUnits isNumberUnit (NilEmpty.string_of_uint d) = true.
Proof. induction d; simpl; done. Qed.

Lemma numberToString_units z : allUnits isNumberUnit (numberToString z) = true.
Proof.
  unfold numberToString.
  destruct (Z.to_int z) as [d|d]; simpl.
  - destruct d; try apply (string_of_uint_digits (_ _)); done.
  - destruct d; try apply (string_of_uint_digits (_ _)); done.
Qed.

Lemma to_int_not_nil z : Z.to_int z <> Decimal.Pos Decimal.Nil /\
                         Z.to_int z <> Decimal.Neg Decimal.Nil.
Proof.
  destruct z as [|p|p]; simpl; split; try discriminate.
  - intros [= H]. by apply (DecimalPos.Unsigned.to_uint_nonnil p).
  - intros [= H]. by apply (DecimalPos.Unsigned.to_uint_nonnil p).
Qed.

Lemma numberToString_inj a b : numberToString a = numberToString b -> a = b.
Proof.
  unfold numberToString. intros H.
  destruct (to_int_not_nil a) as [Ha1 Ha2].
  destruct (to_int_not_nil b) as [Hb1 Hb2].
  pose proof (NilZero.isi (Z.to_int a) Ha1 Ha2) as Hia.
  pose proof (NilZero.isi (Z.to_int b) Hb1 Hb2) as Hib.
  rewrite H, Hib in Hia. injection Hia as Hia.
  by apply DecimalZ.to_int_inj.
Qed.

Lemma userAt_inj a b : userAt a = userAt b -> a = b.
Proof. unfold userAt. intros [= H]. by apply numberToString_inj. Qed.

Lemma userAt_not_admin t : userAt t <> "admin".
Proof. unfold userAt. discriminate. Qed.

(** ** The auth middleware and the status codes *)

Lemma isNumberUnit_not a c :
  isNumberUnit c = false -> isNumberUnit a = true ->
  negb (Ascii.eqb a c) = true.
Proof.
  intros Hc Ha. apply negb_true_iff.
  destruct (Ascii.eqb_spec a c) as [->|]; [congruence|done].
Qed.

Lemma includes_number_text z tail c t :
  isNumberUnit c = false ->
  allUnits (fun x => negb (Ascii.eqb x c)) tail = true ->
  includes (numberToString z ++ tail) (String c t) = false.
Proof.
  intros Hc Htail. apply includes_needs_first.
  rewrite allUnits_app, Htail, andb_true_r.
  eapply allUnits_impl; [|apply numberToString_units].
  intros a. by apply isNumberUnit_not.
Qed.

Lemma capacity_message_status z :
  eventErrorStatus
    ("Cannot reduce capacity below current attendees ("
     ++ numberToString z ++ ")")
  = 400.
Proof.
  unfold eventErrorStatus.
  change ("Cannot reduce capacity below current attendees ("
          ++ numberToString z ++ ")")%string
    with ("Cannot reduce capacity below current attendees "
          ++ String "("%char (numberToString z ++ ")"))%string.
  rewrite !(includes_separated
              "Cannot reduce capacity below current attendees ")
    by reflexivity.
  rewrite !includes_number_text by reflexivity.
  reflexivity.
Qed.

Lemma dropUnits_app t b : dropUnits (String.length t) (t ++ b) = b.
Proof. induction t as [|c t IH]; simpl; [by destruct b|done]. Qed.

Lemma append_empty s : (s ++ "")%string = s.
Proof. induction s as [|c s IH]; simpl; [done|]. by rewrite IH. Qed.

Lemma startsWith_refl s : startsWith s s = true.
Proof. apply startsWith_spec. exists "". by rewrite append_empty. Qed.

Lemma removeFirst_unfold s pat :
  removeFirst s pat
  = if startsWith s pat then dropUnits (String.length pat) s
    else match s with
         | EmptyString => EmptyString
         | String a s' => String a (removeFirst s' pat)
         end.
Proof. by destruct s. Qed.

Lemma removeFirst_empty s pat :
  removeFirst s pat = "" <-> s = "" \/ s = pat.
Proof.
  rewrite removeFirst_unfold. split.
  - destruct (startsWith s pat) eqn:Hst.
    + apply startsWith_spec in Hst as (b & ->). rewrite dropUnits_app.
      intros ->. right. apply append_empty.
    + destruct s; [by left|discriminate].
  - intros [->| ->].
    + destruct (startsWith "" pat); [by destruct (String.length pat)|done].
    + rewrite startsWith_refl.
      rewrite <- (append_empty pat) at 2. apply dropUnits_app.
Qed.

Lemma auth_None authorization now :
  auth authorization now = None <->
  authorization = None \/ authorization = Some "" \/
  authorization = Some "Bearer ".
Proof.
  unfold auth. destruct authorization as [header|].
  - destruct (String.eqb_spec (removeFirst header "Bearer ") "") as [H|H].
    + apply removeFirst_empty in H as [->| ->]; split; auto.
    + split; [discriminate|].
      intros [?|[[= ->]|[= ->]]]; [discriminate|by destruct H..].
  - split; auto.
Qed.

Lemma auth_Some authorization now userId :
  auth authorization now = Some userId -> userId = userAt now.
Proof.
  unfold auth. destruct authorization as [header|]; [|discriminate].
  destruct (String.eqb _ ""); [discriminate|]. by intros [= <-].
Qed.

(** X20. The demo [auth] middleware. It turns a request down exactly
    when the Authorization header is missing, empty or just 'Bearer ';
    every other header passes, whatever the token. The user it attaches
    is named after the clock reading, so that two requests are the same
    user exactly when [auth] read the same clock value for both. *)
Theorem auth_accepts_any_token authorization now :
  match auth authorization now with
  | None =>
    authorization = None \/ authorization = Some "" \/
    authorization = Some "Bearer "
  | Some userId =>
    (exists header, authorization = Some header /\
                    header <> "" /\ header <> "Bearer ") /\
    userId = ("user-" ++ numberToString now)%string /\
    forall authorization' now',
      auth authorization' now' = Some userId <->
      is_Some (auth authorization' now') /\ now' = now
  end.
Proof.
  destruct (auth authorization now) as [userId|] eqn:Hauth.
  - pose proof (auth_Some _ _ _ Hauth) as ->. split; [|split; [done|]].
    + destruct authorization as [header|]; [|discriminate].
      exists header. split; [done|].
      split; intros ->; discriminate.
    + intros authorization' now'. split.
      * intros H. split; [done|].
        apply auth_Some in H. by apply userAt_inj in H.
      * intros [[u Hu] ->]. by rewrite Hu, (auth_Some _ _ _ Hu).
  - by apply auth_None in Hauth.
Qed.

(** ** Lists without a match *)

Lemma filter_none {A : Type} (p : A -> bool) (l : list A) :
  Forall (fun x => p x = false) l -> List.filter p l = [].
Proof.
  induction 1 as [|x l Hx _ IH]; simpl; [done|]. by rewrite Hx.
Qed.

Lemma find_isActiveFor_stranger uid eid l :
  Forall (fun r => Rsvp.userId r <> uid) l ->
  find (Rsvp.isActiveFor uid eid) l = None.
Proof.
  intros H. apply find_None_Forall. eapply Forall_impl; [exact H|].
  simpl. intros r Hr.
  destruct (Rsvp.isActiveFor uid eid r) eqn:Hact; [|done].
  by apply isActiveFor_true in Hact as (? & _).
Qed.

(** ** Validators.validateEmail *)

Lemma append_nil_inv s1 s2 : (s1 ++ s2)%string = "" -> s1 = "" /\ s2 = "".
Proof. destruct s1; simpl; [done|discriminate]. Qed.

Lemma append_cons_inv s1 s2 a s :
  (s1 ++ s2)%string = String a s ->
  (s1 = "" /\ s2 = String a s) \/
  (exists s1', s1 = String a s1' /\ s = (s1' ++ s2)%string).
Proof.
  destruct s1 as [|b s1]; simpl; [by left|].
  intros [= -> <-]. right. by exists s1.
Qed.

Lemma append_assoc s1 s2 s3 :
  ((s1 ++ s2) ++ s3)%string = (s1 ++ (s2 ++ s3))%string.
Proof. induction s1 as [|a s1 IH]; simpl; [done|]. by rewrite IH. Qed.

Lemma matches_class_inv p s :
  Matches (Class p) s <-> exists a, s = String a "" /\ p a = true.
Proof.
  split.
  - intros H. inversion H; subst. eauto.
  - intros (a & -> & Hp). by constructor.
Qed.

Lemma matches_then_inv r1 r2 s :
  Matches (Then r1 r2) s <->
  exists s1 s2, s = (s1 ++ s2)%string /\ Matches r1 s1 /\ Matches r2 s2.
Proof.
  split.
  - intros H. inversion H; subst. eauto.
  - intros (s1 & s2 & -> & H1 & H2). by constructor.
Qed.

Lemma nullable_spec r : nullable r = true <-> Matches r "".
Proof.
  induction r as [| |p|r1 IH1 r2 IH2|r1 IH1 r2 IH2|r IH]; simpl.
  - split; [discriminate|]. intros H. inversion H.
  - split; [constructor|done].
  - split; [discriminate|]. intros H. inversion H.
  - rewrite andb_true_iff, IH1, IH2. split.
    + intros [H1 H2]. exact (matches_then _ _ "" "" H1 H2).
    + intros (s1 & s2 & Heq & H1 & H2)%matches_then_inv.
      symmetry in Heq. apply append_nil_inv in Heq as [-> ->]. done.
  - rewrite orb_true_iff, IH1, IH2. split.
    + intros [H|H]; [by apply matches_or_l|by apply matches_or_r].
    + intros H. inversion H; subst; auto.
  - split; [constructor|done].
Qed.

Lemma matches_many_inv r x :
  Matches (Many r) x ->
  x = "" \/
  exists a s1 s2,
    x = String a (s1 ++ s2) /\ Matches r (String a s1) /\ Matches (Many r) s2.
Proof.
  intros H. remember (Many r) as m eqn:Hm.
  induction H as [| | | | |r'|r' s1 s2 H1 _ H2 IH2]; try discriminate.
  - by left.
  - injection Hm as ->. destruct s1 as [|a s1].
    + simpl. by apply IH2.
    + right. by exists a, s1, s2.
Qed.

Lemma derive_spec r : forall a s, Matches (derive a r) s <-> Matches r (String a s).
Proof.
  induction r as [| |p|r1 IH1 r2 IH2|r1 IH1 r2 IH2|r IH]; intros a s; simpl.
  - split; intros H; inversion H.
  - split; intros H; inversion H.
  - destruct (p a) eqn:Hp.
    + split; intros H; inversion H; subst; [by constructor|constructor].
    + split; intros H; inversion H; congruence.
  - assert (Hthen : Matches (Then (derive a r1) r2) s \/
                    (Matches r1 "" /\ Matches (derive a r2) s)
                    <-> Matches (Then r1 r2) (String a s)).
    { split.
      - intros [H|[H1 H2]].
        + apply matches_then_inv in H as (s1 & s2 & -> & H1 & H2).
          apply IH1 in H1.
          exact (matches_then _ _ (String a s1) s2 H1 H2).
        + apply IH2 in H2. exact (matches_then _ _ "" _ H1 H2).
      - intros (s1 & s2 & Heq & H1 & H2)%matches_then_inv.
        symmetry in Heq.
        apply append_cons_inv in Heq as [[-> ->]|(s1' & -> & ->)].
        + right. split; [done|]. by apply IH2.
        + left. apply matches_then; [by apply IH1|done]. }
    rewrite <- Hthen. destruct (nullable r1) eqn:Hn.
    + apply nullable_spec in Hn. split.
      * intros H. inversion H; subst; [by left|by right].
      * intros [H|[_ H]]; [by apply matches_or_l|by apply matches_or_r].
    + split; [by left|]. intros [H|[H _]]; [done|].
      apply nullable_spec in H. congruence.
  - split.
    + intros H. inversion H; subst;
        [apply matches_or_l; by apply IH1|apply matches_or_r; by apply IH2].
    + intros H. inversion H; subst;
        [apply matches_or_l; by apply IH1|apply matches_or_r; by apply IH2].
  - split.
    + intros (s1 & s2 & -> & H1 & H2)%matches_then_inv.
      apply IH in H1.
      exact (matches_many_cons _ (String a s1) s2 H1 H2).
    + intros H. apply matches_many_inv in H as [H|(b & s1 & s2 & Heq & H1 & H2)];
        [discriminate|].
      injection Heq as <- ->. apply matches_then; [by apply IH|done].
Qed.

Lemma test_spec s : forall r, test r s = true <-> Matches r s.
Proof.
  induction s as [|a s IH]; intros r; simpl.
  - apply nullable_spec.
  - by rewrite IH, derive_spec.
Qed.

Lemma matches_many_class p s :
  Matches (Many (Class p)) s <-> allUnits p s = true.
Proof.
  split.
  - intros H. remember (Many (Class p)) as m eqn:Hm.
    induction H as [| | | | |r'|r' s1 s2 H1 _ H2 IH2]; try discriminate.
    + done.
    + injection Hm as ->. inversion H1; subst. simpl.
      apply andb_true_iff. split; [done|by apply IH2].
  - induction s as [|a s IH]; simpl.
    + constructor.
    + intros [Ha Hs]%andb_true_iff.
      apply (matches_many_cons _ (String a "") s); [by constructor|by apply IH].
Qed.

Lemma matches_plus_class p s :
  Matches (Plus (Class p)) s <-> s <> "" /\ allUnits p s = true.
Proof.
  unfold Plus. rewrite matches_then_inv. split.
  - intros (s1 & s2 & -> & H1 & H2).
    apply matches_class_inv in H1 as (a & -> & Ha).
    apply matches_many_class in H2. simpl. by rewrite Ha, H2.
  - destruct s as [|a s]; intros [Hne Hs]; [done|].
    simpl in Hs. apply andb_true_iff in Hs as [Ha Hs].
    exists (String a ""), s. split; [done|].
    split; [by constructor|by apply matches_many_class].
Qed.

(** X23. What [validateEmail] accepts: exactly the texts of the shape
    a@b.c in which a, b and c are non-empty and hold neither white space
    nor '@'. So an accepted address has one '@' and a dot after it that
    is neither the first nor the last code unit of what follows; further
    dots are allowed anywhere. *)
Theorem validateEmail_shape email :
  validateEmail email = true <->
  exists a b c,
    email = (a ++ "@" ++ b ++ "." ++ c)%string /\
    a <> "" /\ b <> "" /\ c <> "" /\
    allUnits notSpaceOrAt a = true /\
    allUnits notSpaceOrAt b = true /\
    allUnits notSpaceOrAt c = true.
Proof.
  unfold validateEmail, emailRegex. rewrite test_spec. split.
  - intros H.
    apply matches_then_inv in H as (a & r1 & -> & Ha & H).
    apply matches_then_inv in H as (at1 & r2 & -> & Hat & H).
    apply matches_then_inv in H as (b & r3 & -> & Hb & H).
    apply matches_then_inv in H as (dot & c & -> & Hdot & Hc).
    apply matches_class_inv in Hat as (x & -> & Hx%Ascii.eqb_eq).
    apply matches_class_inv in Hdot as (y & -> & Hy%Ascii.eqb_eq).
    apply matches_plus_class in Ha as [? ?], Hb as [? ?], Hc as [? ?].
    subst x y. by exists a, b, c.
  - intros (a & b & c & -> & Ha & Hb & Hc & Ha' & Hb' & Hc').
    apply matches_then; [by apply matches_plus_class|].
    apply (matches_then _ _ "@"); [by constructor|].
    apply matches_then; [by apply matches_plus_class|].
    apply (matches_then _ _ "."); [by constructor|].
    by apply matches_plus_class.
Qed.

(** ** Texts of angle brackets *)

Lemma removeAngles_all x :
  allUnits Validators.isAngle x = true -> Validators.removeAngles x = "".
Proof.
  induction x as [|a x IH]; simpl; [done|].
  intros [Ha Hx]%andb_true_iff. rewrite Ha. by apply IH.
Qed.

Lemma isAngle_not_space a :
  Validators.isAngle a = true -> Validators.isWhiteSpace a = false.
Proof.
  unfold Validators.isAngle.
  by intros [->%Ascii.eqb_eq| ->%Ascii.eqb_eq]%orb_true_iff.
Qed.

Lemma trimStart_angles x :
  allUnits Validators.isAngle x = true -> Validators.trimStart x = x.
Proof.
  destruct x as [|a x]; simpl; [done|]. intros [Ha _]%andb_true_iff.
  by rewrite (isAngle_not_space a Ha).
Qed.

Lemma trimEnd_angles x :
  allUnits Validators.isAngle x = true ->
  allUnits Validators.isAngle (Validators.trimEnd x) = true.
Proof.
  induction x as [|a x IH]; simpl; [done|].
  intros [Ha Hx]%andb_true_iff. specialize (IH Hx).
  destruct (Validators.trimEnd x) eqn:Hte.
  - rewrite (isAngle_not_space a Ha). simpl. by rewrite Ha.
  - simpl. rewrite Ha. exact IH.
Qed.


(** * The services on the store as the server can hold it *)

(** ** Elementary facts *)

Lemma raw_hasId_true eid e :
  RawEvent.hasId eid e = true <-> eid = Int (RawEvent.id e).
Proof.
  unfold RawEvent.hasId. rewrite strict_eq_true. split.
  - by intros (z & [= ->] & ->).
  - intros ->. eauto.
Qed.

Lemma raw_hasId_Int k e : RawEvent.hasId (Int k) e = (RawEvent.id e =? k).
Proof. done. Qed.

Lemma raw_find_fresh k l :
  Forall (fun e => RawEvent.id e < k) l ->
  find (RawEvent.hasId (Int k)) l = None.
Proof.
  intros H. apply find_None_Forall. eapply Forall_impl; [exact H|].
  simpl. intros e He. rewrite raw_hasId_Int. apply Z.eqb_neq. lia.
Qed.

Lemma raw_find_NoDup l1 e l2 eid :
  NoDup (map RawEvent.id (l1 ++ e :: l2)) ->
  RawEvent.hasId eid e = true ->
  find (RawEvent.hasId eid) l1 = None /\
  Forall (fun x => RawEvent.id x <> RawEvent.id e) (l1 ++ l2).
Proof.
  intros Hnd He. apply raw_hasId_true in He.
  rewrite map_app in Hnd. simpl in Hnd.
  apply NoDup_app in Hnd as (_ & Hdis & Hnd2).
  apply NoDup_cons in Hnd2 as [Hnot2 _].
  assert (Hl1 : Forall (fun x => RawEvent.id x <> RawEvent.id e) l1).
  { apply Forall_forall. intros x Hx Heq. apply (Hdis (RawEvent.id x)).
    - apply list_elem_of_fmap. by exists x.
    - rewrite Heq. by left. }
  assert (Hl2 : Forall (fun x => RawEvent.id x <> RawEvent.id e) l2).
  { apply Forall_forall. intros x Hx Heq. apply Hnot2. rewrite <- Heq.
    apply list_elem_of_fmap. by exists x. }
  split; [|by apply Forall_app].
  apply find_None_Forall. eapply Forall_impl; [exact Hl1|]. simpl.
  intros x Hx. destruct (RawEvent.hasId eid x) eqn:Hid; [|done].
  apply raw_hasId_true in Hid. congruence.
Qed.

(** ** The outcomes of createRSVP and cancelRSVP *)

Lemma raw_getEventById_event eventId s :
  Raw.event (Raw.getEventById eventId s)
  = Raw.format <$> find (RawEvent.hasId eventId) (Raw.events s).
Proof.
  unfold Raw.getEventById.
  by destruct (find (RawEvent.hasId eventId) (Raw.events s)).
Qed.

Lemma raw_createRSVP_outcome eventId userId clk s :
  Raw.CreateOutcome eventId userId clk s
    (fst (Raw.createRSVP eventId userId clk s))
    (snd (Raw.createRSVP eventId userId clk s)).
Proof.
  unfold Raw.createRSVP, Raw.getEventById, Raw.attendeesThrow.
  destruct (find (RawEvent.hasId eventId) (Raw.events s)) as [e|] eqn:Hfind;
    simpl; [|by constructor].
  destruct (num_le (RawEvent.date e) (Int (checkedAt clk))) eqn:Hdate;
    [by econstructor|].
  destruct (find (Rsvp.isActiveFor userId eventId) (Raw.rsvps s))
    as [r|] eqn:Hdup; [by econstructor|].
  destruct (RawEvent.isFull e) eqn:Hfull; [by econstructor|].
  destruct (find_Some_split _ _ _ Hfind) as (l1 & l2 & Hev & He & Hl1).
  assert (Hstore : mutateFound (RawEvent.hasId eventId)
                     (RawEvent.addAttendee userId) (Raw.events s)
                   = l1 ++ RawEvent.addAttendee userId e :: l2).
  { rewrite Hev. by apply mutateFound_first. }
  rewrite Hstore.
  pose proof (Raw.create_written eventId userId clk s e l1 l2 Hev Hl1
                (proj1 (raw_hasId_true _ _) He) Hdate Hdup Hfull) as Hout.
  unfold RawEvent.hasArray in *.
  destruct (RawEvent.attendees e) eqn:Hatt; simpl; [|exact Hout].
  rewrite find_first by done. exact Hout.
Qed.

Lemma raw_cancelRSVP_outcome eventId userId s :
  Raw.CancelOutcome eventId userId s
    (fst (Raw.cancelRSVP eventId userId s))
    (snd (Raw.cancelRSVP eventId userId s)).
Proof.
  unfold Raw.cancelRSVP.
  destruct (findIndex (Rsvp.isActiveFor userId eventId) (Raw.rsvps s))
    as [i|] eqn:Hidx.
  - destruct (findIndex_Some_split _ _ _ Hidx)
      as (r1 & r & r2 & Hr & <- & Hp & Hr1).
    pose proof (Raw.cancel_written eventId userId s r1 r r2 _ Hr Hr1 Hp eq_refl)
      as Hout.
    rewrite Hr, alter_middle.
    destruct (Raw.attendeesThrow eventId s); simpl; [exact Hout|].
    rewrite raw_getEventById_event. exact Hout.
  - apply findIndex_None_find in Hidx. by constructor.
Qed.

Ltac raw_create_cases eid uid clk s :=
  let H := fresh "Hout" in
  pose proof (raw_createRSVP_outcome eid uid clk s) as H;
  destruct (Raw.createRSVP eid uid clk s) as [? ?];
  simpl fst in *; simpl snd in *;
  destruct H as [Hfind | e Hfind Hdate | e r Hfind Hdate Hdup
                 | e Hfind Hdate Hdup Hfull
                 | e l1 l2 Hev Hl1 Heid Hdate Hdup Hfull].

Ltac raw_cancel_cases eid uid s :=
  let H := fresh "Hout" in
  pose proof (raw_cancelRSVP_outcome eid uid s) as H;
  destruct (Raw.cancelRSVP eid uid s) as [? ?];
  simpl fst in *; simpl snd in *;
  destruct H as [Hnone | r1 r r2 evs' Hr Hr1 Hact Hevs].

(** ** createRSVP: the answer and the writes *)

(** C5. [createRSVP] writes before it is done: the record is pushed and
    the counter raised, and then the [push] onto [attendees] can still
    throw, which the [catch] block turns into the answer 'Failed to
    process RSVP'. After [updateEvent(1, { attendees: 'x' }, 'admin')]
    on the initial store, [createRSVP('1', 'user-1')] answers
    [success: false] while the counter of event 1 has gone from 23 to 24
    and the ledger holds the new 'attending' record. *)
Theorem createRSVP_failure_after_writes :
  let s0 := widen (initialStore 1000 2000 "" "") in
  let s1 := fst (Raw.updateEvent (Int 1) Raw.UpdateData.noArray "admin" s0) in
  let out := Raw.createRSVP (Int 1) "user-1" (mkClock 10 10 "") s1 in
  snd out = Raw.failure "Failed to process RSVP" /\
  Raw.attendeesOf (Int 1) s1 = Some 23 /\
  Raw.attendeesOf (Int 1) (fst out) = Some 24 /\
  Raw.rsvps s1 = [] /\
  Raw.rsvps (fst out) = [Rsvp.mk 10 "user-1" (Int 1) attending ""].
Proof. vm_compute. by repeat split. Qed.


(** ** The typed store inside the store as the server can hold it *)

Section MapFacts.
Context {A B : Type} (f : A -> B) (p : A -> bool) (q : B -> bool).
Hypothesis Hpq : forall x, q (f x) = p x.

Lemma find_map l : find q (map f l) = f <$> find p l.
Proof.
  induction l as [|x l IH]; simpl; [done|].
  rewrite Hpq. by destruct (p x).
Qed.

Lemma findIndex_map l : findIndex q (map f l) = findIndex p l.
Proof.
  induction l as [|x l IH]; simpl; [done|].
  rewrite Hpq, IH. done.
Qed.

Lemma alter_map (g : A -> A) (h : B -> B) i l :
  (forall x, h (f x) = f (g x)) ->
  alter h i (map f l) = map f (alter g i l).
Proof.
  intros Hgh. revert i. induction l as [|x l IH]; intros [|i]; simpl; try done.
  - by rewrite Hgh.
  - f_equal. apply IH.
Qed.

Lemma mutateFound_map (g : A -> A) (h : B -> B) l :
  (forall x, h (f x) = f (g x)) ->
  mutateFound q h (map f l) = map f (mutateFound p g l).
Proof.
  intros Hgh. unfold mutateFound. rewrite findIndex_map.
  destruct (findIndex p l); [by apply alter_map|done].
Qed.
End MapFacts.

Lemma delete_map {A B : Type} (f : A -> B) i (l : list A) :
  delete i (map f l) = map f (delete i l).
Proof.
  revert i. induction l as [|x l IH]; intros [|i]; simpl; try done.
  f_equal. apply IH.
Qed.

Lemma lookup_map {A B : Type} (f : A -> B) i (l : list A) :
  map f l !! i = f <$> l !! i.
Proof.
  revert i. induction l as [|x l IH]; intros [|i]; simpl; by try apply IH.
Qed.

Lemma ofTyped_hasId eid e :
  RawEvent.hasId eid (RawEvent.ofTyped e) = Event.hasId eid e.
Proof. done. Qed.

Lemma ofTyped_format e :
  Raw.format (RawEvent.ofTyped e) = widenFormatted (format e).
Proof. done. Qed.

Lemma widen_getEventById eid s :
  Raw.getEventById eid (widen s) = widenResult (getEventById eid s).
Proof.
  unfold Raw.getEventById, getEventById, widen. simpl.
  rewrite (find_map RawEvent.ofTyped (Event.hasId eid)) by done.
  by destruct (find (Event.hasId eid) (events s)).
Qed.

Lemma widen_attendeesThrow eid s : Raw.attendeesThrow eid (widen s) = false.
Proof.
  unfold Raw.attendeesThrow, widen. simpl.
  rewrite (find_map RawEvent.ofTyped (Event.hasId eid)) by done.
  by destruct (find (Event.hasId eid) (events s)).
Qed.

Lemma widen_createRSVP eid uid clk s :
  Raw.createRSVP eid uid clk (widen s)
  = (widen (fst (createRSVP eid uid clk s)),
     widenResult (snd (createRSVP eid uid clk s))).
Proof.
  unfold Raw.createRSVP, createRSVP.
  rewrite widen_attendeesThrow, widen_getEventById.
  unfold getEventById.
  destruct (find (Event.hasId eid) (events s)) as [e|] eqn:Hfind; simpl;
    [|done].
  destruct (num_le (Event.date e) (Int (checkedAt clk))); [done|].
  destruct (find (Rsvp.isActiveFor uid eid) (rsvps s)); [done|].
  unfold RawEvent.isFull. simpl.
  rewrite Z.geb_leb.
  destruct (Event.capacity e <=? Event.currentAttendees e); [done|].
  unfold widen. simpl.
  rewrite (mutateFound_map RawEvent.ofTyped (Event.hasId eid)
             (RawEvent.hasId eid) (fun _ => eq_refl)
             (Event.addAttendee uid) (RawEvent.addAttendee uid))
    by done.
  f_equal. unfold Raw.getEventById, widenResult. simpl.
  rewrite (find_map RawEvent.ofTyped (Event.hasId eid)) by done.
  destruct (find (Event.hasId eid)
              (mutateFound (Event.hasId eid) (Event.addAttendee uid)
                 (events s))); reflexivity.
Qed.

Lemma widen_cancelRSVP eid uid s :
  Raw.cancelRSVP eid uid (widen s)
  = (widen (fst (cancelRSVP eid uid s)),
     widenResult (snd (cancelRSVP eid uid s))).
Proof.
  unfold Raw.cancelRSVP, cancelRSVP.
  rewrite widen_attendeesThrow. simpl.
  destruct (findIndex (Rsvp.isActiveFor uid eid) (rsvps s)) as [i|]; [|done].
  unfold widen. simpl.
  rewrite (mutateFound_map RawEvent.ofTyped (Event.hasId eid)
             (RawEvent.hasId eid) (fun _ => eq_refl)
             (Event.removeAttendee uid) (RawEvent.removeAttendee uid))
    by done.
  f_equal. unfold Raw.getEventById, getEventById, widenResult. simpl.
  rewrite (find_map RawEvent.ofTyped (Event.hasId eid)) by done.
  destruct (find (Event.hasId eid)
              (mutateFound (Event.hasId eid) (Event.removeAttendee uid)
                 (events s))); reflexivity.
Qed.

Lemma widen_deleteEvent eid uid s :
  Raw.deleteEvent eid uid (widen s)
  = (widen (fst (deleteEvent eid uid s)),
     widenResult (snd (deleteEvent eid uid s))).
Proof.
  unfold Raw.deleteEvent, deleteEvent, widen. simpl.
  rewrite (findIndex_map RawEvent.ofTyped (Event.hasId eid)) by done.
  destruct (findIndex (Event.hasId eid) (events s)) as [i|]; [|done].
  rewrite lookup_map. destruct (events s !! i) as [e|]; simpl; [|done].
  destruct (String.eqb (Event.creator e) uid); simpl; [|done].
  by rewrite delete_map.
Qed.

Lemma widen_applyUpdates u e :
  Raw.applyUpdates (widenUpdate u) (RawEvent.ofTyped e)
  = RawEvent.ofTyped (applyUpdates u e).
Proof.
  unfold Raw.applyUpdates, applyUpdates, RawEvent.ofTyped. simpl.
  f_equal.
  - by destruct (UpdateData.capacity u).
  - by destruct (UpdateData.attendees u).
Qed.

Lemma widen_updateEvent eid u uid s :
  Raw.updateEvent eid (widenUpdate u) uid (widen s)
  = (widen (fst (updateEvent eid u uid s)),
     sum_map id RawEvent.ofTyped (snd (updateEvent eid u uid s))).
Proof.
  unfold Raw.updateEvent, updateEvent, widen. simpl.
  rewrite (findIndex_map RawEvent.ofTyped (Event.hasId eid)) by done.
  destruct (findIndex (Event.hasId eid) (events s)) as [i|]; [|done].
  rewrite lookup_map. destruct (events s !! i) as [e|]; simpl; [|done].
  destruct (String.eqb (Event.creator e) uid); simpl; [|done].
  unfold Raw.reducesBelow, reducesBelow. simpl.
  destruct (match UpdateData.capacity u with
            | Some c => negb (c =? 0) && (c <? Event.currentAttendees e)
            | None => false
            end); simpl; [done|].
  rewrite (alter_map RawEvent.ofTyped (applyUpdates u)
             (Raw.applyUpdates (widenUpdate u)))
    by apply widen_applyUpdates.
  by rewrite widen_applyUpdates.
Qed.

(** X26. The typed store is the store as the server can hold it, as
    long as every capacity is a number and every [attendees] an array:
    there [getEventById], [createRSVP], [cancelRSVP], [deleteEvent] and
    [updateEvent] give the same answers and the same stores in both
    embeddings, and neither [catch] block of [RSVPService] is entered. *)
Theorem typed_store_agrees eid uid clk u s :
  Raw.getEventById eid (widen s) = widenResult (getEventById eid s) /\
  Raw.createRSVP eid uid clk (widen s)
  = (widen (fst (createRSVP eid uid clk s)),
     widenResult (snd (createRSVP eid uid clk s))) /\
  Raw.cancelRSVP eid uid (widen s)
  = (widen (fst (cancelRSVP eid uid s)),
     widenResult (snd (cancelRSVP eid uid s))) /\
  Raw.deleteEvent eid uid (widen s)
  = (widen (fst (deleteEvent eid uid s)),
     widenResult (snd (deleteEvent eid uid s))) /\
  Raw.updateEvent eid (widenUpdate u) uid (widen s)
  = (widen (fst (updateEvent eid u uid s)),
     sum_map id RawEvent.ofTyped (snd (updateEvent eid u uid s))) /\
  snd (Raw.createRSVP eid uid clk (widen s))
  <> Raw.failure "Failed to process RSVP" /\
  snd (Raw.cancelRSVP eid uid (widen s))
  <> Raw.failure "Failed to cancel RSVP".
Proof.
  split; [apply widen_getEventById|].
  split; [apply widen_createRSVP|].
  split; [apply widen_cancelRSVP|].
  split; [apply widen_deleteEvent|].
  split; [apply widen_updateEvent|].
  split.
  - rewrite widen_createRSVP. simpl. create_cases eid uid clk s; discriminate.
  - rewrite widen_cancelRSVP. simpl. cancel_cases eid uid s; discriminate.
Qed.

(** ** validateEventData and createEvent *)

Lemma tooShort_false text n :
  Validators.tooShort text n = Some false <->
  exists t, text = Str t /\ (n <= String.length (Validators.trim t))%nat
            /\ t <> "".
Proof.
  unfold Validators.tooShort. destruct text as [|t|].
  - split; [discriminate|]. by intros (t & ? & _).
  - split.
    + intros [= H]. apply orb_false_iff in H as [Hne Hlen].
      apply Nat.ltb_ge in Hlen. exists t. repeat split; [done|].
      intros ->. discriminate.
    + intros (t' & [= <-] & Hlen & Hne). f_equal. apply orb_false_iff.
      split; [by apply String.eqb_neq|by apply Nat.ltb_ge].
  - split; [discriminate|]. by intros (t & ? & _).
Qed.



Lemma validation_passed eventData now :
  Validators.validationErrors eventData now = Some [] <->
  Validators.tooShort (EventData.title eventData) 3 = Some false /\
  Validators.tooShort (EventData.description eventData) 10 = Some false /\
  Validators.notInFuture (EventData.date eventData) now = false /\
  Validators.tooShort (EventData.location eventData) 3 = Some false /\
  Validators.outOfRange (EventData.capacity eventData) = false.
Proof.
  unfold Validators.validationErrors, push.
  destruct (Validators.tooShort (EventData.title eventData) 3) as [[]|];
    (destruct (Validators.tooShort (EventData.description eventData) 10)
       as [[]|]);
    (destruct (Validators.tooShort (EventData.location eventData) 3)
       as [[]|]);
    destruct (Validators.notInFuture (EventData.date eventData) now);
    destruct (Validators.outOfRange (EventData.capacity eventData));
    simpl; split; try discriminate; try done;
    intros (? & ? & ? & ? & ?); discriminate.
Qed.

(** The event that [createEvent] builds from texts that passed the
    checks. *)
Lemma createEvent_stored_inv eventData userId now createdIso s s1 ev :
  Raw.createEvent eventData userId now createdIso s = (s1, Raw.Stored ev) ->
  Validators.validationErrors eventData now = Some [] /\
  exists title description location date,
    EventData.title eventData = Str title /\
    EventData.description eventData = Str description /\
    EventData.location eventData = Str location /\
    EventData.date eventData = Some date /\
    ev = RawEvent.mk (Raw.nextEventId s)
           (Validators.sanitizeString (Some title))
           (Validators.sanitizeString (Some description)) date
           (Validators.sanitizeString (Some location))
           (EventData.parsed (EventData.capacity eventData))
           0 userId "User" (Array []) createdIso /\
    s1 = Raw.mkStore (Raw.events s ++ [ev]) (Raw.nextEventId s + 1)
           (Raw.rsvps s).
Proof.
  unfold Raw.createEvent, Validators.validateEventData.
  destruct (Validators.validationErrors eventData now) as [[|m errors]|]
    eqn:Hval; [|discriminate..].
  pose proof (proj1 (validation_passed _ _) Hval)
    as (Ht & Hd & Hdate & Hl & _).
  apply tooShort_false in Ht as (t & Ht & _).
  apply tooShort_false in Hd as (d & Hd & _).
  apply tooShort_false in Hl as (l & Hl & _).
  rewrite Ht, Hd, Hl. simpl.
  unfold Validators.notInFuture in Hdate.
  destruct (EventData.date eventData) as [date|] eqn:Hdt; [|discriminate].
  intros [= <- <-]. split; [done|]. by exists t, d, l, date.
Qed.

Lemma createEvent_cases eventData userId now createdIso s :
  (exists ev,
     Raw.createEvent eventData userId now createdIso s
     = (Raw.mkStore (Raw.events s ++ [ev]) (Raw.nextEventId s + 1)
          (Raw.rsvps s), Raw.Stored ev)) \/
  (exists errors,
     Validators.validationErrors eventData now = Some errors /\
     errors <> [] /\
     Raw.createEvent eventData userId now createdIso s
     = (s, Raw.Invalid errors)) \/
  (Validators.validationErrors eventData now = None /\
   Raw.createEvent eventData userId now createdIso s = (s, Raw.Failed)).
Proof.
  destruct (Raw.createEvent eventData userId now createdIso s)
    as [s1 [ev|errors|]] eqn:Hmade.
  - left. exists ev.
    by apply createEvent_stored_inv in Hmade as (_ & ? & ? & ? & ? & _ & _ & _ & _ & _ & ->).
  - right. left. exists errors. revert Hmade.
    unfold Raw.createEvent, Validators.validateEventData.
    destruct (Validators.validationErrors eventData now) as [[|m l]|];
      [|by intros [= <- <-]|discriminate].
    destruct (Validators.sanitizeValue (EventData.title eventData)),
             (Validators.sanitizeValue (EventData.description eventData)),
             (Validators.sanitizeValue (EventData.location eventData));
      discriminate.
  - right. right. revert Hmade.
    unfold Raw.createEvent, Validators.validateEventData.
    destruct (Validators.validationErrors eventData now) as [[|m l]|] eqn:Hval;
      [|discriminate|by intros [= <-]].
    pose proof (proj1 (validation_passed _ _) Hval)
      as (Ht & Hd & _ & Hl & _).
    apply tooShort_false in Ht as (t & -> & _).
    apply tooShort_false in Hd as (d & -> & _).
    apply tooShort_false in Hl as (l & -> & _).
    discriminate.
Qed.


(** X24. [createEvent] validates before it sanitises. The title that
    passed validation has at least 3 code units after trimming; the
    title that is stored is that text without its angle brackets, so its
    length is the trimmed length minus the number of angle brackets. A
    stored title can therefore be shorter than 3 code units, and is empty
    when the title is made of angle brackets only. *)
Theorem createEvent_title_after_sanitizing
    eventData userId now createdIso s s1 ev title :
  Raw.createEvent eventData userId now createdIso s = (s1, Raw.Stored ev) ->
  EventData.title eventData = Str title ->
  (3 <= String.length (Validators.trim title))%nat /\
  (String.length (RawEvent.title ev) + countAngles (Validators.trim title)
   = String.length (Validators.trim title))%nat /\
  (allUnits Validators.isAngle title = true -> RawEvent.title ev = "").
Proof.
  intros Hmade Htitle.
  apply createEvent_stored_inv in Hmade
    as (Hok & t & d & l & dt & Ht & _ & _ & _ & -> & _).
  apply validation_passed in Hok as (Hlen & _).
  apply tooShort_false in Hlen as (t' & Ht' & Hlen & Hne).
  rewrite Htitle in Ht, Ht'. injection Ht as <-. injection Ht' as <-.
  simpl. rewrite (proj2 (String.eqb_neq _ _) Hne).
  split; [done|]. split; [apply removeAngles_length|].
  intros Hall. apply removeAngles_all. unfold Validators.trim.
  rewrite trimStart_angles by done. by apply trimEnd_angles.
Qed.

Lemma createEvent_title_after_sanitizing_witness :
  let s := widen (initialStore 1000 2000 "" "") in
  let eventData :=
    EventData.mk (Str "<<<>>>") (Str "Bring your own food")
      (Some (Int 5000)) (Str "Park") (EventData.ofInteger 5) in
  exists s1 ev,
    Raw.createEvent eventData "user-7" 500 "" s = (s1, Raw.Stored ev) /\
    RawEvent.title ev = "" /\
    (3 <= String.length (Validators.trim "<<<>>>"))%nat.
Proof.
  intros s eventData.
  destruct (Raw.createEvent eventData "user-7" 500 "" s) as [s1 res] eqn:Hmade.
  assert (Hres : exists ev, res = Raw.Stored ev).
  { revert Hmade. vm_compute. intros [= _ <-]. eauto. }
  destruct Hres as [ev ->]. exists s1, ev. split; [done|].
  destruct (createEvent_title_after_sanitizing eventData "user-7" 500 "" s
              s1 ev "<<<>>>" Hmade eq_refl) as (H3 & _ & Hempty).
  split; [by apply Hempty|exact H3].
Defined.

(** X15. A date that is no date. A request whose [date] is a truthy
    value that does not parse passes [validateEventData], since NaN is
    not at or before the clock reading. The event that [createEvent]
    then stores is never listed by [getAllEvents], whatever the search
    and the clock, since NaN is not later than the clock reading either;
    yet [createRSVP] never takes it for a past event: the first
    reservation by any actor at any time is decided by the capacity
    alone, and is admitted whenever the stored capacity is NaN or above
    0, as it is for a request that carries an integer Number. *)
Theorem undated_event_hidden_but_open
    eventData userId now createdIso s s1 ev :
  rawIdsBelowNext s ->
  EventData.date eventData = Some NaN ->
  Raw.createEvent eventData userId now createdIso s = (s1, Raw.Stored ev) ->
  ev ∈ Raw.events s1 /\
  (forall search clock listed,
     Raw.getAllEvents search clock s1 = Some listed -> ev ∉ listed) /\
  (forall actor clk,
     snd (Raw.createRSVP (Int (RawEvent.id ev)) actor clk s1)
     = (if RawEvent.isFull ev
        then Raw.failure "Event is at full capacity"
        else Raw.mkResult true (Some "RSVP successful") None
               (Some (Raw.format (RawEvent.addAttendee actor ev))))) /\
  (forall c, EventData.capacity eventData = EventData.ofInteger c ->
             RawEvent.isFull ev = false).
Proof.
  intros [Hbelow Hrs] Hdate Hmade.
  pose proof Hmade as Hinv.
  apply createEvent_stored_inv in Hinv
    as (Hok & t & d & l & dt & _ & _ & _ & Hdt & Hev & ->).
  rewrite Hdate in Hdt. injection Hdt as <-.
  assert (Hnan : RawEvent.date ev = NaN) by by rewrite Hev.
  assert (Hid : RawEvent.id ev = Raw.nextEventId s) by by rewrite Hev.
  assert (Hcount : RawEvent.currentAttendees ev = 0) by by rewrite Hev.
  assert (Harr : RawEvent.hasArray ev = true) by by rewrite Hev.
  split; [|split; [|split]].
  - simpl. apply elem_of_app. right. by left.
  - intros search clock listed Hlist Hin. unfold Raw.getAllEvents in Hlist.
    destruct (match search with
              | Falsy => Some (Raw.events _)
              | Str term => _
              | NotAString => None
              end) as [filtered|]; [|discriminate].
    injection Hlist as <-.
    apply elem_of_filterFrom in Hin as (j & _ & Hgt).
    by rewrite Hnan in Hgt.
  - intros actor clk.
    assert (Hfind : find (RawEvent.hasId (Int (RawEvent.id ev)))
                      (Raw.events s ++ [ev]) = Some ev).
    { rewrite Hid. apply find_first; [by apply raw_find_fresh|].
      rewrite raw_hasId_Int. apply Z.eqb_eq. done. }
    assert (Hdup : find (Rsvp.isActiveFor actor (Int (RawEvent.id ev)))
                     (Raw.rsvps s) = None).
    { rewrite Hid. by apply find_isActiveFor_fresh. }
    unfold Raw.createRSVP, Raw.getEventById, Raw.attendeesThrow. simpl.
    rewrite Hfind. simpl. rewrite Hnan, Hdup. simpl.
    destruct (RawEvent.isFull ev); [done|]. simpl.
    rewrite Harr. simpl. rewrite Hid.
    rewrite mutateFound_first;
      [|by apply raw_find_fresh
       |rewrite raw_hasId_Int; apply Z.eqb_eq; done].
    rewrite find_first;
      [|by apply raw_find_fresh
       |rewrite raw_hasId_Int; apply Z.eqb_eq; done].
    done.
  - intros c Hc.
    apply validation_passed in Hok as (_ & _ & _ & _ & Hcap).
    rewrite Hc in Hcap. unfold Validators.outOfRange in Hcap. simpl in Hcap.
    rewrite Hev. unfold RawEvent.isFull. simpl. rewrite Hc. simpl. lia.
Qed.

Lemma undated_event_hidden_but_open_witness :
  let s := widen (initialStore 1000 2000 "" "") in
  let eventData :=
    EventData.mk (Str "Picnic") (Str "Bring your own food")
      (Some NaN) (Str "Park") (EventData.ofInteger 5) in
  exists s1 ev,
    Raw.createEvent eventData "user-7" 500 "" s = (s1, Raw.Stored ev) /\
    ev ∈ Raw.events s1 /\
    (forall search clock listed,
       Raw.getAllEvents search clock s1 = Some listed -> ev ∉ listed) /\
    (forall actor clk,
       Raw.success (snd (Raw.createRSVP (Int (RawEvent.id ev)) actor clk s1))
       = true).
Proof.
  intros s eventData.
  destruct (Raw.createEvent eventData "user-7" 500 "" s) as [s1 res] eqn:Hmade.
  assert (Hres : exists ev, res = Raw.Stored ev).
  { revert Hmade. vm_compute. intros [= _ <-]. eauto. }
  destruct Hres as [ev ->]. exists s1, ev. split; [done|].
  assert (Hbelow : rawIdsBelowNext s).
  { split; simpl; repeat constructor; simpl; lia. }
  destruct (undated_event_hidden_but_open eventData "user-7" 500 "" s s1 ev
              Hbelow eq_refl Hmade) as (H1 & H2 & H3 & H4).
  split; [exact H1|]. split; [exact H2|].
  intros actor clk. rewrite H3, (H4 5 eq_refl). done.
Defined.

(** ** What the two services keep *)

Lemma startingAttendees_nonneg k : 0 <= startingAttendees k.
Proof.
  unfold startingAttendees.
  destruct (k =? 1); [lia|]. destruct (k =? 2); lia.
Qed.

Lemma eventInvariant_ledger ledger ledger' e :
  activeCount (RawEvent.id e) ledger' = activeCount (RawEvent.id e) ledger ->
  eventInvariant ledger e -> eventInvariant ledger' e.
Proof. intros Heq (? & ? & ? & ?). repeat split; try done. by rewrite Heq. Qed.

Lemma initial_storeInvariant tomorrow nextWeek created1 created2 :
  storeInvariant (widen (initialStore tomorrow nextWeek created1 created2)).
Proof.
  split; [|split; [|split; [split|]]]; simpl.
  - repeat constructor; rewrite ?elem_of_cons, ?elem_of_nil;
      intuition discriminate.
  - lia.
  - repeat constructor; simpl; lia.
  - constructor.
  - repeat constructor; simpl; try lia; try (vm_compute; congruence).
    all: intros c [= <-]; lia.
Qed.

Lemma createEvent_storeInvariant eventData userId now createdIso s :
  storeInvariant s ->
  storeInvariant (fst (Raw.createEvent eventData userId now createdIso s)).
Proof.
  intros Hinv.
  destruct (Raw.createEvent eventData userId now createdIso s)
    as [s1 [ev|errors|]] eqn:Hmade.
  - apply createEvent_stored_inv in Hmade
      as (_ & t & d & l & dt & _ & _ & _ & _ & Hev & ->).
    destruct Hinv as (Hnd & Hnext & [Hbelow Hrs] & Hall).
    assert (Hid : RawEvent.id ev = Raw.nextEventId s) by by rewrite Hev.
    split; [|split; [|split; [split|]]]; simpl.
    + rewrite map_app. simpl. apply NoDup_app. repeat split; [done| |].
      * intros x Hx ->%list_elem_of_singleton.
        apply list_elem_of_fmap in Hx as (e & He & Hin).
        pose proof (proj1 (Forall_forall _ _) Hbelow e Hin). simpl in *. lia.
      * apply NoDup_singleton.
    + lia.
    + apply Forall_app. split.
      * eapply Forall_impl; [exact Hbelow|]. simpl. intros e He. lia.
      * apply Forall_singleton. lia.
    + eapply Forall_impl; [exact Hrs|]. simpl.
      intros r (z & Hz & Hlt). exists z. split; [done|]. lia.
    + apply Forall_app. split; [done|]. apply Forall_singleton.
      rewrite Hev. repeat split; simpl; [|done|intros c _; lia].
      rewrite activeCount_unused by done. unfold startingAttendees.
      destruct (Z.eqb_spec (Raw.nextEventId s) 1); [lia|].
      destruct (Z.eqb_spec (Raw.nextEventId s) 2); [lia|]. lia.
  - destruct (createEvent_cases eventData userId now createdIso s)
      as [(ev & H)|[(errs & _ & _ & H)|(_ & H)]];
      rewrite H in Hmade; [discriminate| |discriminate].
    by injection Hmade as <- _.
  - destruct (createEvent_cases eventData userId now createdIso s)
      as [(ev & H)|[(errs & _ & _ & H)|(_ & H)]];
      rewrite H in Hmade; [discriminate..|].
    by injection Hmade as <-.
Qed.

Lemma raw_deleteEvent_not_found eid uid s :
  find (RawEvent.hasId eid) (Raw.events s) = None ->
  Raw.deleteEvent eid uid s = (s, Raw.failure "Event not found").
Proof.
  intros H. apply findIndex_None_find in H. unfold Raw.deleteEvent.
  by rewrite H.
Qed.

Lemma raw_deleteEvent_found eid uid s e :
  find (RawEvent.hasId eid) (Raw.events s) = Some e ->
  exists l1 l2,
    Raw.events s = l1 ++ e :: l2 /\
    find (RawEvent.hasId eid) l1 = None /\
    RawEvent.hasId eid e = true /\
    Raw.deleteEvent eid uid s
    = if String.eqb (RawEvent.creator e) uid
      then (Raw.mkStore (l1 ++ l2) (Raw.nextEventId s) (Raw.rsvps s),
            Raw.mkResult true (Some "Event deleted successfully") None None)
      else (s, Raw.failure "Not authorized to delete this event").
Proof.
  intros Hfind.
  destruct (find_Some_split _ _ _ Hfind) as (l1 & l2 & Hev & He & Hl1).
  exists l1, l2. repeat split; try done.
  unfold Raw.deleteEvent. rewrite Hev, findIndex_first by done.
  rewrite list_lookup_middle by done. rewrite delete_middle.
  by destruct (String.eqb (RawEvent.creator e) uid).
Qed.

Lemma deleteEvent_storeInvariant eid uid s :
  storeInvariant s -> storeInvariant (fst (Raw.deleteEvent eid uid s)).
Proof.
  intros Hinv.
  destruct (find (RawEvent.hasId eid) (Raw.events s)) as [e|] eqn:Hfind.
  - destruct (raw_deleteEvent_found eid uid s e Hfind)
      as (l1 & l2 & Hev & _ & _ & ->).
    destruct (String.eqb (RawEvent.creator e) uid); [|done].
    destruct Hinv as (Hnd & Hnext & [Hbelow Hrs] & Hall). simpl.
    rewrite Hev in *.
    split; [|split; [done|split; [split|]]]; simpl.
    + rewrite map_app in *. simpl in Hnd.
      apply NoDup_app in Hnd as (Hnd1 & Hdis & Hnd2).
      apply NoDup_cons in Hnd2 as [_ Hnd2].
      apply NoDup_app. repeat split; [done| |done].
      intros x Hx1 Hx2. apply (Hdis x Hx1). by right.
    + apply Forall_app in Hbelow as [H1 H2]. apply Forall_cons in H2 as [_ H2].
      by apply Forall_app.
    + done.
    + apply Forall_app in Hall as [H1 H2]. apply Forall_cons in H2 as [_ H2].
      by apply Forall_app.
  - by rewrite raw_deleteEvent_not_found.
Qed.

Lemma createRSVP_storeInvariant eid uid clk s :
  storeInvariant s -> storeInvariant (fst (Raw.createRSVP eid uid clk s)).
Proof.
  intros Hinv. raw_create_cases eid uid clk s; try done.
  destruct Hinv as (Hnd & Hnext & [Hbelow Hrs] & Hall).
  rewrite Hev in *.
  assert (He : RawEvent.hasId eid e = true) by by apply raw_hasId_true.
  destruct (raw_find_NoDup l1 e l2 eid Hnd He) as [_ Hothers].
  apply Forall_app in Hall as [Hall1 Hall2].
  apply Forall_cons in Hall2 as [(Harr & Hcount & Hnn & Hcap) Hall2].
  apply Forall_app in Hbelow as [Hb1 Hb2].
  apply Forall_cons in Hb2 as [Hbe Hb2].
  apply Forall_app in Hothers as [Ho1 Ho2].
  assert (Hother : forall x,
            RawEvent.id x <> RawEvent.id e ->
            eventInvariant (Raw.rsvps s) x ->
            eventInvariant (Raw.rsvps s ++ [newRsvp eid uid clk]) x).
  { intros x Hx. apply eventInvariant_ledger.
    rewrite activeCount_app, activeCount_cons, activeOn_newRsvp, Heid.
    simpl. rewrite (proj2 (Z.eqb_neq _ _)) by congruence.
    unfold activeCount. simpl. lia. }
  split; [|split; [done|split; [split|]]]; simpl.
  - rewrite map_app in *. done.
  - apply Forall_app. split; [done|]. by apply Forall_cons.
  - apply Forall_app. split; [done|]. apply Forall_singleton.
    exists (RawEvent.id e). split; [done|]. exact Hbe.
  - apply Forall_app. split.
    + apply Forall_forall. intros x Hx. apply Hother.
      * exact (proj1 (Forall_forall _ _) Ho1 x Hx).
      * exact (proj1 (Forall_forall _ _) Hall1 x Hx).
    + apply Forall_cons. split.
      * repeat split; simpl.
        -- unfold RawEvent.hasArray in *. simpl.
           by destruct (RawEvent.attendees e).
        -- rewrite activeCount_app, activeCount_cons, activeOn_newRsvp, Heid.
           simpl. rewrite Z.eqb_refl. unfold activeCount at 2. simpl. lia.
        -- lia.
        -- intros c Hc. unfold RawEvent.isFull in Hfull.
           rewrite Hc in Hfull. simpl in Hfull. lia.
      * apply Forall_forall. intros x Hx. apply Hother.
        -- exact (proj1 (Forall_forall _ _) Ho2 x Hx).
        -- exact (proj1 (Forall_forall _ _) Hall2 x Hx).
Qed.

Lemma cancelRSVP_storeInvariant eid uid s :
  storeInvariant s -> storeInvariant (fst (Raw.cancelRSVP eid uid s)).
Proof.
  intros Hinv. raw_cancel_cases eid uid s; [done|].
  destruct Hinv as (Hnd & Hnext & [Hbelow Hrs] & Hall).
  apply isActiveFor_true in Hact as (_ & (z & Hz & ->) & Hst).
  assert (Hon : activeOn z r = true).
  { unfold activeOn. rewrite Hz, Hst. simpl. by rewrite Z.eqb_refl. }
  assert (Hrs' : Forall (fun r' => exists z', Rsvp.eventId r' = Int z' /\
                                              z' < Raw.nextEventId s)
                   (r1 ++ Rsvp.setStatus cancelled r :: r2)).
  { rewrite Hr in Hrs. apply Forall_app in Hrs as [H1 H2].
    apply Forall_cons in H2 as [H2 H3].
    apply Forall_app. split; [done|]. by apply Forall_cons. }
  assert (Hother : forall x,
            RawEvent.id x <> z ->
            eventInvariant (Raw.rsvps s) x ->
            eventInvariant (r1 ++ Rsvp.setStatus cancelled r :: r2) x).
  { intros x Hx. apply eventInvariant_ledger.
    rewrite Hr, !activeCount_app, !activeCount_cons, activeOn_cancelled.
    destruct (activeOn (RawEvent.id x) r) eqn:Hx'; [|done].
    apply activeOn_eventId in Hx'. rewrite Hz in Hx'. congruence. }
  destruct (find (RawEvent.hasId (Int z)) (Raw.events s)) as [e|] eqn:Hfind.
  - destruct (find_Some_split _ _ _ Hfind) as (l1 & l2 & Hev & He & Hl1).
    rewrite Hev in *. rewrite mutateFound_first in Hevs by done. subst evs'.
    pose proof (proj1 (raw_hasId_true _ _) He) as Hid.
    injection Hid as Hid.
    destruct (raw_find_NoDup l1 e l2 (Int z) Hnd He) as [_ Hothers].
    apply Forall_app in Hall as [Hall1 Hall2].
    apply Forall_cons in Hall2 as [(Harr & Hcount & Hnn & Hcap) Hall2].
    apply Forall_app in Hothers as [Ho1 Ho2].
    split; [|split; [done|split; [split|]]]; simpl.
    + rewrite map_app in *. done.
    + apply Forall_app in Hbelow as [Hb1 Hb2].
      apply Forall_cons in Hb2 as [Hbe Hb2].
      apply Forall_app. split; [done|]. by apply Forall_cons.
    + done.
    + assert (Hcount' :
                RawEvent.currentAttendees e - 1
                = startingAttendees (RawEvent.id e)
                  + activeCount (RawEvent.id e)
                      (r1 ++ Rsvp.setStatus cancelled r :: r2)).
      { rewrite Hcount, Hr, !activeCount_app, !activeCount_cons,
          activeOn_cancelled, <- Hid, Hon. lia. }
      apply Forall_app. split.
      * apply Forall_forall. intros x Hx. apply Hother.
        -- rewrite Hid. exact (proj1 (Forall_forall _ _) Ho1 x Hx).
        -- exact (proj1 (Forall_forall _ _) Hall1 x Hx).
      * apply Forall_cons. split.
        -- pose proof (startingAttendees_nonneg (RawEvent.id e)).
           pose proof (activeCount_nonneg (RawEvent.id e)
                         (r1 ++ Rsvp.setStatus cancelled r :: r2)).
           repeat split; simpl.
           ++ unfold RawEvent.hasArray in *. simpl.
              by destruct (RawEvent.attendees e).
           ++ exact Hcount'.
           ++ lia.
           ++ intros c Hc. specialize (Hcap c Hc). lia.
        -- apply Forall_forall. intros x Hx. apply Hother.
           ++ rewrite Hid. exact (proj1 (Forall_forall _ _) Ho2 x Hx).
           ++ exact (proj1 (Forall_forall _ _) Hall2 x Hx).
  - rewrite mutateFound_None in Hevs by done. subst evs'.
    split; [done|]. split; [done|]. split; [by split|]. simpl.
    apply Forall_forall. intros x Hx. apply Hother.
    + apply find_None_Forall in Hfind.
      pose proof (proj1 (Forall_forall _ _) Hfind x Hx) as Hno.
      cbv beta in Hno. rewrite raw_hasId_Int in Hno. by apply Z.eqb_neq.
    + exact (proj1 (Forall_forall _ _) Hall x Hx).
Qed.

Lemma serve_storeInvariant rq s :
  Raw.isUpdate rq = false -> storeInvariant s -> storeInvariant (Raw.serve rq s).
Proof.
  destruct rq; simpl; intros Hrq; [|discriminate|..].
  - apply createEvent_storeInvariant.
  - apply deleteEvent_storeInvariant.
  - apply createRSVP_storeInvariant.
  - apply cancelRSVP_storeInvariant.
Qed.

(** X16. What the two services keep between them. Start from the
    initial store and let [createEvent], [deleteEvent], [createRSVP] and
    [cancelRSVP] answer any requests in any order, with any request
    bodies; [updateEvent] is left out, which keeps none of this. In every
    store on the way the event ids are pairwise different and below
    [nextEventId]; no record refers to an id that is yet to be given
    out; every [attendees] is an array, so that no [catch] block of
    [RSVPService] is entered; and for every stored event
    [currentAttendees] is its starting value (23 and 12 for the two
    default events, 0 otherwise) plus the number of its 'attending'
    records, is not negative, and is within the capacity or 0 when the
    capacity is a number. A capacity that [createEvent] stored need not
    lie between 1 and 10,000: it is what [parseInt] made of the
    request. *)
Theorem served_keeps_storeInvariant
    tomorrow nextWeek created1 created2 rqs :
  Forall (fun rq => Raw.isUpdate rq = false) rqs ->
  Forall storeInvariant
    (Raw.served rqs (widen (initialStore tomorrow nextWeek created1 created2))).
Proof.
  pose proof (initial_storeInvariant tomorrow nextWeek created1 created2)
    as H0.
  revert H0.
  generalize (widen (initialStore tomorrow nextWeek created1 created2)).
  induction rqs as [|rq rqs IH]; intros s Hs Hrqs; simpl.
  - by constructor.
  - apply Forall_cons in Hrqs as [Hrq Hrqs].
    constructor; [done|]. apply IH; [|done]. by apply serve_storeInvariant.
Qed.

Lemma served_keeps_storeInvariant_witness :
  let s0 := widen (initialStore 1000 2000 "" "") in
  let minusFive := EventData.mkCapacity false false false (Int (-5)) in
  let rqs :=
    [ Raw.NewEvent
        (EventData.mk (Str "Picnic") (Str "Bring your own food")
           (Some (Int 5000)) (Str "Park") minusFive) "user-7" 500 "";
      Raw.CreateRSVP (Int 3) "user-1" (mkClock 10 10 "");
      Raw.CreateRSVP (Int 1) "user-1" (mkClock 11 11 "");
      Raw.CancelRSVP (Int 1) "user-1";
      Raw.DeleteEvent (Int 3) "user-7" ] in
  Forall (fun rq => Raw.isUpdate rq = false) rqs /\
  Forall storeInvariant (Raw.served rqs s0) /\
  map (fun s => map RawEvent.capacity (Raw.events s)) (Raw.served rqs s0)
  = [ [Int 150; Int 50]; [Int 150; Int 50; Int (-5)];
      [Int 150; Int 50; Int (-5)]; [Int 150; Int 50; Int (-5)];
      [Int 150; Int 50; Int (-5)]; [Int 150; Int 50] ].
Proof.
  intros s0 minusFive rqs.
  assert (Hrqs : Forall (fun rq => Raw.isUpdate rq = false) rqs)
    by repeat constructor.
  split; [exact Hrqs|]. split; [|vm_compute; reflexivity].
  exact (served_keeps_storeInvariant 1000 2000 "" "" rqs Hrqs).
Defined.

(** ** The routes of app.js *)

Lemma raw_updateEvent_not_found eid updateData uid s :
  find (RawEvent.hasId eid) (Raw.events s) = None ->
  Raw.updateEvent eid updateData uid s = (s, inl "Event not found").
Proof.
  intros H. apply findIndex_None_find in H. unfold Raw.updateEvent.
  by rewrite H.
Qed.

Lemma raw_updateEvent_found eid updateData uid s e :
  find (RawEvent.hasId eid) (Raw.events s) = Some e ->
  exists l1 l2,
    Raw.events s = l1 ++ e :: l2 /\
    find (RawEvent.hasId eid) l1 = None /\
    RawEvent.hasId eid e = true /\
    Raw.updateEvent eid updateData uid s
    = if negb (String.eqb (RawEvent.creator e) uid) then
        (s, inl "Not authorized to update this event")
      else if Raw.reducesBelow updateData e then
        (s, inl ("Cannot reduce capacity below current attendees ("
                 ++ numberToString (RawEvent.currentAttendees e) ++ ")")%string)
      else
        (Raw.mkStore (l1 ++ Raw.applyUpdates updateData e :: l2)
           (Raw.nextEventId s) (Raw.rsvps s),
         inr (Raw.applyUpdates updateData e)).
Proof.
  intros Hfind.
  destruct (find_Some_split _ _ _ Hfind) as (l1 & l2 & Hev & He & Hl1).
  exists l1, l2. repeat split; try done.
  unfold Raw.updateEvent. rewrite Hev, findIndex_first by done.
  rewrite list_lookup_middle by done. by rewrite alter_middle.
Qed.


(** X19. The status code of every route, read off the store and the
    request, for a request that reaches its route. Looking up an unknown
    event is 404 for the event routes and for a reservation; an update
    or delete by anyone but the creator is 403; a refused capacity, a
    request to create an event that fails validation or makes it throw,
    and every refused reservation are 400; so is a cancel without an
    'attending' record, whose message 'No active RSVP found for this
    event' does not contain 'not found'; and so are the two answers of
    the [catch] blocks of [RSVPService], 'Failed to process RSVP' and
    'Failed to cancel RSVP', given when the event's [attendees] is no
    array. The one 500 is that of GET /api/events for a search that is
    truthy and no string. *)
Theorem route_status ep userId s :
  Http.status (snd (Http.route ep userId s)) =
  match ep with
  | Http.GetEvents search _ =>
    match search with
    | NotAString => 500
    | _ => 200
    end
  | Http.GetEvent id =>
    match find (RawEvent.hasId id) (Raw.events s) with
    | Some _ => 200
    | None => 404
    end
  | Http.PostEvent body now _ =>
    match Validators.validationErrors body now with
    | Some [] => 201
    | _ => 400
    end
  | Http.PutEvent id body =>
    match find (RawEvent.hasId id) (Raw.events s) with
    | None => 404
    | Some e =>
      if negb (String.eqb (RawEvent.creator e) userId) then 403
      else if Raw.reducesBelow body e then 400
      else 200
    end
  | Http.DeleteEvent id =>
    match find (RawEvent.hasId id) (Raw.events s) with
    | None => 404
    | Some e => if String.eqb (RawEvent.creator e) userId then 200 else 403
    end
  | Http.PostRsvp eventId clk =>
    match find (RawEvent.hasId eventId) (Raw.events s) with
    | None => 404
    | Some e =>
      match find (Rsvp.isActiveFor userId eventId) (Raw.rsvps s) with
      | Some _ => 400
      | None =>
        if num_le (RawEvent.date e) (Int (checkedAt clk))
           || RawEvent.isFull e || negb (RawEvent.hasArray e)
        then 400
        else 201
      end
    end
  | Http.DeleteRsvp eventId =>
    match find (Rsvp.isActiveFor userId eventId) (Raw.rsvps s) with
    | Some _ => if Raw.attendeesThrow eventId s then 400 else 200
    | None => 400
    end
  | _ => 200
  end.
Proof.
  destruct ep as [|search clock|id|body now iso|id body|id| |eid clk|eid| |eid];
    simpl; try done.
  - unfold Http.getEvents, Raw.getAllEvents.
    destruct search as [|term|]; [done| |done].
    by destruct (String.eqb term "").
  - unfold Http.getEvent, Raw.getEventById.
    by destruct (find (RawEvent.hasId id) (Raw.events s)).
  - unfold Http.postEvent.
    destruct (Raw.createEvent body userId now iso s) as [s1 [ev|errs|]]
      eqn:Hmade.
    + by apply createEvent_stored_inv in Hmade as (-> & _).
    + destruct (createEvent_cases body userId now iso s)
        as [(ev & H)|[(errs' & Hval & Hne & H)|(_ & H)]];
        rewrite H in Hmade; [discriminate| |discriminate].
      rewrite Hval. simpl. by destruct errs'.
    + destruct (createEvent_cases body userId now iso s)
        as [(ev & H)|[(errs' & Hval & Hne & H)|(Hval & H)]];
        rewrite H in Hmade; [discriminate..|].
      by rewrite Hval.
  - unfold Http.putEvent.
    destruct (find (RawEvent.hasId id) (Raw.events s)) as [e|] eqn:Hfind.
    + destruct (raw_updateEvent_found id body userId s e Hfind)
        as (l1 & l2 & _ & _ & _ & ->).
      destruct (negb (String.eqb (RawEvent.creator e) userId)); [done|].
      destruct (Raw.reducesBelow body e); [|done].
      cbn [fst snd Http.status]. apply capacity_message_status.
    + by rewrite raw_updateEvent_not_found.
  - unfold Http.deleteEvent.
    destruct (find (RawEvent.hasId id) (Raw.events s)) as [e|] eqn:Hfind.
    + destruct (raw_deleteEvent_found id userId s e Hfind)
        as (l1 & l2 & _ & _ & _ & ->).
      by destruct (String.eqb (RawEvent.creator e) userId).
    + by rewrite raw_deleteEvent_not_found.
  - unfold Http.postRsvp. raw_create_cases eid userId clk s; simpl.
    + by rewrite Hfind.
    + rewrite Hfind, Hdate. simpl. by destruct (find _ (Raw.rsvps s)).
    + by rewrite Hfind, Hdup.
    + rewrite Hfind, Hdup, Hdate, Hfull. done.
    + rewrite Hev, find_first, Hdup, Hdate, Hfull;
        [|done|by apply raw_hasId_true].
      by destruct (RawEvent.hasArray e).
  - unfold Http.deleteRsvp. raw_cancel_cases eid userId s; simpl.
    + by rewrite Hnone.
    + rewrite Hr, find_first by done.
      by destruct (Raw.attendeesThrow eid s).
Qed.



(** ** One user per request *)

Lemma knownUsers_more ts ts' s :
  (forall t, t ∈ ts -> t ∈ ts') -> knownUsers ts s -> knownUsers ts' s.
Proof.
  intros Hsub [He Hr]. split.
  - eapply Forall_impl; [exact He|]. simpl.
    intros e [?|(t & Ht & ?)]; [by left|]. right. exists t. auto.
  - eapply Forall_impl; [exact Hr|]. simpl.
    intros r (t & Ht & ?). exists t. auto.
Qed.

Lemma knownUsers_stranger t ts s :
  knownUsers ts s -> t ∉ ts ->
  Forall (fun e => String.eqb (RawEvent.creator e) (userAt t) = false)
    (Raw.events s)
  /\ Forall (fun r => Rsvp.userId r <> userAt t) (Raw.rsvps s).
Proof.
  intros [He Hr] Ht. split.
  - eapply Forall_impl; [exact He|]. simpl. intros e H.
    apply String.eqb_neq.
    destruct H as [H|(t' & Ht' & H)]; rewrite H.
    + intros Heq. by apply (userAt_not_admin t).
    + intros Heq%userAt_inj. by subst.
  - eapply Forall_impl; [exact Hr|]. simpl. intros r (t' & Ht' & H).
    rewrite H. intros Heq%userAt_inj. by subst.
Qed.

Lemma find_creator_stranger eid uid l e :
  Forall (fun e => String.eqb (RawEvent.creator e) uid = false) l ->
  find (RawEvent.hasId eid) l = Some e ->
  String.eqb (RawEvent.creator e) uid = false.
Proof.
  intros H Hfind. apply find_Some_elem in Hfind as [Hin _].
  exact (proj1 (Forall_forall _ _) H e Hin).
Qed.

Lemma route_stranger ep rq t ts s :
  Http.endpoint rq = ep -> Http.stopped rq = None ->
  strangersOnly ts s -> t ∉ ts ->
  strangersOnly (t :: ts) (fst (Http.route ep (userAt t) s)) /\
  map RawEvent.id (Raw.events s)
    `prefix_of` map RawEvent.id
                  (Raw.events (fst (Http.route ep (userAt t) s))) /\
  answeredAsStranger rq (snd (Http.route ep (userAt t) s)).
Proof.
  intros Hep Hgo (Hknown & Hatt & Harr) Ht.
  destruct (knownUsers_stranger t ts s Hknown Ht) as [Hcre Hrec].
  assert (Hlater : knownUsers (t :: ts) s).
  { eapply knownUsers_more; [|exact Hknown]. intros t' Ht'. by right. }
  assert (Hsame : strangersOnly (t :: ts) s /\
                  map RawEvent.id (Raw.events s)
                    `prefix_of` map RawEvent.id (Raw.events s))
    by done.
  unfold answeredAsStranger. rewrite Hep.
  destruct ep as [|search clock|id|body now iso|id body|id| |eid clk|eid| |eid];
    simpl.
  - destruct Hsame. split; [done|]. split; [done|]. by right; right.
  - unfold Http.getEvents. destruct (Raw.getAllEvents search clock s);
      simpl; destruct Hsame; (split; [done|]); (split; [done|]);
      by right; right.
  - unfold Http.getEvent. destruct (Raw.success _); simpl;
      destruct Hsame; (split; [done|]); (split; [done|]); by right; right.
  - unfold Http.postEvent.
    destruct (Raw.createEvent body (userAt t) now iso s) as [s1 [ev|errs|]]
      eqn:Hmade.
    + apply createEvent_stored_inv in Hmade
        as (_ & ti & d & l & dt & _ & _ & _ & _ & Hev & ->).
      simpl. split; [|split; [|by right; right]].
      * destruct Hlater as [He Hr].
        split; [split|split]; simpl; try done.
        -- apply Forall_app. split; [done|]. apply Forall_singleton.
           right. exists t. split; [by left|]. by rewrite Hev.
        -- apply Forall_app. split; [done|]. apply Forall_singleton.
           by rewrite Hev.
      * rewrite map_app. by apply prefix_app_r.
    + destruct (createEvent_cases body (userAt t) now iso s)
        as [(ev & H)|[(errs' & _ & _ & H)|(_ & H)]];
        rewrite H in Hmade; [discriminate| |discriminate].
      injection Hmade as <- _. simpl.
      destruct Hsame. split; [done|]. split; [done|]. by right; right.
    + destruct (createEvent_cases body (userAt t) now iso s)
        as [(ev & H)|[(errs' & _ & _ & H)|(_ & H)]];
        rewrite H in Hmade; [discriminate..|].
      injection Hmade as <-. simpl.
      destruct Hsame. split; [done|]. split; [done|]. by right; right.
  - unfold Http.putEvent.
    destruct (find (RawEvent.hasId id) (Raw.events s)) as [e|] eqn:Hfind.
    + destruct (raw_updateEvent_found id body (userAt t) s e Hfind)
        as (l1 & l2 & _ & _ & _ & ->).
      rewrite (find_creator_stranger _ _ _ _ Hcre Hfind). simpl.
      destruct Hsame. split; [done|]. split; [done|].
      right. right. by left.
    + rewrite raw_updateEvent_not_found by done. simpl.
      destruct Hsame. split; [done|]. split; [done|].
      right. right. by right.
  - unfold Http.deleteEvent.
    destruct (find (RawEvent.hasId id) (Raw.events s)) as [e|] eqn:Hfind.
    + destruct (raw_deleteEvent_found id (userAt t) s e Hfind)
        as (l1 & l2 & _ & _ & _ & ->).
      rewrite (find_creator_stranger _ _ _ _ Hcre Hfind). simpl.
      destruct Hsame. split; [done|]. split; [done|].
      right. right. by left.
    + rewrite raw_deleteEvent_not_found by done. simpl.
      destruct Hsame. split; [done|]. split; [done|].
      right. right. by right.
  - destruct Hsame. split; [done|]. split; [done|].
    right. right. unfold Raw.getUserEvents. by rewrite filter_none.
  - unfold Http.postRsvp.
    pose proof (find_isActiveFor_stranger (userAt t) eid _ Hrec) as Hno.
    raw_create_cases eid (userAt t) clk s; simpl.
    + destruct Hsame. split; [done|]. split; [done|].
      right. right. right. by left.
    + destruct Hsame. split; [done|]. split; [done|].
      right. right. right. right. by left.
    + congruence.
    + destruct Hsame. split; [done|]. split; [done|].
      right. right. right. right. by right.
    + destruct Hlater as [He Hr]. rewrite Hev in Harr, He.
      pose proof Harr as Harr'.
      apply Forall_app in Harr' as [Ha1 Ha2].
      apply Forall_cons in Ha2 as [Hae Ha2].
      rewrite Hae. simpl.
      split; [|split; [|right; right; by left]].
      * split; [split|split]; simpl.
        -- apply Forall_app in He as [H1 H2].
           apply Forall_cons in H2 as [H2 H3].
           apply Forall_app. split; [done|]. by apply Forall_cons.
        -- apply Forall_app. split; [done|]. apply Forall_singleton.
           exists t. split; [by left|done].
        -- apply Forall_app. split; [done|]. by apply Forall_singleton.
        -- apply Forall_app. split; [done|]. apply Forall_cons.
           split; [|done]. unfold RawEvent.hasArray in *. simpl.
           by destruct (RawEvent.attendees e).
      * rewrite Hev, !map_app. done.
  - unfold Http.deleteRsvp.
    pose proof (find_isActiveFor_stranger (userAt t) eid _ Hrec) as Hno.
    raw_cancel_cases eid (userAt t) s; simpl.
    + destruct Hsame. split; [done|]. split; [done|]. by right; right.
    + exfalso. rewrite Hr, find_first in Hno by done. discriminate.
  - destruct Hsame. split; [done|]. split; [done|].
    right. right. unfold Raw.getUserRSVPs. rewrite filter_none; [done|].
    eapply Forall_impl; [exact Hrec|]. simpl. intros r Hr.
    apply andb_false_iff. left. by apply String.eqb_neq.
  - destruct Hsame. split; [done|]. split; [done|].
    right. right. unfold Http.getStatus, Raw.checkRSVPStatus.
    by rewrite (find_isActiveFor_stranger (userAt t) eid _ Hrec).
Qed.

Lemma handle_stranger rq ts s :
  strangersOnly ts s ->
  Http.receivedAt rq ∉ ts ->
  strangersOnly (Http.receivedAt rq :: ts) (fst (Http.handle rq s)) /\
  map RawEvent.id (Raw.events s)
    `prefix_of` map RawEvent.id (Raw.events (fst (Http.handle rq s))) /\
  answeredAsStranger rq (snd (Http.handle rq s)).
Proof.
  intros Hs Ht. unfold Http.handle.
  assert (Hlater : strangersOnly (Http.receivedAt rq :: ts) s).
  { destruct Hs as (Hknown & ? & ?). split; [|done].
    eapply knownUsers_more; [|exact Hknown]. intros t' Ht'. by right. }
  destruct (Http.stopped rq) as [status|] eqn:Hgo.
  - simpl. split; [done|]. split; [done|]. left. by rewrite Hgo.
  - destruct (Http.protected (Http.endpoint rq)) eqn:Hprot.
    + destruct (auth (Http.authorization rq) (Http.receivedAt rq))
        as [userId|] eqn:Hauth.
      * apply auth_Some in Hauth as ->. by apply route_stranger.
      * simpl. split; [done|]. split; [done|]. right. by left.
    + unfold answeredAsStranger.
      destruct (Http.endpoint rq); try discriminate; simpl.
      * unfold Http.getEvents. destruct (Raw.getAllEvents search clock s);
          simpl; (split; [done|]); (split; [done|]); by right; right.
      * unfold Http.getEvent. destruct (Raw.success _); simpl;
          (split; [done|]); (split; [done|]); by right; right.
Qed.

Lemma after_app rqs1 rqs2 s :
  Http.after (rqs1 ++ rqs2) s = Http.after rqs2 (Http.after rqs1 s).
Proof.
  revert s. induction rqs1 as [|rq rqs1 IH]; intros s; simpl; [done|].
  apply IH.
Qed.

Lemma stranger_run rqs :
  forall ts s,
    strangersOnly ts s ->
    NoDup (map Http.receivedAt rqs) ->
    Forall (fun rq => Http.receivedAt rq ∉ ts) rqs ->
    strangersOnly (rev (map Http.receivedAt rqs) ++ ts) (Http.after rqs s) /\
    Forall2 answeredAsStranger rqs (Http.answers rqs s) /\
    map RawEvent.id (Raw.events s)
      `prefix_of` map RawEvent.id (Raw.events (Http.after rqs s)).
Proof.
  induction rqs as [|rq rqs IH]; intros ts s Hs Hnd Hnew; simpl.
  - split; [done|]. split; [constructor|done].
  - apply NoDup_cons in Hnd as [Hrq Hnd].
    apply Forall_cons in Hnew as [Hnew1 Hnew].
    destruct (handle_stranger rq ts s Hs Hnew1) as (Hs' & Hpre & Hans).
    destruct (IH (Http.receivedAt rq :: ts) (fst (Http.handle rq s))
                Hs' Hnd) as (IH1 & IH2 & IH3).
    { apply Forall_forall. intros rq' Hin.
      apply not_elem_of_cons. split.
      - intros Heq. apply Hrq. rewrite <- Heq.
        apply list_elem_of_fmap. by exists rq'.
      - exact (proj1 (Forall_forall _ _) Hnew rq' Hin). }
    split; [|split; [by constructor|by etrans]].
    by rewrite <- app_assoc.
Qed.

(** X22. One user per request. [auth] names the user after its clock
    reading, so when no two requests are read at the same clock value,
    every request comes from a user the store has never seen. From the
    initial store, whatever the requests and their bodies, every
    request that reaches its route and passes [auth] is answered as a
    stranger is: a cancel with 400 'No active RSVP found for this
    event'; an update or delete of an event with 403 or 404; the lists
    of created events and of reservations are empty and the status
    check says no; a reservation is admitted, or turned down as unknown,
    past or full, never as a duplicate. So every record of the ledger
    stays 'attending', and no event is ever removed: the ids held after
    any part of the requests are still held, in the same order, after
    all of them. *)
Theorem one_user_per_request tomorrow nextWeek created1 created2 rqs :
  NoDup (map Http.receivedAt rqs) ->
  let s0 := widen (initialStore tomorrow nextWeek created1 created2) in
  Forall2 answeredAsStranger rqs (Http.answers rqs s0) /\
  Forall (fun r => Rsvp.status r = attending)
    (Raw.rsvps (Http.after rqs s0)) /\
  (forall rqs1 rqs2,
     rqs = rqs1 ++ rqs2 ->
     map RawEvent.id (Raw.events (Http.after rqs1 s0))
       `prefix_of` map RawEvent.id (Raw.events (Http.after rqs s0))).
Proof.
  intros Hnd s0.
  assert (H0 : strangersOnly [] s0).
  { split; [split|split]; simpl; repeat constructor. }
  assert (Hfresh : forall l : list Http.Request,
            Forall (fun rq => Http.receivedAt rq ∉ []) l).
  { intros l. apply Forall_forall. intros rq _. apply not_elem_of_nil. }
  destruct (stranger_run rqs [] s0 H0 Hnd (Hfresh rqs))
    as ((_ & Hatt & _) & Hans & _).
  split; [done|]. split; [done|].
  intros rqs1 rqs2 ->. rewrite map_app in Hnd.
  apply NoDup_app in Hnd as (Hnd1 & Hdis & Hnd2).
  destruct (stranger_run rqs1 [] s0 H0 Hnd1 (Hfresh rqs1)) as (Hs1 & _ & _).
  rewrite after_app.
  apply (stranger_run rqs2 _ _ Hs1 Hnd2).
  apply Forall_forall. intros rq Hin Hold.
  rewrite app_nil_r, list_elem_of_In, <- List.in_rev, <- list_elem_of_In
    in Hold.
  apply (Hdis _ Hold). apply list_elem_of_fmap. by exists rq.
Qed.

Lemma one_user_per_request_witness :
  let s0 := widen (initialStore 1000 2000 "" "") in
  let token := Some "Bearer demo-token-1" in
  let rqs :=
    [ Http.mkRequest None token 10
        (Http.PostRsvp (Int 1) (mkClock 10 10 ""));
      Http.mkRequest None token 11
        (Http.PostRsvp (Int 1) (mkClock 11 11 ""));
      Http.mkRequest None token 12 (Http.DeleteRsvp (Int 1));
      Http.mkRequest None token 13
        (Http.PutEvent (Int 1) Raw.UpdateData.noArray);
      Http.mkRequest None token 14 Http.GetAttending ] in
  NoDup (map Http.receivedAt rqs) /\
  map Http.status (Http.answers rqs s0) = [201; 201; 400; 403; 200] /\
  Forall2 answeredAsStranger rqs (Http.answers rqs s0) /\
  Forall (fun r => Rsvp.status r = attending)
    (Raw.rsvps (Http.after rqs s0)).
Proof.
  intros s0 token rqs.
  assert (Hnd : NoDup (map Http.receivedAt rqs)).
  { simpl. repeat constructor; rewrite ?elem_of_cons, ?elem_of_nil;
      intuition discriminate. }
  split; [exact Hnd|]. split; [vm_compute; reflexivity|].
  destruct (one_user_per_request 1000 2000 "" "" rqs Hnd) as (H1 & H2 & _).
  by split.
Defined.
